(** * Retrieval core of the tutoring chat server

    A shallow embedding of [server/services/vectorService.ts] (class
    [VectorService]), of [deleteVideo], [searchTranscripts] and
    [createTranscriptChunks] of [VideoService]
    ([server/video/VideoService.ts]), of [chunkText] and [chunkByLines]
    ([server/utils/pdf-processor.ts]) and of
    [cleanupExpiredTemporaryDocuments] ([server/storage.ts]).

    Modelling conventions.
    - JavaScript numbers that hold identifiers and counts are [Z]; an
      optional argument ([number | undefined]) is [option Z].
    - Distances and scores are exact rationals ([Q]); the rounding of the
      double-precision arithmetic of the source is not modelled, except
      that the two counts of the video combiner are compared with their
      double-precision computation.
    - A timestamp is the number of milliseconds since the epoch.  The source
      stores [createdAt] as the string [new Date().toISOString()] and reads
      it back with [new Date(...)]; a row holds the instant.
    - A predicate is sent to the store as text; the model holds the text as
      the store parses it, and the store plans it before it reads a row.
    - The LanceDB store, the embedding provider and the relational tables
      are outside the repository.  The store is modelled by its two tables,
      the provider by a function of the environment.  Every call to the
      store consumes one entry of a fault schedule and throws when the
      entry says so, which lets the theorems range over all store failures.
    - An [async] method is a state transformer that returns a value or
      throws; state changes made before a throw persist. *)

From Stdlib Require Import ZArith QArith Qround Qminmax List Bool Lia Lqa.
From Stdlib Require Import Sorted Permutation.
From Stdlib Require Import String Ascii DecimalString.
From Stdlib Require Import Floats.PrimFloat Floats.SpecFloat Floats.FloatOps.
From Stdlib Require Import Uint63.
Import ListNotations.
Open Scope Z_scope.

(** ** JavaScript values *)

Module JS.

(** A string is its sequence of UTF-16 code units. *)
Definition str := list N.

Definition lit (s : string) : str :=
  List.map N_of_ascii (list_ascii_of_string s).

Definition eqb (a b : str) : bool :=
  if list_eq_dec N.eq_dec a b then true else false.

(** WhiteSpace and LineTerminator of ECMAScript, the code units that
    [String.prototype.trim] removes. *)
Definition isWhiteSpace (c : N) : bool :=
  (((9 <=? c) && (c <=? 13)) || (c =? 32) || (c =? 160) || (c =? 5760)
   || ((8192 <=? c) && (c <=? 8202)) || (c =? 8232) || (c =? 8233)
   || (c =? 8239) || (c =? 8287) || (c =? 12288) || (c =? 65279))%N.

Fixpoint trimStart (s : str) : str :=
  match s with
  | [] => []
  | c :: s' => if isWhiteSpace c then trimStart s' else s
  end.

Definition trimEnd (s : str) : str := rev (trimStart (rev s)).

Definition trim (s : str) : str := trimEnd (trimStart s).

(** The order of two strings, code unit by code unit. *)
Fixpoint ltb (a b : str) : bool :=
  match a, b with
  | _, [] => false
  | [], _ :: _ => true
  | x :: a', y :: b' => (x <? y)%N || ((x =? y)%N && ltb a' b')
  end.

(** A whole number in decimal, as a template literal writes it. *)
Definition decimal (z : Z) : str :=
  lit (NilZero.string_of_int (Z.to_int z)).

Definition digit (z : Z) : N := (48 + Z.to_N z)%N.

(** The last [n] decimal digits of [z]. *)
Fixpoint digits (n : nat) (z : Z) : str :=
  match n with
  | O => []
  | S n' => digits n' (z / 10) ++ [digit (z mod 10)]
  end.

(** Year, month and day of a day number counted from the epoch, in the
    proleptic Gregorian calendar. *)
Definition civil (days : Z) : Z * Z * Z :=
  let z := days + 719468 in
  let era := z / 146097 in
  let doe := z - era * 146097 in
  let yoe := (doe - doe / 1460 + doe / 36524 - doe / 146096) / 365 in
  let doy := doe - (365 * yoe + yoe / 4 - yoe / 100) in
  let mp := (5 * doy + 2) / 153 in
  let d := doy - (153 * mp + 2) / 5 + 1 in
  let m := if mp <? 10 then mp + 3 else mp - 9 in
  let y := yoe + era * 400 + (if m <=? 2 then 1 else 0) in
  (y, m, d).

(** [Date.prototype.toISOString] of the instant [t], for an instant a
    [Date] can hold: [YYYY-MM-DDTHH:mm:ss.sssZ], the year with a sign
    and six digits outside 0..9999. *)
Definition toISOString (t : Z) : str :=
  let ms := t mod 86400000 in
  let '(y, m, d) := civil (t / 86400000) in
  (if (0 <=? y) && (y <=? 9999) then digits 4 y
   else (if y <? 0 then 45%N else 43%N) :: digits 6 (Z.abs y))
  ++ [45%N] ++ digits 2 m ++ [45%N] ++ digits 2 d ++ [84%N]
  ++ digits 2 (ms / 3600000) ++ [58%N] ++ digits 2 (ms / 60000 mod 60)
  ++ [58%N] ++ digits 2 (ms / 1000 mod 60) ++ [46%N]
  ++ digits 3 (ms mod 1000) ++ [90%N].

(** Truthiness of a string: the empty string is falsy. *)
Definition truthy (s : str) : bool :=
  match s with [] => false | _ => true end.

(** [x || y] on an optional number: [undefined] and [0] are falsy. *)
Definition orNum (x : option Z) (y : Z) : Z :=
  match x with
  | Some v => if v =? 0 then y else v
  | None => y
  end.

(** Truthiness of an optional number, as in [if (subjectId)]. *)
Definition truthyNum (x : option Z) : bool :=
  match x with
  | Some v => negb (v =? 0)
  | None => false
  end.

(** [r.userId === userId] for a number against [number | undefined]. *)
Definition strictEq (v : Z) (x : option Z) : bool :=
  match x with
  | Some u => v =? u
  | None => false
  end.

(** [d || 0] on a number. *)
Definition orZero (d : Q) : Q := if Qeq_bool d 0 then 0%Q else d.

(** [Array.prototype.slice(0, k)]. *)
Definition slice0 {A} (k : Z) (l : list A) : list A :=
  let len := Z.of_nat (List.length l) in
  firstn (Z.to_nat (if k <? 0 then Z.max (len + k) 0 else k)) l.

(** [Array.prototype.sort(cmp)]: the sort is stable, so for a comparator
    that orders by a key the result is the one of insertion from the
    right, where an element goes before the first one it does not
    exceed. *)
Fixpoint insert {A} (cmp : A -> A -> Q) (x : A) (l : list A) : list A :=
  match l with
  | [] => [x]
  | y :: l' => if Qle_bool (cmp x y) 0 then x :: l
               else y :: insert cmp x l'
  end.

Fixpoint sort {A} (cmp : A -> A -> Q) (l : list A) : list A :=
  match l with
  | [] => []
  | x :: l' => insert cmp x (sort cmp l')
  end.

End JS.

(** ** Data model *)

Definition Vec := list Q.

(** A row of the [documents] table. *)
Module Doc.
Record row := mk {
  vector : Vec;
  text : JS.str;
  documentId : Z;
  chunkIndex : Z;
  subjectId : Z;
  userId : Z;
  sessionId : Z;
  isTemporary : bool;
  createdAt : Z
}.
End Doc.

(** A row of the [video_transcripts] table. *)
Module Video.
Record row := mk {
  vector : Vec;
  text : JS.str;
  videoId : Z;
  chunkId : Z;
  startTime : Z;
  endTime : Z;
  subjectId : Z;
  createdAt : Z
}.
End Video.

(** A transcript chunk as handed to [processVideoTranscriptChunks]. *)
Module Chunk.
Record t := mk {
  id : option Z;
  text : JS.str;
  chunkIndex : Z
}.
End Chunk.

(** A row returned by a search of [documents], with its [_distance]. *)
Module DocHit.
Record t := mk {
  row : Doc.row;
  _distance : Q
}.
End DocHit.

Inductive Category := temporary | permanent | other.

(** An entry of the list returned by [searchDocumentsWithContext]:
    [{ ...doc, category, score }]. *)
Module Scored.
Record t := mk {
  doc : DocHit.t;
  category : Category;
  score : Q
}.
End Scored.

(** An entry of the list returned by [searchVideoTranscripts]. *)
Module VideoHit.
Record t := mk {
  text : JS.str;
  videoId : Z;
  chunkId : Z;
  subjectId : Z;
  score : Q
}.
End VideoHit.

(** The object returned by [searchCombinedForVideoQA]. *)
Module Combined.
Record t := mk {
  videos : list VideoHit.t;
  documents : list Scored.t;
  totalSources : Z;
  currentVideoId : option Z
}.
End Combined.

(** ** The process and its store *)

Inductive TableName := Documents | VideoTranscripts.

Inductive Event :=
| EvDropTable (name : TableName) (rows : nat)
| EvCreateTable (name : TableName)
| EvEmbedding (text : JS.str).

(** The state a method of [VectorService] runs in: the two tables of the
    store ([None]: the table does not exist), the three private fields of
    the service (as "is not null"), the ids of the relational [videos]
    table, the fault schedule of the store and the events so far (most
    recent first). *)
Record World := mkWorld {
  documents : option (list Doc.row);
  video_transcripts : option (list Video.row);
  db : bool;
  table : bool;
  videoTable : bool;
  videos : list Z;
  faults : list bool;
  trace : list Event
}.

Definition setDocuments (t : option (list Doc.row)) (w : World) : World :=
  mkWorld t (video_transcripts w) (db w) (table w) (videoTable w)
          (videos w) (faults w) (trace w).

Definition setVideoTranscripts (t : option (list Video.row)) (w : World)
  : World :=
  mkWorld (documents w) t (db w) (table w) (videoTable w)
          (videos w) (faults w) (trace w).

Definition setDb (b : bool) (w : World) : World :=
  mkWorld (documents w) (video_transcripts w) b (table w) (videoTable w)
          (videos w) (faults w) (trace w).

Definition setTable (b : bool) (w : World) : World :=
  mkWorld (documents w) (video_transcripts w) (db w) b (videoTable w)
          (videos w) (faults w) (trace w).

Definition setVideoTable (b : bool) (w : World) : World :=
  mkWorld (documents w) (video_transcripts w) (db w) (table w) b
          (videos w) (faults w) (trace w).

Definition setVideos (v : list Z) (w : World) : World :=
  mkWorld (documents w) (video_transcripts w) (db w) (table w)
          (videoTable w) v (faults w) (trace w).

Definition setFaults (f : list bool) (w : World) : World :=
  mkWorld (documents w) (video_transcripts w) (db w) (table w)
          (videoTable w) (videos w) f (trace w).

Definition emit (e : Event) (w : World) : World :=
  mkWorld (documents w) (video_transcripts w) (db w) (table w)
          (videoTable w) (videos w) (faults w) (e :: trace w).

(** *** Computations that may throw *)

Inductive Result (A : Type) :=
| Ok (a : A)
| Thrown.
Arguments Ok {A} a.
Arguments Thrown {A}.

Definition M (A : Type) : Type := World -> Result A * World.

Definition ret {A} (a : A) : M A := fun w => (Ok a, w).

Definition throw {A} : M A := fun w => (Thrown, w).

Definition bind {A B} (m : M A) (k : A -> M B) : M B :=
  fun w =>
    match m w with
    | (Ok a, w') => k a w'
    | (Thrown, w') => (Thrown, w')
    end.

(** [try { m } catch { h }]. *)
Definition tryCatch {A} (m : M A) (h : M A) : M A :=
  fun w =>
    match m w with
    | (Ok a, w') => (Ok a, w')
    | (Thrown, w') => h w'
    end.

Declare Scope js_scope.
Delimit Scope js_scope with js.
Notation "x <- m ;; k" := (bind m (fun x => k))
  (at level 61, m at next level, right associativity) : js_scope.
Notation "m ;; k" := (bind m (fun _ => k))
  (at level 61, right associativity) : js_scope.
Open Scope js_scope.

Definition modify (f : World -> World) : M unit := fun w => (Ok tt, f w).

Definition when (b : bool) (m : M unit) : M unit := if b then m else ret tt.

(** One call into the store: it takes the next entry of the fault
    schedule and throws if the entry is [true]. *)
Definition storeCall : M unit :=
  fun w =>
    match faults w with
    | [] => (Ok tt, w)
    | b :: fs => if b then (Thrown, setFaults fs w)
                 else (Ok tt, setFaults fs w)
    end.

(** ** The environment: embedding provider and store parameters *)

(** The time zone of the process: [localTime t] is the reading of the
    local wall clock at the instant [t], and [utc l] the instant at which
    the local wall clock reads [l] (LocalTime and UTC of ECMAScript). *)
Record Calendar := mkCalendar {
  localTime : Z -> Z;
  utc : Z -> Z
}.

Definition utcCalendar : Calendar := mkCalendar (fun t => t) (fun l => l).

Record Env := mkEnvIn {
  (** The time zone the process runs in. *)
  calendar : Calendar;
  (** [openai.embeddings.create]; [None] when the call fails. *)
  getEmbedding : JS.str -> option Vec;
  (** The metric of the store. *)
  distance : Vec -> Vec -> Q;
  (** Whether [where] is applied before or after [limit]. *)
  prefilter : bool
}.

(** The environment of a process that runs in UTC. *)
Definition mkEnv (getEmbedding : JS.str -> option Vec)
           (distance : Vec -> Vec -> Q) (prefilter : bool) : Env :=
  mkEnvIn utcCalendar getEmbedding distance prefilter.

(** *** Predicates

    A [where] clause and the argument of [delete] reach the store as
    text.  The store reads a token between double quotes as a string
    literal, like a token between single quotes, and a bare identifier
    as the name of a column; the only bare identifier the service writes
    is [vector].  (The repository notes a "workaround for LanceDB
    case-sensitive column filtering by filtering results after search",
    which is what [searchDocumentsWithContext] does.) *)
Inductive Operand :=
| Text (s : JS.str)
| Number (z : Z)
| Boolean (b : bool)
| VectorColumn
| Floats (v : Vec).

Inductive Predicate :=
| IsEqual (a b : Operand)
| IsLess (a b : Operand)
| Both (p q : Predicate).

Definition vecEqb (a b : Vec) : bool :=
  (List.length a =? List.length b)%nat
  && forallb (fun p => Qeq_bool (fst p) (snd p)) (combine a b).

Definition tableExists (name : TableName) (w : World) : bool :=
  match name with
  | Documents => match documents w with Some _ => true | None => false end
  | VideoTranscripts =>
      match video_transcripts w with Some _ => true | None => false end
  end.

Definition tableSize (name : TableName) (w : World) : nat :=
  match name with
  | Documents =>
      match documents w with Some r => List.length r | None => O end
  | VideoTranscripts =>
      match video_transcripts w with Some r => List.length r | None => O end
  end.

Definition includes (name : TableName) (names : list TableName) : bool :=
  existsb (fun n => match n, name with
                    | Documents, Documents => true
                    | VideoTranscripts, VideoTranscripts => true
                    | _, _ => false
                    end) names.

(** [connect(LANCEDB_PATH)], assigned to [this.db]. *)
Definition connect : M unit :=
  storeCall ;; modify (setDb true).

(** [this.db] must not be null to call a method on it. *)
Definition useDb : M unit :=
  fun w => if db w then (Ok tt, w) else (Thrown, w).

Definition tableNames : M (list TableName) :=
  useDb ;; storeCall ;;
  fun w =>
    (Ok ((if tableExists Documents w then [Documents] else [])
         ++ (if tableExists VideoTranscripts w then [VideoTranscripts]
             else [])), w).

Definition removeTable (name : TableName) (w : World) : World :=
  match name with
  | Documents => setDocuments None w
  | VideoTranscripts => setVideoTranscripts None w
  end.

(** [this.db.dropTable(name)]: the rows of the table are lost. *)
Definition dropTable (name : TableName) : M unit :=
  useDb ;; storeCall ;;
  fun w =>
    if tableExists name w
    then (Ok tt, emit (EvDropTable name (tableSize name w))
                      (removeTable name w))
    else (Thrown, w).

Section Table.
Context {R : Type}.
Variable name : TableName.
Variable get : World -> option (list R).
Variable set : option (list R) -> World -> World.
Variable handle : World -> bool.
Variable setHandle : bool -> World -> World.
Variable vec : R -> Vec.
Variable env : Env.

(** [this.db.createTable(name, rows)], assigned to the handle; the
    store refuses to create a table that exists.  [overwrite] tells
    that the call has the third argument [{ mode: 'overwrite' }]; the
    client does not take a write mode in that form and rejects the call
    before anything is created. *)
Definition createTable (overwrite : bool) (rows : list R) : M unit :=
  useDb ;;
  if overwrite then throw
  else
    storeCall ;;
    fun w =>
      if tableExists name w then (Thrown, w)
      else (Ok tt, setHandle true (emit (EvCreateTable name)
                                        (set (Some rows) w))).

(** The rows behind a handle; a null handle or a handle on a table
    that no longer exists throws. *)
Definition rowsOf : M (list R) :=
  fun w =>
    if handle w
    then match get w with
         | Some rows => (Ok rows, w)
         | None => (Thrown, w)
         end
    else (Thrown, w).

Definition nearest (q : Vec) (rows : list R) : list (R * Q) :=
  JS.sort (fun a b => (snd a - snd b)%Q)
          (List.map (fun r => (r, distance env (vec r) q)) rows).

(** The store types the two sides of a comparison before it reads a
    row.  It compares a string with a number as strings, the number
    written in decimal; it has no comparison of a string with a boolean
    and rejects a predicate that asks for one. *)
Definition planEqual (a b : Operand) : option (R -> bool) :=
  match a, b with
  | Text s, Text t => Some (fun _ => JS.eqb s t)
  | Text s, Number z => Some (fun _ => JS.eqb s (JS.decimal z))
  | Number z, Text s => Some (fun _ => JS.eqb (JS.decimal z) s)
  | Number y, Number z => Some (fun _ => y =? z)
  | Boolean x, Boolean y => Some (fun _ => Bool.eqb x y)
  | VectorColumn, Floats v => Some (fun r => vecEqb (vec r) v)
  | Floats v, VectorColumn => Some (fun r => vecEqb v (vec r))
  | VectorColumn, VectorColumn => Some (fun _ => true)
  | Floats u, Floats v => Some (fun _ => vecEqb u v)
  | _, _ => None
  end.

Definition planLess (a b : Operand) : option (R -> bool) :=
  match a, b with
  | Text s, Text t => Some (fun _ => JS.ltb s t)
  | Text s, Number z => Some (fun _ => JS.ltb s (JS.decimal z))
  | Number z, Text s => Some (fun _ => JS.ltb (JS.decimal z) s)
  | Number y, Number z => Some (fun _ => y <? z)
  | _, _ => None
  end.

(** The test a predicate makes on a row, or [None] when the store
    rejects the predicate. *)
Fixpoint plan (p : Predicate) : option (R -> bool) :=
  match p with
  | IsEqual a b => planEqual a b
  | IsLess a b => planLess a b
  | Both p q =>
      match plan p, plan q with
      | Some f, Some g => Some (fun r => f r && g r)
      | _, _ => None
      end
  end.

(** [handle.search(q).where(p).limit(n).execute()]; the store rejects
    a limit that is not positive and a predicate it cannot plan. *)
Definition search (q : Vec) (p : option Predicate) (n : Z)
  : M (list (R * Q)) :=
  storeCall ;;
  rows <- rowsOf ;;
  if n <=? 0 then throw
  else
    let ranked := nearest q rows in
    match p with
    | None => ret (firstn (Z.to_nat n) ranked)
    | Some p =>
        match plan p with
        | None => throw
        | Some f =>
            ret (if prefilter env
                 then firstn (Z.to_nat n) (filter (fun h => f (fst h)) ranked)
                 else filter (fun h => f (fst h)) (firstn (Z.to_nat n) ranked))
        end
    end.

Definition add (new : list R) : M unit :=
  storeCall ;;
  rows <- rowsOf ;;
  modify (set (Some (rows ++ new))).

(** [handle.delete(predicate)]: the rows that pass the test of the
    predicate are removed; a predicate that the store cannot plan is
    rejected and no row is touched.  The store also rejects
    [vector = [...]] on a table one of whose stored batches holds two
    rows or more; the batches are not part of the state, and that
    rejection is one of the failures of the fault schedule. *)
Definition delete (p : Predicate) : M unit :=
  storeCall ;;
  rows <- rowsOf ;;
  match plan p with
  | None => throw
  | Some f => modify (set (Some (filter (fun r => negb (f r)) rows)))
  end.

Definition countRows : M Z :=
  storeCall ;;
  rows <- rowsOf ;;
  ret (Z.of_nat (List.length rows)).

End Table.

(** The two handles of the service: [this.table] on [documents] and
    [this.videoTable] on [video_transcripts]. *)
Module DocTable.
Definition createTable :=
  createTable (R := Doc.row) Documents setDocuments setTable.
Definition search := search documents table Doc.vector.
Definition add := add documents setDocuments table.
Definition delete := delete documents setDocuments table Doc.vector.
Definition countRows := countRows documents table.
End DocTable.

Module VideoTable.
Definition createTable :=
  createTable (R := Video.row) VideoTranscripts setVideoTranscripts
              setVideoTable.
Definition search := search video_transcripts videoTable Video.vector.
Definition add := add video_transcripts setVideoTranscripts videoTable.
Definition delete :=
  delete video_transcripts setVideoTranscripts videoTable Video.vector.
Definition countRows := countRows video_transcripts videoTable.
End VideoTable.

(** ** Pure parts of retrieval *)

Definition orDefault (d : Z) (x : option Z) : Z :=
  match x with Some v => v | None => d end.

Fixpoint mapi {A B} (f : Z -> A -> B) (i : Z) (l : list A) : list B :=
  match l with
  | [] => []
  | x :: l' => f i x :: mapi f (i + 1) l'
  end.

Fixpoint allSome {A} (l : list (option A)) : option (list A) :=
  match l with
  | [] => Some []
  | Some a :: l' =>
      match allSome l' with Some r => Some (a :: r) | None => None end
  | None :: _ => None
  end.

(** [[0].concat(Array(1535).fill(0))] and [Array(1536).fill(0)]. *)
Definition zeroVector : Vec := repeat 0%Q 1536.

(** The three filters of [searchDocumentsWithContext], as predicates on a
    row for a caller [(userId, sessionId)]. *)
Definition isTemporaryDoc (userId sessionId : option Z) (r : Doc.row)
  : bool :=
  Doc.isTemporary r && JS.strictEq (Doc.userId r) userId
  && JS.strictEq (Doc.sessionId r) sessionId.

Definition isPermanentDoc (r : Doc.row) : bool :=
  negb (Doc.isTemporary r)
  || ((Doc.userId r =? 0) && (Doc.sessionId r =? 0)).

Definition isOtherDoc (userId sessionId : option Z) (r : Doc.row) : bool :=
  Doc.isTemporary r
  && (negb (JS.strictEq (Doc.userId r) userId)
      || negb (JS.strictEq (Doc.sessionId r) sessionId)).

(** [2 * 60 * 60 * 1000] *)
Definition twoHours : Z := 2 * 60 * 60 * 1000.

(** [twoHoursAgo.setHours(twoHoursAgo.getHours() - 2)] on [new Date()]:
    the hour field of the local time is set back by two, which moves the
    local reading back by two hours (into the day before when need be);
    the instant is the one of that reading. *)
Definition twoHoursAgo (cal : Calendar) (now : Z) : Z :=
  utc cal (localTime cal now - twoHours).

Definition semanticScore (d : DocHit.t) : Q :=
  (1 - JS.orZero (DocHit._distance d))%Q.

(** [createdAt] is a non-empty string in every row, hence truthy. *)
Definition temporalScore (now : Z) (d : DocHit.t) : Q :=
  Qmax 0 (1 - inject_Z (now - Doc.createdAt (DocHit.row d))
              / inject_Z twoHours)%Q.

Definition scoreDocument (now : Z) (d : DocHit.t) (c : Category) : Q :=
  match c with
  | temporary =>
      ((1 # 10) * semanticScore d + (9 # 10) * temporalScore now d + 10)%Q
  | permanent =>
      ((5 # 10) * semanticScore d + (5 # 10) * temporalScore now d + 5)%Q
  | other =>
      ((8 # 10) * semanticScore d + (2 # 10) * temporalScore now d)%Q
  end.

Definition byScoreDescending (a b : Scored.t) : Q :=
  (Scored.score b - Scored.score a)%Q.

(** The list [scoredResults] of the path with a caller identity. *)
Definition scoredResults (now : Z) (userId sessionId : option Z)
           (results : list DocHit.t) : list Scored.t :=
  let temporaryDocs :=
    filter (fun r => isTemporaryDoc userId sessionId (DocHit.row r)) results in
  let permanentDocs :=
    filter (fun r => isPermanentDoc (DocHit.row r)) results in
  let otherDocs :=
    filter (fun r => isOtherDoc userId sessionId (DocHit.row r)) results in
  List.map (fun d => Scored.mk d temporary (scoreDocument now d temporary))
           temporaryDocs
  ++ List.map (fun d => Scored.mk d permanent (scoreDocument now d permanent))
              permanentDocs
  ++ List.map (fun d => Scored.mk d other (scoreDocument now d other))
              otherDocs.

(** The list [allDocs] of the fallback without a caller identity, scored. *)
Definition fallbackResults (userId sessionId : option Z)
           (results : list DocHit.t) : list Scored.t :=
  let temporaryDocs :=
    filter (fun r => isTemporaryDoc userId sessionId (DocHit.row r)) results in
  let permanentDocs :=
    filter (fun r => isPermanentDoc (DocHit.row r)) results in
  let otherDocs :=
    filter (fun r => isOtherDoc userId sessionId (DocHit.row r)) results in
  List.map (fun d => Scored.mk d permanent
                               (1 - JS.orZero (DocHit._distance d) + 5)%Q)
           (temporaryDocs ++ permanentDocs ++ otherDocs).

(** What [searchDocumentsWithContext] does with the rows the store
    returned. *)
Definition rankDocuments (now : Z) (subjectId userId sessionId : option Z)
           (topK : Z) (results : list DocHit.t) : list Scored.t :=
  let results :=
    match subjectId with
    | Some s =>
        filter (fun r => Doc.subjectId (DocHit.row r) =? s) results
    | None => results
    end in
  match userId, sessionId with
  | Some _, Some _ =>
      JS.slice0 topK
        (JS.sort byScoreDescending
                 (scoredResults now userId sessionId results))
  | _, _ =>
      JS.slice0 topK
        (JS.sort byScoreDescending
                 (fallbackResults userId sessionId results))
  end.

Definition byScoreAscending (a b : VideoHit.t) : Q :=
  (VideoHit.score a - VideoHit.score b)%Q.

Definition boost (r : VideoHit.t) : VideoHit.t :=
  VideoHit.mk (VideoHit.text r) (VideoHit.videoId r) (VideoHit.chunkId r)
              (VideoHit.subjectId r) (VideoHit.score r * (5 # 10))%Q.

(** The branch [if (currentVideoId) { ... } else { ... }] of
    [searchCombinedForVideoQA]. *)
Definition rankTranscripts (currentVideoId : option Z) (videoCount : Z)
           (videoResults : list VideoHit.t) : list VideoHit.t :=
  if JS.truthyNum currentVideoId then
    let currentVideoResults :=
      filter (fun r => JS.strictEq (VideoHit.videoId r) currentVideoId)
             videoResults in
    let otherVideoResults :=
      filter (fun r => negb (JS.strictEq (VideoHit.videoId r) currentVideoId))
             videoResults in
    JS.slice0 videoCount
      (JS.sort byScoreAscending
               (List.map boost currentVideoResults ++ otherVideoResults))
  else JS.slice0 videoCount videoResults.

(** [Math.ceil(topK * 0.7)] and [Math.floor(topK * 0.3)]. *)
Definition docCountOf (topK : Z) : Z := Qceiling (inject_Z topK * (7 # 10)).
Definition videoCountOf (topK : Z) : Z := Qfloor (inject_Z topK * (3 # 10)).

(** [chunk.text && chunk.text.trim().length > 0] *)
Definition nonEmptyChunk (c : Chunk.t) : bool :=
  JS.truthy (Chunk.text c)
  && (0 <? List.length (JS.trim (Chunk.text c)))%nat.

(** ** The service *)

Definition initDoc (now : Z) : Doc.row :=
  Doc.mk zeroVector (JS.lit "init") 0 0 0 0 0 false now.

Definition initVideo (now : Z) : Video.row :=
  Video.mk zeroVector (JS.lit "init") 0 0 0 0 0 now.

(** The row of [getVideoSchema()]. *)
Definition schemaVideo (now : Z) : Video.row :=
  Video.mk zeroVector (JS.lit "schema") 0 0 0 0 0 now.

(** *** The predicates sent to the store *)

(** [`"text" = 'init'`] *)
Definition textIsInit : Predicate :=
  IsEqual (Text (JS.lit "text")) (Text (JS.lit "init")).

(** [`"subjectId" = ${subjectId}`], written when [subjectId] is a
    number other than 0. *)
Definition subjectIdIs (subjectId : option Z) : Predicate :=
  IsEqual (Text (JS.lit "subjectId")) (Number (orDefault 0 subjectId)).

(** [`vector = [${record.vector.join(',')}]`] *)
Definition vectorIs (v : Vec) : Predicate := IsEqual VectorColumn (Floats v).

(** [if (!this.handle) await m] *)
Definition unlessSet (handle : World -> bool) (m : M unit) : M unit :=
  fun w => if handle w then (Ok tt, w) else m w.

(** A call to the relational storage layer; it can fail like a call to
    the store. *)
Definition storageCall : M unit := storeCall.

Section Service.
Variable env : Env.

(** [initialize()]: every method reads the clock where it needs it;
    [now] is that reading. *)
Definition initialize (now : Z) : M unit :=
  tryCatch
    (connect ;;
     names <- tableNames ;;
     when (includes Documents names) (dropTable Documents) ;;
     DocTable.createTable false [initDoc now] ;;
     when (includes VideoTranscripts names) (dropTable VideoTranscripts) ;;
     VideoTable.createTable false [initVideo now] ;;
     tryCatch (DocTable.delete textIsInit ;; VideoTable.delete textIsInit)
              (ret tt))
    throw.

(** [getEmbedding(text)]: one request to the provider. *)
Definition embed (text : JS.str) : M Vec :=
  fun w =>
    match getEmbedding env text with
    | Some v => (Ok v, emit (EvEmbedding text) w)
    | None => (Thrown, emit (EvEmbedding text) w)
    end.

(** [Promise.all(chunks.map(async chunk => ... await getEmbedding(chunk)))]:
    every request is issued, and the whole fails if one of them does. *)
Definition embedAll (chunks : list JS.str) : M (list Vec) :=
  fun w =>
    let w' := fold_left (fun w c => emit (EvEmbedding c) w) chunks w in
    match allSome (List.map (getEmbedding env) chunks) with
    | Some vs => (Ok vs, w')
    | None => (Thrown, w')
    end.

Definition processDocumentChunks (now documentId subjectId : Z)
           (chunks : list JS.str) (userId sessionId : option Z)
           (isTemporary : bool) : M unit :=
  unlessSet table (initialize now) ;;
  if (List.length chunks =? 0)%nat then ret tt
  else
    tryCatch
      (vectors <- embedAll chunks ;;
       let records :=
         mapi (fun index cv =>
                 Doc.mk (snd cv) (fst cv) documentId index subjectId
                        (JS.orNum userId 0) (JS.orNum sessionId 0)
                        isTemporary now)
              0 (combine chunks vectors) in
       DocTable.add records ;;
       when (negb isTemporary) storageCall)
      throw.

Definition processTemporaryDocumentChunks (now documentId userId sessionId
           subjectId : Z) (chunks : list JS.str) : M unit :=
  processDocumentChunks now documentId subjectId chunks (Some userId)
                        (Some sessionId) true.

(** [topK] defaults to 10. *)
Definition searchDocumentsWithContext (now : Z) (query : JS.str)
           (subjectId userId sessionId topK : option Z)
  : M (list Scored.t) :=
  let topK := orDefault 10 topK in
  unlessSet table (initialize now) ;;
  tryCatch
    (queryEmbedding <- embed query ;;
     results <- DocTable.search env queryEmbedding None (topK * 3) ;;
     ret (rankDocuments now subjectId userId sessionId topK
            (List.map (fun h => DocHit.mk (fst h) (snd h)) results)))
    throw.

(** [topK] defaults to 5. *)
Definition searchDocuments (now : Z) (query : JS.str)
           (subjectId topK : option Z) : M (list Scored.t) :=
  searchDocumentsWithContext now query subjectId None None
                             (Some (orDefault 5 topK)).

Definition deleteVectorsByDocumentId (now documentId : Z) : M Z :=
  unlessSet table (initialize now) ;;
  tryCatch
    (beforeCount <- DocTable.countRows ;;
     DocTable.delete (IsEqual (Text (JS.lit "documentId"))
                              (Number documentId)) ;;
     afterCount <- DocTable.countRows ;;
     ret (beforeCount - afterCount))
    throw.

Definition deleteVectorsByUserSession (now userId sessionId : Z) : M Z :=
  unlessSet table (initialize now) ;;
  tryCatch
    (beforeCount <- DocTable.countRows ;;
     DocTable.delete
       (Both (Both (IsEqual (Text (JS.lit "userId")) (Number userId))
                   (IsEqual (Text (JS.lit "sessionId")) (Number sessionId)))
             (IsEqual (Text (JS.lit "isTemporary")) (Boolean true))) ;;
     afterCount <- DocTable.countRows ;;
     ret (beforeCount - afterCount))
    throw.

Definition cleanupExpiredTemporaryVectors (now : Z) : M Z :=
  unlessSet table (initialize now) ;;
  tryCatch
    (let cutoffDate := JS.toISOString (twoHoursAgo (calendar env) now) in
     beforeCount <- DocTable.countRows ;;
     DocTable.delete
       (Both (IsEqual (Text (JS.lit "isTemporary")) (Boolean true))
             (IsLess (Text (JS.lit "createdAt")) (Text cutoffDate))) ;;
     afterCount <- DocTable.countRows ;;
     ret (beforeCount - afterCount))
    throw.

(** The loop of [processVideoTranscriptChunks]; [vectorData] is the
    array built so far. *)
Fixpoint transcriptVectors (now videoId subjectId : Z)
         (transcriptChunks : list Chunk.t) (vectorData : list Video.row)
  : M (list Video.row) :=
  match transcriptChunks with
  | [] => ret vectorData
  | chunk :: rest =>
      if nonEmptyChunk chunk then
        embedding <- embed (Chunk.text chunk) ;;
        transcriptVectors now videoId subjectId rest
          (vectorData
           ++ [Video.mk embedding (Chunk.text chunk) videoId
                        (JS.orNum (Chunk.id chunk) (Chunk.chunkIndex chunk))
                        0 0 subjectId now])
      else transcriptVectors now videoId subjectId rest vectorData
  end.

Definition processVideoTranscriptChunks (now videoId subjectId : Z)
           (transcriptChunks : list Chunk.t) : M Z :=
  unlessSet videoTable (initialize now) ;;
  tryCatch
    (vectorData <- transcriptVectors now videoId subjectId
                                     transcriptChunks [] ;;
     when (0 <? List.length vectorData)%nat (VideoTable.add vectorData) ;;
     ret (Z.of_nat (List.length vectorData)))
    throw.

(** [topK] defaults to 5. *)
Definition searchVideoTranscripts (now : Z) (query : JS.str)
           (subjectId topK : option Z) : M (list VideoHit.t) :=
  let topK := orDefault 5 topK in
  unlessSet videoTable (initialize now) ;;
  tryCatch
    (queryEmbedding <- embed query ;;
     results <-
       (if JS.truthyNum subjectId
        then VideoTable.search env queryEmbedding
               (Some (subjectIdIs subjectId)) topK
        else VideoTable.search env queryEmbedding None topK) ;;
     ret (List.map
            (fun r => VideoHit.mk (Video.text (fst r)) (Video.videoId (fst r))
                                  (Video.chunkId (fst r))
                                  (Video.subjectId (fst r))
                                  (JS.orZero (snd r)))
            results))
    throw.

(** The loop [for (const record of recordsToDelete)] of
    [deleteVideoVectors]: a failed delete is logged and skipped. *)
Fixpoint deleteEach (records : list Video.row) (deletedCount : Z) : M Z :=
  match records with
  | [] => ret deletedCount
  | record :: rest =>
      n <- tryCatch
             (VideoTable.delete (vectorIs (Video.vector record)) ;;
              ret (deletedCount + 1))
             (ret deletedCount) ;;
      deleteEach rest n
  end.

Definition deleteVideoVectors (now videoId : Z) : M Z :=
  unlessSet videoTable (initialize now) ;;
  tryCatch
    (found <- VideoTable.search env zeroVector None 10000 ;;
     let allRecords := List.map fst found in
     let recordsToKeep :=
       filter (fun r => negb (Video.videoId r =? videoId)) allRecords in
     let recordsToDelete :=
       filter (fun r => Video.videoId r =? videoId) allRecords in
     if (List.length recordsToDelete =? 0)%nat then ret 0
     else if (List.length recordsToKeep =? 0)%nat then
       dropTable VideoTranscripts ;;
       VideoTable.createTable false [initVideo now] ;;
       tryCatch (VideoTable.delete textIsInit) (ret tt) ;;
       ret (Z.of_nat (List.length recordsToDelete))
     else deleteEach recordsToDelete 0)
    (ret 0).

(** [deleteAllVectors()]: the documents by one predicate delete, the
  transcripts row by row; each half has its own [try]. *)
Definition deleteAllVectors (now : Z) : M Z :=
unlessSet (fun w => table w && videoTable w) (initialize now) ;;
tryCatch
  (docsDeleted <-
     tryCatch
       (docsBefore <- DocTable.countRows ;;
        DocTable.delete (IsEqual (Number 1) (Number 1)) ;;
        docsAfter <- DocTable.countRows ;;
        ret (docsBefore - docsAfter))
       (ret 0) ;;
   videoDeleted <-
     tryCatch
       (VideoTable.countRows ;;
        allVideoRecords <- VideoTable.search env zeroVector None 10000 ;;
        deleteEach (List.map fst allVideoRecords) 0)
       (ret 0) ;;
   ret (docsDeleted + videoDeleted))
  throw.

(** [cleanupAllVideoVectors()], the maintenance operation. *)
Definition cleanupAllVideoVectors (now : Z) : M unit :=
unlessSet videoTable (initialize now) ;;
tryCatch
  (dropTable VideoTranscripts ;;
   VideoTable.createTable true [schemaVideo now])
  throw.

(** [topK] defaults to 5. *)
Definition searchCombinedForVideoQA (now : Z) (query : JS.str)
           (subjectId topK currentVideoId : option Z) : M Combined.t :=
  let topK := orDefault 5 topK in
  tryCatch
    (let docCount := docCountOf topK in
     let videoCount := videoCountOf topK in
     docResults <- searchDocuments now query subjectId (Some docCount) ;;
     videoResults <- searchVideoTranscripts now query subjectId
                                            (Some (videoCount + 3)) ;;
     let videoResults :=
       rankTranscripts currentVideoId videoCount videoResults in
     ret (Combined.mk videoResults docResults
            (Z.of_nat (List.length videoResults)
             + Z.of_nat (List.length docResults))
            currentVideoId))
    throw.

(** [VideoService.deleteVideo]: the file of the video is removed (not
    modelled), then its vectors, then its relational record. *)
Definition deleteVideo (now videoId : Z) : M unit :=
  deleteVideoVectors now videoId ;;
  fun w =>
    (Ok tt, setVideos (filter (fun v => negb (v =? videoId)) (videos w)) w).

(** *** Requests

    The operations a user action reaches, as one type, so that
    statements can range over them and over sequences of them. *)
Inductive Request :=
| Search (query : JS.str) (subjectId userId sessionId topK : option Z)
| Ingest (documentId subjectId : Z) (chunks : list JS.str)
         (userId sessionId : option Z) (isTemporary : bool)
| IngestVideo (videoId subjectId : Z) (transcriptChunks : list Chunk.t)
| SearchVideo (query : JS.str) (subjectId topK : option Z)
| SearchCombined (query : JS.str) (subjectId topK currentVideoId : option Z)
| DeleteDocument (documentId : Z)
| DeleteSession (userId sessionId : Z)
| Sweep
| DeleteAll
| DeleteVideo (videoId : Z)
| CleanupAllVideo.

(** The state after serving a request at time [now], whether the
    method returned or threw. *)
Definition serve (now : Z) (r : Request) (w : World) : World :=
  match r with
  | Search q s u e k => snd (searchDocumentsWithContext now q s u e k w)
  | Ingest d s c u e t => snd (processDocumentChunks now d s c u e t w)
  | IngestVideo v s c => snd (processVideoTranscriptChunks now v s c w)
  | SearchVideo q s k => snd (searchVideoTranscripts now q s k w)
  | SearchCombined q s k c => snd (searchCombinedForVideoQA now q s k c w)
  | DeleteDocument d => snd (deleteVectorsByDocumentId now d w)
  | DeleteSession u e => snd (deleteVectorsByUserSession now u e w)
  | Sweep => snd (cleanupExpiredTemporaryVectors now w)
  | DeleteAll => snd (deleteAllVectors now w)
  | DeleteVideo v => snd (deleteVideo now v w)
  | CleanupAllVideo => snd (cleanupAllVideoVectors now w)
  end.

Fixpoint serveAll (now : Z) (rs : list Request) (w : World) : World :=
  match rs with
  | [] => w
  | r :: rs' => serveAll now rs' (serve now r w)
  end.

End Service.

Definition isDrop (e : Event) : bool :=
  match e with EvDropTable _ _ => true | _ => false end.

(** The tables dropped so far, most recent first. *)
Definition dropped (w : World) : list Event := filter isDrop (trace w).

Definition isEmbedding (e : Event) : bool :=
  match e with EvEmbedding _ => true | _ => false end.

(** The requests sent to the embedding provider so far. *)
Definition embeddings (w : World) : list Event :=
  filter isEmbedding (trace w).

(** ** Notions used by the statements *)

(** How many of the three bucket predicates a row satisfies. *)
Definition bucketCount (userId sessionId : option Z) (r : Doc.row) : nat :=
  ((if isTemporaryDoc userId sessionId r then 1 else 0)
   + (if isPermanentDoc r then 1 else 0)
   + (if isOtherDoc userId sessionId r then 1 else 0))%nat.

(** A hit the scoring was designed for: a distance between 0 and 2 and a
    row that was not created in the future. *)
Definition plausible (now : Z) (d : DocHit.t) : Prop :=
  (0 <= DocHit._distance d)%Q /\ (DocHit._distance d <= 2)%Q
  /\ Doc.createdAt (DocHit.row d) <= now.

(** The priority order of the buckets. *)
Definition outranks (c1 c2 : Category) : bool :=
  match c1, c2 with
  | temporary, permanent => true
  | permanent, other => true
  | temporary, other => true
  | _, _ => false
  end.

(** What a call returned, if it returned. *)
Definition returned {A : Type} (r : Result A) : option A :=
  match r with
  | Ok a => Some a
  | Thrown => None
  end.

(** Both handles of the service are set. *)
Definition initialized (w : World) : Prop :=
  table w = true /\ videoTable w = true.

(** [Precedes a b l]: reading [l] from the front, [a] is met before any
    occurrence of [b]. *)
Inductive Precedes {A : Type} (a b : A) : list A -> Prop :=
| Precedes_nil : Precedes a b []
| Precedes_here (l : list A) : Precedes a b (a :: l)
| Precedes_skip (z : A) (l : list A) :
    z <> b -> Precedes a b l -> Precedes a b (z :: l).

(** A computation that, started with both handles set, ends with both
    handles set and has dropped no table. *)
Definition calm {A} (m : M A) : Prop :=
  forall w, initialized w ->
            initialized (snd (m w)) /\ dropped (snd (m w)) = dropped w.

(** A state change that touches neither the handles nor the record of
    dropped tables. *)
Definition harmless (f : World -> World) : Prop :=
  forall w, table (f w) = table w /\ videoTable (f w) = videoTable w
            /\ dropped (f w) = dropped w.

(** *** Double precision

    The source computes [topK * 0.7] and [topK * 0.3] on binary64 numbers.
    The following functions do the same on the floats of the kernel, so
    that the exact model above can be compared with them. *)

(** [Math.floor] and [Math.ceil] of a finite double. *)
Definition floorOfDouble (x : float) : option Z :=
  match Prim2SF x with
  | S754_zero _ => Some 0
  | S754_finite s m e =>
      let v := if s then - Z.pos m else Z.pos m in
      Some (if 0 <=? e then v * 2 ^ e else v / 2 ^ (- e))
  | _ => None
  end.

Definition ceilOfDouble (x : float) : option Z :=
  match Prim2SF x with
  | S754_zero _ => Some 0
  | S754_finite s m e =>
      let v := if s then - Z.pos m else Z.pos m in
      Some (if 0 <=? e then v * 2 ^ e else - ((- v) / 2 ^ (- e)))
  | _ => None
  end.

(** The doubles nearest to 0.7 and 0.3. *)
Definition double07 : float := 0x1.6666666666666p-1%float.
Definition double03 : float := 0x1.3333333333333p-2%float.

Definition doubleOfZ (k : Z) : float := PrimFloat.of_uint63 (Uint63.of_Z k).

(** Whether the counts computed on doubles are the exact ones. *)
Definition countsAgree (k : Z) : bool :=
  match ceilOfDouble (PrimFloat.mul (doubleOfZ k) double07),
        floorOfDouble (PrimFloat.mul (doubleOfZ k) double03) with
  | Some c, Some f => (c =? docCountOf k) && (f =? videoCountOf k)
  | _, _ => false
  end.

(** The requests whose method contains a [dropTable]. *)
Definition recreates (r : Request) : bool :=
  match r with
  | DeleteVideo _ | CleanupAllVideo => true
  | _ => false
  end.

(** The array [records] that [processDocumentChunks] adds, for the
    vectors the provider returned. *)
Definition documentRecords (now documentId subjectId : Z)
           (userId sessionId : option Z) (isTemporary : bool)
           (chunks : list JS.str) (vectors : list Vec) : list Doc.row :=
  mapi (fun index cv =>
          Doc.mk (snd cv) (fst cv) documentId index subjectId
                 (JS.orNum userId 0) (JS.orNum sessionId 0)
                 isTemporary now)
       0 (combine chunks vectors).

(** Two states that differ at most in the events recorded. *)
Definition sameButTrace (w w' : World) : Prop :=
  documents w' = documents w
  /\ video_transcripts w' = video_transcripts w
  /\ db w' = db w /\ table w' = table w /\ videoTable w' = videoTable w
  /\ videos w' = videos w /\ faults w' = faults w.

(** The provider answers for every text of a list. *)
Definition answersAll (env : Env) (texts : list JS.str) : Prop :=
  forall c, In c texts -> getEmbedding env c <> None.

(** Two states with the same tables and the same handles. *)
Definition sameTables (w w' : World) : Prop :=
  documents w' = documents w
  /\ video_transcripts w' = video_transcripts w
  /\ table w' = table w /\ videoTable w' = videoTable w.

(** A computation that, started with both handles set, changes neither
    the tables nor the handles, whether it returns or throws. *)
Definition readOnly {A} (m : M A) : Prop :=
  forall w, initialized w -> sameTables w (snd (m w)).

(** The requests that are searches. *)
Definition isSearch (r : Request) : bool :=
  match r with
  | Search _ _ _ _ _ | SearchVideo _ _ _ | SearchCombined _ _ _ _ => true
  | _ => false
  end.

(** ** Statistics of the documents table *)

(** The object returned by [getVectorStats]. *)
Module Stats.
Record t := mk {
  totalCount : Z;
  temporaryCount : Z;
  permanentCount : Z;
  expiredCount : Z;
  cutoffDate : JS.str
}.
End Stats.

(** [allRecords.filter(p).length] *)
Definition countWhere {A} (p : A -> bool) (l : list A) : Z :=
  Z.of_nat (List.length (filter p l)).

(** [r.isTemporary === false || (r.userId === 0 && r.sessionId === 0)] *)
Definition countedPermanent (r : Doc.row) : bool :=
  negb (Doc.isTemporary r)
  || ((Doc.userId r =? 0) && (Doc.sessionId r =? 0)).

(** [r.isTemporary === true && r.createdAt && new Date(r.createdAt) <
    twoHoursAgo]; [createdAt] is a non-empty string in every row. *)
Definition expired (cal : Calendar) (now : Z) (r : Doc.row) : bool :=
  Doc.isTemporary r && (Doc.createdAt r <? twoHoursAgo cal now).

(** [getVectorStats()]: the count of the table, and three counts over the
    at most 10000 rows fetched from it. *)
Definition getVectorStats (env : Env) (now : Z) : M Stats.t :=
  unlessSet table (initialize now) ;;
  tryCatch
    (totalCount <- DocTable.countRows ;;
     allRecords <- DocTable.search env zeroVector None 10000 ;;
     let records := List.map fst allRecords in
     ret (Stats.mk totalCount
                   (countWhere Doc.isTemporary records)
                   (countWhere countedPermanent records)
                   (countWhere (expired (calendar env) now) records)
                   (JS.toISOString (twoHoursAgo (calendar env) now))))
    throw.

(** The temporary rows that belong to nobody: the rows that
    [getVectorStats] counts both as temporary and as permanent. *)
Definition ownerlessTemporary (r : Doc.row) : bool :=
  Doc.isTemporary r && (Doc.userId r =? 0) && (Doc.sessionId r =? 0).

(** ** Transcript chunks of [VideoService]

    [VideoService.createTranscriptChunks]
    ([server/video/VideoService.ts]) cuts a transcript into the chunks
    that are stored and then handed to [processVideoTranscriptChunks]. *)

(** A chunk before it is stored. *)
Module NewChunk.
Record t := mk {
  videoId : Z;
  startTime : Z;
  endTime : Z;
  text : JS.str;
  chunkIndex : Z
}.
End NewChunk.

(** The class of the separator: full stop, exclamation mark, question
    mark and their ideographic and full-width forms (U+3002, U+FF01,
    U+FF1F). *)
Definition isSentenceEnd (c : N) : bool :=
  ((c =? 46) || (c =? 33) || (c =? 63) || (c =? 12290) || (c =? 65281)
   || (c =? 65311))%N.

(** [String.prototype.split] on one or more of them: [piece] is the piece
    being read, [inRun] tells that the code unit before was a separator,
    so that a run of separators cuts once. *)
Fixpoint splitSentences (s piece : JS.str) (inRun : bool) : list JS.str :=
  match s with
  | [] => [piece]
  | c :: rest =>
      if isSentenceEnd c
      then if inRun then splitSentences rest [] true
           else piece :: splitSentences rest [] true
      else splitSentences rest (piece ++ [c]) false
  end.

(** [transcript.split(...).map(s => s.trim()).filter(s => s.length > 0)] *)
Definition sentencesOf (transcript : JS.str) : list JS.str :=
  filter (fun s => (0 <? List.length s)%nat)
         (List.map JS.trim (splitSentences transcript [] false)).

(** [Array.prototype.join]. *)
Fixpoint join (sep : JS.str) (l : list JS.str) : JS.str :=
  match l with
  | [] => []
  | [s] => s
  | s :: rest => s ++ sep ++ join sep rest
  end.

(** [chunkText.endsWith('.')] *)
Definition endsWithDot (s : JS.str) : bool :=
  match rev s with
  | c :: _ => (c =? 46)%N
  | [] => false
  end.

(** The loop [for (let i = 0; i < sentences.length; i += 10)]; every
    turn advances [i], so [List.length sentences] turns are enough. *)
Fixpoint chunkLoop (turns : nat) (videoId : Z) (sentences : list JS.str)
         (i : nat) (chunkIndex : Z) : list NewChunk.t :=
  match turns with
  | O => []
  | S turns' =>
      if (i <? List.length sentences)%nat then
        let chunkSentences := firstn 10 (skipn i sentences) in
        let chunkText := JS.trim (join (JS.lit ". ") chunkSentences) in
        if (0 <? List.length chunkText)%nat then
          NewChunk.mk videoId 0 0
                      (chunkText
                       ++ (if endsWithDot chunkText then []
                           else JS.lit "."))
                      chunkIndex
          :: chunkLoop turns' videoId sentences (i + 10) (chunkIndex + 1)
        else chunkLoop turns' videoId sentences (i + 10) chunkIndex
      else []
  end.

Definition createTranscriptChunks (videoId : Z) (transcript : JS.str)
           (duration : Z) : list NewChunk.t :=
  if negb (JS.truthy transcript)
     || (List.length (JS.trim transcript) =? 0)%nat
  then []
  else
    let sentences := sentencesOf transcript in
    if (List.length sentences =? 0)%nat then []
    else chunkLoop (List.length sentences) videoId sentences 0 0.

(** The text of the [k]-th chunk: the [k]-th group of ten sentences,
    joined and closed by a full stop. *)
Definition groupText (sentences : list JS.str) (k : nat) : JS.str :=
  join (JS.lit ". ") (firstn 10 (skipn (10 * k) sentences)) ++ JS.lit ".".

(** The first and the last code unit of a string. *)
Definition firstUnit (s : JS.str) : option N := hd_error s.
Definition lastUnit (s : JS.str) : option N := hd_error (rev s).

(** A string that does not begin or end with white space, and is not
    empty. *)
Definition tight (s : JS.str) : Prop :=
  (exists c, firstUnit s = Some c /\ JS.isWhiteSpace c = false)
  /\ (exists c, lastUnit s = Some c /\ JS.isWhiteSpace c = false).

(** A string without sentence terminators. *)
Definition plain (s : JS.str) : Prop :=
  forall c, In c s -> isSentenceEnd c = false.

(** ** Chunks of a document

    [chunkText] and [chunkByLines] ([server/utils/pdf-processor.ts]) cut
    the text of an uploaded document into the chunks that
    [processDocumentChunks] receives. *)

(** [s.length] *)
Definition lengthZ (s : JS.str) : Z := Z.of_nat (List.length s).

Definition newline : JS.str := [10%N].
Definition space : JS.str := [32%N].

(** The chunks pushed so far and [currentChunk], after one more line. *)
Definition lineTurn (maxChunkSize : Z) (state : list JS.str * JS.str)
           (line : JS.str) : list JS.str * JS.str :=
  let (chunks, currentChunk) := state in
  if (maxChunkSize <? lengthZ currentChunk + lengthZ line + 1)
     && (0 <? lengthZ currentChunk)
  then (chunks ++ [JS.trim currentChunk], line)
  else (chunks,
        (if 0 <? lengthZ currentChunk then currentChunk ++ newline
         else currentChunk) ++ line).

(** [if (currentChunk.trim()) chunks.push(currentChunk.trim())] *)
Definition pushLast (state : list JS.str * JS.str) : list JS.str :=
  let (chunks, currentChunk) := state in
  if JS.truthy (JS.trim currentChunk)
  then chunks ++ [JS.trim currentChunk]
  else chunks.

Definition chunkByLines (lines : list JS.str) (maxChunkSize : Z)
  : list JS.str :=
  pushLast (fold_left (lineTurn maxChunkSize) lines ([], [])).

(** [sentence.match(/[.!?]\s*$/)]: the class [\s] is the white space
    that [trim] removes. *)
Definition endsSentence (s : JS.str) : bool :=
  match rev (JS.trimEnd s) with
  | c :: _ => ((c =? 46) || (c =? 33) || (c =? 63))%N
  | [] => false
  end.

(** [nextSentence.match(/^[A-Z0-9\u00C0-\u1EF9]/)] *)
Definition startsCapital (s : JS.str) : bool :=
  match s with
  | c :: _ => (((65 <=? c) && (c <=? 90)) || ((48 <=? c) && (c <=? 57))
               || ((192 <=? c) && (c <=? 7929)))%N
  | [] => false
  end.

Fixpoint startsWith (prefix s : JS.str) : bool :=
  match prefix, s with
  | [], _ => true
  | a :: prefix', b :: s' => (a =? b)%N && startsWith prefix' s'
  | _ :: _, [] => false
  end.

(** [/^[0-9]+[.)]/] *)
Fixpoint digitsThenMark (s : JS.str) (seen : bool) : bool :=
  match s with
  | [] => false
  | c :: rest =>
      if ((48 <=? c) && (c <=? 57))%N then digitsThenMark rest true
      else (seen && ((c =? 46) || (c =? 41)))%N
  end.

(** The second test on [nextSentence]: a prefix that is one of four
    Vietnamese heading words (given by their code units), a Roman
    numeral alternative ([I{1,3}V?] or [V?I{1,3}], which match exactly
    the strings that begin with [I] or with [VI]), or digits followed by
    a full stop or a closing parenthesis. *)
Definition startsHeading (s : JS.str) : bool :=
  (startsWith [67; 226; 117] s || startsWith [66; 224; 105] s
   || startsWith [80; 104; 7847; 110] s
   || startsWith [67; 104; 432; 417; 110; 103] s
   || startsWith [73] s || startsWith [86; 73] s
   || digitsThenMark s false)%N.

(** The loop of [chunkText] over the sentences that are left;
    [currentLength >= maxChunkSize * 0.5] is compared after doubling. *)
Fixpoint sentenceLoop (maxChunkSize : Z) (sentences chunks : list JS.str)
         (currentChunk : JS.str) (currentLength : Z)
  : list JS.str * JS.str :=
  match sentences with
  | [] => (chunks, currentChunk)
  | sentence :: rest =>
      let sentenceLength := lengthZ sentence in
      if (maxChunkSize <? currentLength + sentenceLength)
         && (0 <? lengthZ currentChunk)
      then sentenceLoop maxChunkSize rest
                        (chunks ++ [JS.trim currentChunk])
                        sentence sentenceLength
      else
        let grown :=
          (if 0 <? lengthZ currentChunk then currentChunk ++ space
           else currentChunk) ++ sentence in
        let grownLength :=
          (if 0 <? lengthZ currentChunk then currentLength + 1
           else currentLength) + sentenceLength in
        if endsSentence sentence
           && match rest with
              | nextSentence :: _ =>
                  startsCapital nextSentence || startsHeading nextSentence
              | [] => false
              end
           && (maxChunkSize <=? 2 * grownLength)
        then sentenceLoop maxChunkSize rest (chunks ++ [JS.trim grown])
                          [] 0
        else sentenceLoop maxChunkSize rest chunks grown grownLength
  end.

(** [text.split('\n')] *)
Fixpoint splitLines (s piece : JS.str) : list JS.str :=
  match s with
  | [] => [piece]
  | c :: rest =>
      if (c =? 10)%N then piece :: splitLines rest []
      else splitLines rest (piece ++ [c])
  end.

(** [chunkText(text, maxChunkSize)]; [tokenize] stands for
    [natural.SentenceTokenizer.tokenize], a library outside the
    repository. *)
Definition chunkText (tokenize : JS.str -> list JS.str) (text : JS.str)
           (maxChunkSize : Z) : list JS.str :=
  if lengthZ text <=? maxChunkSize then [text]
  else
    let sentences := tokenize text in
    if (List.length sentences =? 0)%nat then
      let lines :=
        filter (fun line => (0 <? List.length (JS.trim line))%nat)
               (splitLines text []) in
      if (1 <? List.length lines)%nat
      then chunkByLines lines maxChunkSize
      else [text]
    else pushLast (sentenceLoop maxChunkSize sentences [] [] 0).

(** The code units of a string that are not white space, and those of a
    list of strings. *)
Definition visible (s : JS.str) : JS.str :=
  filter (fun c => negb (JS.isWhiteSpace c)) s.

Definition visibleAll (l : list JS.str) : JS.str :=
  visible (List.concat l).

(** ** Expired temporary documents

    [DatabaseStorage.cleanupExpiredTemporaryDocuments]
    ([server/storage.ts]) removes the records of the temporary documents
    older than two hours, after asking the vector service to delete the
    vectors of their sessions. *)

(** A record of the relational table [temporary_documents]. *)
Module TempDoc.
Record t := mk {
  id : Z;
  userId : Z;
  sessionId : Z;
  createdAt : Z
}.
End TempDoc.

(** [lt(temporaryDocuments.createdAt, twoHoursAgo)] *)
Definition expiredDoc (cal : Calendar) (now : Z) (d : TempDoc.t) : bool :=
  TempDoc.createdAt d <? twoHoursAgo cal now.

(** The loop over [expiredDocs]: an error of the vector service is
    logged and dropped. *)
Fixpoint deleteSessionVectors (now : Z) (expiredDocs : list TempDoc.t)
  : M unit :=
  match expiredDocs with
  | [] => ret tt
  | doc :: rest =>
      tryCatch
        (deleteVectorsByUserSession now (TempDoc.userId doc)
                                    (TempDoc.sessionId doc) ;;
         ret tt)
        (ret tt) ;;
      deleteSessionVectors now rest
  end.

(** [cleanupExpiredTemporaryDocuments()]: the relational table is passed
    in and returned with the count; the relational database is taken to
    answer. *)
Definition cleanupExpiredTemporaryDocuments (cal : Calendar) (now : Z)
           (temporaryDocuments : list TempDoc.t)
  : M (Z * list TempDoc.t) :=
  let expiredDocs := filter (expiredDoc cal now) temporaryDocuments in
  deleteSessionVectors now expiredDocs ;;
  ret (Z.of_nat (List.length expiredDocs),
       filter (fun d => negb (expiredDoc cal now d)) temporaryDocuments).

(** ** Transcript search of [VideoService]

    [VideoService.searchTranscripts] ([server/video/VideoService.ts])
    groups the hits of [searchVideoTranscripts] by video. *)

(** [{ text, relevanceScore }] *)
Module RankedChunk.
Record t := mk {
  text : JS.str;
  relevanceScore : Q
}.
End RankedChunk.

(** An entry of the list returned by [searchTranscripts]. *)
Module TranscriptResult.
Record t := mk {
  videoId : Z;
  videoTitle : JS.str;
  chunks : list RankedChunk.t
}.
End TranscriptResult.

(** One turn of the loop that fills the [Map] [videoGroups]; a [Map]
    lists its keys in the order of their insertion. *)
Fixpoint groupPush (result : VideoHit.t)
         (videoGroups : list (Z * list VideoHit.t))
  : list (Z * list VideoHit.t) :=
  match videoGroups with
  | [] => [(VideoHit.videoId result, [result])]
  | (key, chunks) :: rest =>
      if key =? VideoHit.videoId result
      then (key, chunks ++ [result]) :: rest
      else (key, chunks) :: groupPush result rest
  end.

Definition groupByVideo (vectorResults : list VideoHit.t)
  : list (Z * list VideoHit.t) :=
  fold_left (fun videoGroups result => groupPush result videoGroups)
            vectorResults [].

(** [{ text: chunk.text, relevanceScore: chunk.score || 0 }] *)
Definition rankedChunk (chunk : VideoHit.t) : RankedChunk.t :=
  RankedChunk.mk (VideoHit.text chunk) (JS.orZero (VideoHit.score chunk)).

(** [(a, b) => b.relevanceScore - a.relevanceScore] *)
Definition byRelevanceDescending (a b : RankedChunk.t) : Q :=
  (RankedChunk.relevanceScore b - RankedChunk.relevanceScore a)%Q.

(** [Math.max(...chunks.map(c => c.relevanceScore))]; the value for no
    chunk, which the source never computes, is 0 here. *)
Definition bestScore (chunks : list RankedChunk.t) : Q :=
  match chunks with
  | [] => 0%Q
  | c :: rest =>
      fold_left Qmax (List.map RankedChunk.relevanceScore rest)
                (RankedChunk.relevanceScore c)
  end.

Definition byBestScoreDescending (a b : TranscriptResult.t) : Q :=
  (bestScore (TranscriptResult.chunks b)
   - bestScore (TranscriptResult.chunks a))%Q.

(** [videoStorage.getVideo(videoId)] finds a video when its identifier
    is among [videos]. *)
Definition videoExists (videoId : Z) (w : World) : bool :=
  existsb (Z.eqb videoId) (videos w).

(** [searchTranscripts(query, subjectId)]; [titleOf] gives the title
    that the relational table holds for a video. *)
Definition searchTranscripts (env : Env) (titleOf : Z -> JS.str) (now : Z)
           (query : JS.str) (subjectId : option Z)
  : M (list TranscriptResult.t) :=
  vectorResults <- searchVideoTranscripts env now query subjectId (Some 10) ;;
  if (List.length vectorResults =? 0)%nat then ret []
  else
    fun w =>
      let finalResults :=
        flat_map
          (fun group =>
             if videoExists (fst group) w
             then [TranscriptResult.mk
                     (fst group) (titleOf (fst group))
                     (JS.sort byRelevanceDescending
                              (List.map rankedChunk (snd group)))]
             else [])
          (groupByVideo vectorResults) in
      (Ok (JS.sort byBestScoreDescending finalResults), w).

(** The hits of one video, in the order of the search. *)
Definition hitsOf (videoId : Z) (hits : list VideoHit.t) : list VideoHit.t :=
  filter (fun h => VideoHit.videoId h =? videoId) hits.

(** Groups that hold, video by video and in the order of the search,
    the hits seen so far. *)
Definition grouped (videoGroups : list (Z * list VideoHit.t))
           (seen : list VideoHit.t) : Prop :=
  NoDup (List.map fst videoGroups)
  /\ (forall key chunks,
         In (key, chunks) videoGroups ->
         chunks = hitsOf key seen /\ chunks <> [])
  /\ (forall h, In h seen -> In (VideoHit.videoId h) (List.map fst videoGroups)).

(** ** Statistics of the transcripts table *)

(** The object returned by [getVideoVectorStats]; [subjectCounts] is the
    object built by the [reduce], as its entries. *)
Module VideoStats.
Record t := mk {
  totalChunks : Z;
  uniqueVideos : Z;
  subjectCounts : list (Z * Z);
  avgChunksPerVideo : Z
}.
End VideoStats.

(** [acc[key]] *)
Definition lookupCount (key : Z) (acc : list (Z * Z)) : option Z :=
  option_map snd (find (fun entry => fst entry =? key) acc).

(** [acc[key] = value] *)
Fixpoint setCount (key value : Z) (acc : list (Z * Z)) : list (Z * Z) :=
  match acc with
  | [] => [(key, value)]
  | (k, n) :: rest =>
      if k =? key then (k, value) :: rest
      else (k, n) :: setCount key value rest
  end.

(** [acc[record.subjectId] = (acc[record.subjectId] || 0) + 1] *)
Definition bump (acc : list (Z * Z)) (record : Video.row) : list (Z * Z) :=
  setCount (Video.subjectId record)
           (JS.orNum (lookupCount (Video.subjectId record) acc) 0 + 1)
           acc.

(** [Math.round(x)]: the integer nearest to [x], the greater one of two. *)
Definition round (x : Q) : Z := Qfloor (x + (1 # 2)).

(** [getVideoVectorStats()]; [[...new Set(ids)].length] is the number
    of distinct identifiers. *)
Definition getVideoVectorStats (env : Env) (now : Z) : M VideoStats.t :=
  unlessSet videoTable (initialize now) ;;
  tryCatch
    (totalCount <- VideoTable.countRows ;;
     allRecords <- VideoTable.search env zeroVector None 10000 ;;
     let records := List.map fst allRecords in
     let subjectCounts := fold_left bump records [] in
     let uniqueVideos :=
       Z.of_nat (List.length
                   (nodup Z.eq_dec (List.map Video.videoId records))) in
     ret (VideoStats.mk
            totalCount uniqueVideos subjectCounts
            (if 0 <? uniqueVideos
             then round (inject_Z totalCount / inject_Z uniqueVideos)
             else 0)))
    throw.

(** ** Concrete data for examples *)

(** Squared Euclidean distance on the common prefix of two vectors. *)
Definition sqDist (a b : Vec) : Q :=
  fold_left (fun acc p => (acc + (fst p - snd p) * (fst p - snd p))%Q)
            (combine a b) 0%Q.

(** A provider that embeds a text as its length. *)
Definition demoEnv : Env :=
  mkEnv (fun s => Some [inject_Z (Z.of_nat (List.length s))]) sqDist false.

(** A temporary row of user 9 in session 100, and one whose flag says
    temporary while it has no owner. *)
Definition ownedRow : Doc.row :=
  Doc.mk [3%Q] (JS.lit "abc") 50 0 2 9 100 true 1000.

Definition ownerlessRow : Doc.row :=
  Doc.mk [3%Q] (JS.lit "abc") 51 0 2 0 0 true 1000.

Definition permanentRow : Doc.row :=
  Doc.mk [4%Q] (JS.lit "abcd") 7 0 2 0 0 false 1000.

(** A permanent row of a document that has no subject (subject 0). *)
Definition subjectZeroRow : Doc.row :=
  Doc.mk [4%Q] (JS.lit "abcd") 8 0 0 0 0 false 1000.

Definition oldTemporaryRow : Doc.row :=
  Doc.mk [3%Q] (JS.lit "old") 52 0 2 9 100 true 0.

(** A temporary row created about thirteen minutes before the third
    hour. *)
Definition freshTemporaryRow : Doc.row :=
  Doc.mk [3%Q] (JS.lit "new") 53 0 2 9 100 true 10000000.

Definition transcriptRow (videoId subjectId : Z) : Video.row :=
  Video.mk [4%Q] (JS.lit "abcd") videoId 0 0 0 subjectId 1000.

(** An initialized service over the given tables, with a store that
    does not fail. *)
Definition running (docs : list Doc.row) (vids : list Video.row) : World :=
  mkWorld (Some docs) (Some vids) true true true [] [] [].

(** An initialized service holding one transcript of video 5, whose
    store fails at the next call. *)
Definition failingFetch : World :=
  mkWorld (Some []) (Some [transcriptRow 5 2]) true true true [5] [true] [].

(** An initialized service with documents and with transcripts of two
    videos. *)
Definition busy : World :=
  running [permanentRow; ownedRow] [transcriptRow 5 2; transcriptRow 8 2].

(** A process that has not yet initialized its service, over a store
    left by an earlier run. *)
Definition cold (docs : list Doc.row) (vids : list Video.row)
           (schedule : list bool) : World :=
  mkWorld (Some docs) (Some vids) false false false [] schedule [].

(** ** Bucket classification *)

Lemma bucketCount_spec (userId sessionId : option Z) (r : Doc.row) :
  bucketCount userId sessionId r =
  if Doc.isTemporary r && (Doc.userId r =? 0) && (Doc.sessionId r =? 0)
  then 2%nat else 1%nat.
Proof.
  unfold bucketCount, isTemporaryDoc, isPermanentDoc, isOtherDoc.
  destruct (Doc.isTemporary r); cbn [andb orb negb].
  - destruct (JS.strictEq (Doc.userId r) userId),
             (JS.strictEq (Doc.sessionId r) sessionId),
             (Doc.userId r =? 0), (Doc.sessionId r =? 0); reflexivity.
  - reflexivity.
Qed.

Lemma length_filter_sum {A} (p : A -> bool) (l : list A) :
  List.length (filter p l)
  = list_sum (List.map (fun x => if p x then 1%nat else 0%nat) l).
Proof.
  induction l as [|x l IH]; [reflexivity|].
  cbn [filter List.map]. unfold list_sum in *. cbn [fold_right].
  destruct (p x); cbn [List.length]; lia.
Qed.

Lemma list_sum_map_add {A} (f g : A -> nat) (l : list A) :
  (list_sum (List.map f l) + list_sum (List.map g l))%nat
  = list_sum (List.map (fun x => (f x + g x)%nat) l).
Proof.
  induction l as [|x l IH]; [reflexivity|].
  cbn [List.map]. unfold list_sum in *. cbn [fold_right]. lia.
Qed.

Lemma scoredResults_length now userId sessionId results :
  List.length (scoredResults now userId sessionId results)
  = list_sum (List.map (fun d => bucketCount userId sessionId (DocHit.row d))
                       results).
Proof.
  unfold scoredResults, bucketCount.
  rewrite !length_app, !length_map, !length_filter_sum.
  rewrite Nat.add_assoc, !list_sum_map_add. reflexivity.
Qed.

(** ** Facts about [JS.sort] and [JS.slice0] *)

Section SortFacts.
Context {A : Type} (cmp : A -> A -> Q).

Lemma insert_In (x a : A) (l : list A) :
In x (JS.insert cmp a l) <-> x = a \/ In x l.
Proof.
induction l as [|y l IH]; cbn [JS.insert].
- cbn. intuition congruence.
- destruct (Qle_bool (cmp a y) 0); cbn [In] in *.
  + intuition congruence.
  + rewrite IH. intuition congruence.
Qed.

Lemma sort_In (x : A) (l : list A) : In x (JS.sort cmp l) <-> In x l.
Proof.
induction l as [|y l IH]; cbn [JS.sort]; [tauto|].
rewrite insert_In, IH. cbn. intuition congruence.
Qed.

Lemma sort_length (l : list A) :
List.length (JS.sort cmp l) = List.length l.
Proof.
assert (Hins : forall a s,
           List.length (JS.insert cmp a s) = S (List.length s)).
{ intros a s. induction s as [|y s IH]; cbn [JS.insert]; [reflexivity|].
  destruct (Qle_bool (cmp a y) 0); cbn [List.length]; congruence. }
induction l as [|y l IH]; cbn [JS.sort]; [reflexivity|].
rewrite Hins, IH. reflexivity.
Qed.

Hypothesis cmp_total : forall a b, (cmp a b <= 0)%Q \/ (cmp b a <= 0)%Q.
Hypothesis cmp_trans :
forall a b c, (cmp a b <= 0)%Q -> (cmp b c <= 0)%Q -> (cmp a c <= 0)%Q.

Lemma insert_sorted (a : A) (l : list A) :
StronglySorted (fun x y => (cmp x y <= 0)%Q) l ->
StronglySorted (fun x y => (cmp x y <= 0)%Q) (JS.insert cmp a l).
Proof.
induction l as [|y l IH]; intro Hs; cbn [JS.insert].
- constructor; constructor.
- apply StronglySorted_inv in Hs. destruct Hs as [Hl Hy].
  destruct (Qle_bool (cmp a y) 0) eqn:E.
  + apply Qle_bool_iff in E. constructor.
    * constructor; assumption.
    * constructor; [assumption|].
      rewrite Forall_forall in *. intros z Hz. eauto.
  + assert (Hya : (cmp y a <= 0)%Q).
    { destruct (cmp_total y a) as [H|H]; [assumption|].
      apply Qle_bool_iff in H. congruence. }
    constructor; [apply IH; assumption|].
    rewrite Forall_forall in *. intros z Hz.
    apply insert_In in Hz. destruct Hz as [->|Hz]; auto.
Qed.

Lemma sort_sorted (l : list A) :
StronglySorted (fun x y => (cmp x y <= 0)%Q) (JS.sort cmp l).
Proof.
induction l as [|y l IH]; cbn [JS.sort].
- constructor.
- apply insert_sorted, IH.
Qed.

End SortFacts.

Lemma sorted_nth_error {A} (R : A -> A -> Prop) (l : list A) :
  StronglySorted R l ->
  forall i j a b, (i < j)%nat ->
    nth_error l i = Some a -> nth_error l j = Some b -> R a b.
Proof.
  induction 1 as [|x l Hs IH Hx]; intros i j a b Hij Ha Hb.
  - destruct i; discriminate.
  - destruct j as [|j]; [lia|]. cbn in Hb.
    destruct i as [|i]; cbn in Ha.
    + injection Ha as <-. rewrite Forall_forall in Hx.
      apply Hx. eapply nth_error_In; eassumption.
    + apply (IH i j); [lia|assumption|assumption].
Qed.

Lemma slice0_nth_error {A} (k : Z) (l : list A) (i : nat) (x : A) :
  nth_error (JS.slice0 k l) i = Some x -> nth_error l i = Some x.
Proof.
  unfold JS.slice0. rewrite nth_error_firstn.
  destruct (i <? _)%nat; [tauto|discriminate].
Qed.

Lemma slice0_In {A} (k : Z) (l : list A) (x : A) :
  In x (JS.slice0 k l) -> In x l.
Proof.
  intro H. apply In_nth_error in H. destruct H as [i H].
  apply slice0_nth_error in H. eapply nth_error_In; eassumption.
Qed.

Lemma slice0_length {A} (k : Z) (l : list A) :
  0 <= k -> Z.of_nat (List.length (JS.slice0 k l)) <= k.
Proof.
  intro Hk. unfold JS.slice0.
  destruct (k <? 0) eqn:E; [apply Z.ltb_lt in E; lia|].
  pose proof (firstn_le_length (Z.to_nat k) l). lia.
Qed.

(** ** What the buckets put into the returned list *)

Lemma insert_Permutation {A} (cmp : A -> A -> Q) (x : A) (l : list A) :
  Permutation (JS.insert cmp x l) (x :: l).
Proof.
  induction l as [|y l IH]; cbn [JS.insert]; [reflexivity|].
  destruct (Qle_bool (cmp x y) 0); [reflexivity|].
  rewrite IH. apply perm_swap.
Qed.

Lemma sort_Permutation {A} (cmp : A -> A -> Q) (l : list A) :
  Permutation (JS.sort cmp l) l.
Proof.
  induction l as [|x l IH]; cbn [JS.sort]; [reflexivity|].
  rewrite insert_Permutation, IH. reflexivity.
Qed.

Lemma slice0_all {A} (k : Z) (l : list A) :
  Z.of_nat (List.length l) <= k -> JS.slice0 k l = l.
Proof.
  intro H. unfold JS.slice0.
  destruct (Z.ltb_spec k 0) as [Hk|Hk]; [lia|].
  apply firstn_all2. lia.
Qed.

(** Three filters of one list, one after the other, hold each element
    once per filter it passes. *)
Lemma three_filters_Permutation {A} (p1 p2 p3 : A -> bool) (l : list A) :
  Permutation
    (filter p1 l ++ filter p2 l ++ filter p3 l)
    (flat_map (fun x => repeat x ((if p1 x then 1 else 0)
                                  + (if p2 x then 1 else 0)
                                  + (if p3 x then 1 else 0))%nat) l).
Proof.
  induction l as [|x l IH]; [reflexivity|].
  cbn [filter flat_map].
  assert (Hx : Permutation
                 (filter p1 l ++ filter p2 l ++ filter p3 l)
                 (flat_map (fun x => repeat x ((if p1 x then 1 else 0)
                                               + (if p2 x then 1 else 0)
                                               + (if p3 x then 1 else 0))%nat)
                           l)) by exact IH.
  destruct (p1 x), (p2 x), (p3 x); cbn [repeat Nat.add app];
    rewrite <- Hx.
  - apply perm_skip. rewrite <- Permutation_middle. apply perm_skip.
    rewrite app_assoc, <- Permutation_middle, <- app_assoc. reflexivity.
  - apply perm_skip. rewrite <- Permutation_middle. reflexivity.
  - apply perm_skip.
    rewrite app_assoc, <- Permutation_middle, <- app_assoc. reflexivity.
  - reflexivity.
  - rewrite <- Permutation_middle. apply perm_skip.
    rewrite app_assoc, <- Permutation_middle, <- app_assoc. reflexivity.
  - rewrite <- Permutation_middle. reflexivity.
  - rewrite app_assoc, <- Permutation_middle, <- app_assoc. reflexivity.
  - reflexivity.
Qed.

Lemma scoredResults_docs now userId sessionId results :
  List.map Scored.doc (scoredResults now userId sessionId results)
  = filter (fun d => isTemporaryDoc userId sessionId (DocHit.row d)) results
    ++ filter (fun d => isPermanentDoc (DocHit.row d)) results
    ++ filter (fun d => isOtherDoc userId sessionId (DocHit.row d)) results.
Proof.
  unfold scoredResults. rewrite !map_app, !map_map. cbn [Scored.doc].
  rewrite !map_id. reflexivity.
Qed.

Lemma fallbackResults_docs userId sessionId results :
  List.map Scored.doc (fallbackResults userId sessionId results)
  = filter (fun d => isTemporaryDoc userId sessionId (DocHit.row d)) results
    ++ filter (fun d => isPermanentDoc (DocHit.row d)) results
    ++ filter (fun d => isOtherDoc userId sessionId (DocHit.row d)) results.
Proof.
  unfold fallbackResults. rewrite map_map. cbn [Scored.doc].
  rewrite map_id. reflexivity.
Qed.

Lemma once_per_bucket_length (userId sessionId : option Z)
      (results : list DocHit.t) :
  (List.length
     (flat_map (fun d => repeat d (bucketCount userId sessionId
                                               (DocHit.row d))) results)
   <= 2 * List.length results)%nat.
Proof.
  induction results as [|d results IH]; [cbn; lia|].
  cbn [flat_map List.length]. rewrite length_app, repeat_length.
  rewrite bucketCount_spec.
  destruct (Doc.isTemporary (DocHit.row d)
            && (Doc.userId (DocHit.row d) =? 0)
            && (Doc.sessionId (DocHit.row d) =? 0)); lia.
Qed.

Lemma once_per_bucket_length_ge (userId sessionId : option Z)
      (results : list DocHit.t) :
  (List.length results
   <= List.length
        (flat_map (fun d => repeat d (bucketCount userId sessionId
                                                  (DocHit.row d))) results))%nat.
Proof.
  induction results as [|d results IH]; [cbn; lia|].
  cbn [flat_map List.length]. rewrite length_app, repeat_length.
  rewrite bucketCount_spec.
  destruct (Doc.isTemporary (DocHit.row d)
            && (Doc.userId (DocHit.row d) =? 0)
            && (Doc.sessionId (DocHit.row d) =? 0)); lia.
Qed.

(** The candidates of a query, scored or fallback, before sorting and
    cutting: each hit once per bucket. *)
Lemma candidates_Permutation (userId sessionId : option Z)
      (results : list DocHit.t) (candidates : list Scored.t) :
  List.map Scored.doc candidates
  = filter (fun d => isTemporaryDoc userId sessionId (DocHit.row d)) results
    ++ filter (fun d => isPermanentDoc (DocHit.row d)) results
    ++ filter (fun d => isOtherDoc userId sessionId (DocHit.row d)) results ->
  Permutation (List.map Scored.doc candidates)
    (flat_map (fun d => repeat d (bucketCount userId sessionId (DocHit.row d)))
              results).
Proof.
  intros ->. unfold bucketCount.
  apply (three_filters_Permutation
           (fun d => isTemporaryDoc userId sessionId (DocHit.row d))
           (fun d => isPermanentDoc (DocHit.row d))
           (fun d => isOtherDoc userId sessionId (DocHit.row d))).
Qed.

Lemma rankDocuments_candidates (now : Z) (userId sessionId : option Z)
      (topK : Z) (results : list DocHit.t) :
  exists candidates : list Scored.t,
    rankDocuments now None userId sessionId topK results
    = JS.slice0 topK (JS.sort byScoreDescending candidates)
    /\ Permutation (List.map Scored.doc candidates)
         (flat_map (fun d => repeat d (bucketCount userId sessionId
                                                   (DocHit.row d)))
                   results).
Proof.
  unfold rankDocuments.
  destruct userId as [u|], sessionId as [e|];
    eexists; (split; [reflexivity|]);
    first [apply candidates_Permutation, scoredResults_docs
          |apply candidates_Permutation, fallbackResults_docs].
Qed.

Lemma rankDocuments_once_per_bucket (now : Z) (userId sessionId : option Z)
      (topK : Z) (results : list DocHit.t) :
  Z.of_nat (2 * List.length results) <= topK ->
  Permutation
    (List.map Scored.doc
              (rankDocuments now None userId sessionId topK results))
    (flat_map (fun d => repeat d (bucketCount userId sessionId
                                              (DocHit.row d)))
              results).
Proof.
  intro HK.
  destruct (rankDocuments_candidates now userId sessionId topK results)
    as (candidates & -> & Hp).
  rewrite slice0_all.
  - rewrite (Permutation_map Scored.doc
               (sort_Permutation byScoreDescending candidates)).
    exact Hp.
  - rewrite sort_length, <- (length_map Scored.doc candidates).
    rewrite (Permutation_length Hp).
    pose proof (once_per_bucket_length userId sessionId results). lia.
Qed.




(** ** Scoring *)

Lemma orZero_bounds (d : Q) :
  (0 <= d)%Q -> (d <= 2)%Q -> (0 <= JS.orZero d)%Q /\ (JS.orZero d <= 2)%Q.
Proof.
  intros H0 H2. unfold JS.orZero.
  destruct (Qeq_bool d 0); split; try assumption; lra.
Qed.

Lemma semanticScore_bounds (now : Z) (d : DocHit.t) :
  plausible now d ->
  (- (1) <= semanticScore d)%Q /\ (semanticScore d <= 1)%Q.
Proof.
  intros (H0 & H2 & _). unfold semanticScore.
  destruct (orZero_bounds _ H0 H2). split; lra.
Qed.

Lemma temporalScore_bounds (now : Z) (d : DocHit.t) :
  plausible now d ->
  (0 <= temporalScore now d)%Q /\ (temporalScore now d <= 1)%Q.
Proof.
  intros (_ & _ & Hage). unfold temporalScore. split.
  - apply Q.le_max_l.
  - apply Q.max_lub; [lra|].
    assert (H : (0 <= inject_Z (now - Doc.createdAt (DocHit.row d))
                      / inject_Z twoHours)%Q).
    { apply Qle_shift_div_l; [reflexivity|].
      rewrite Qmult_0_l. change 0%Q with (inject_Z 0).
      rewrite <- Zle_Qle. lia. }
    lra.
Qed.

Lemma scoreDocument_ranges (now : Z) (d : DocHit.t) :
  plausible now d ->
  ((99 # 10) <= scoreDocument now d temporary)%Q
  /\ ((45 # 10) <= scoreDocument now d permanent)%Q
  /\ (scoreDocument now d permanent <= 6)%Q
  /\ (scoreDocument now d other <= 1)%Q.
Proof.
  intro H. destruct (semanticScore_bounds now d H).
  destruct (temporalScore_bounds now d H).
  unfold scoreDocument. repeat split; lra.
Qed.

Lemma scoreDocument_order (now : Z) (d1 d2 : DocHit.t) (c1 c2 : Category) :
  plausible now d1 -> plausible now d2 -> outranks c1 c2 = true ->
  (scoreDocument now d2 c2 < scoreDocument now d1 c1)%Q.
Proof.
  intros H1 H2 Hc.
  destruct (scoreDocument_ranges now d1 H1) as (? & ? & ? & ?).
  destruct (scoreDocument_ranges now d2 H2) as (? & ? & ? & ?).
  destruct c1, c2; try discriminate; lra.
Qed.

Lemma scoredResults_entry now userId sessionId results (x : Scored.t) :
  In x (scoredResults now userId sessionId results) ->
  In (Scored.doc x) results
  /\ Scored.score x = scoreDocument now (Scored.doc x) (Scored.category x).
Proof.
  unfold scoredResults. rewrite !in_app_iff, !in_map_iff.
  intros [(d & <- & Hd)|[(d & <- & Hd)|(d & <- & Hd)]];
    apply filter_In in Hd; cbn; tauto.
Qed.

Lemma fallbackResults_entry userId sessionId results (x : Scored.t) :
  In x (fallbackResults userId sessionId results) ->
  In (Scored.doc x) results /\ Scored.category x = permanent.
Proof.
  unfold fallbackResults. rewrite in_map_iff.
  intros (d & <- & Hd). rewrite !in_app_iff, !filter_In in Hd.
  cbn. tauto.
Qed.

Lemma byScoreDescending_total (a b : Scored.t) :
  (byScoreDescending a b <= 0)%Q \/ (byScoreDescending b a <= 0)%Q.
Proof.
  unfold byScoreDescending.
  destruct (Qlt_le_dec (Scored.score a) (Scored.score b)); [right|left]; lra.
Qed.

Lemma byScoreDescending_trans (a b c : Scored.t) :
  (byScoreDescending a b <= 0)%Q -> (byScoreDescending b c <= 0)%Q ->
  (byScoreDescending a c <= 0)%Q.
Proof. unfold byScoreDescending. intros. lra. Qed.

Lemma ranked_position (l : list Scored.t) (i j : nat) (x y : Scored.t) :
  nth_error (JS.sort byScoreDescending l) i = Some x ->
  nth_error (JS.sort byScoreDescending l) j = Some y ->
  (Scored.score y < Scored.score x)%Q -> (i < j)%nat.
Proof.
  intros Hi Hj Hlt.
  pose proof (sort_sorted byScoreDescending byScoreDescending_total
                          byScoreDescending_trans l) as Hs.
  destruct (Nat.lt_trichotomy i j) as [H|[H|H]]; [assumption| |].
  - subst j. rewrite Hi in Hj. injection Hj as <-. lra.
  - pose proof (sorted_nth_error _ _ Hs j i y x H Hj Hi) as Hle.
    unfold byScoreDescending in Hle. lra.
Qed.

Lemma rankDocuments_source now subjectId userId sessionId topK results :
  exists kept : list DocHit.t,
    (forall d, In d kept -> In d results)
    /\ (forall d, In d kept ->
                  forall s, subjectId = Some s ->
                            Doc.subjectId (DocHit.row d) = s)
    /\ rankDocuments now subjectId userId sessionId topK results
       = JS.slice0 topK
           (JS.sort byScoreDescending
              (match userId, sessionId with
               | Some _, Some _ => scoredResults now userId sessionId kept
               | _, _ => fallbackResults userId sessionId kept
               end)).
Proof.
  unfold rankDocuments.
  destruct subjectId as [s|].
  - exists (filter (fun r => Doc.subjectId (DocHit.row r) =? s) results).
    split; [|split].
    + intros d Hd. apply filter_In in Hd. tauto.
    + intros d Hd s' [= <-]. apply filter_In in Hd.
      destruct Hd as [_ Hd]. apply Z.eqb_eq in Hd. assumption.
    + destruct userId, sessionId; reflexivity.
  - exists results. split; [|split].
    + tauto.
    + discriminate.
    + destruct userId, sessionId; reflexivity.
Qed.

(** C4: take two scored candidates of a query, each with a distance in
    [0, 2] and a non-negative age.  If the first is classified temporary
    and the second permanent, or the first permanent and the second
    other (or temporary and other), the first has the strictly higher
    composite score; and in the list the query returns the first stands
    before the second.  Equal semantic and temporal scores are a special
    case. *)
Theorem buckets_never_interleave :
  forall (now : Z) (subjectId userId sessionId : option Z) (topK : Z)
         (results : list DocHit.t) (x y : Scored.t),
    plausible now (Scored.doc x) ->
    plausible now (Scored.doc y) ->
    outranks (Scored.category x) (Scored.category y) = true ->
    (In x (scoredResults now userId sessionId results) ->
     In y (scoredResults now userId sessionId results) ->
     (Scored.score y < Scored.score x)%Q)
    /\ (forall i j : nat,
           nth_error (rankDocuments now subjectId userId sessionId topK
                                    results) i = Some x ->
           nth_error (rankDocuments now subjectId userId sessionId topK
                                    results) j = Some y ->
           (Scored.score y < Scored.score x)%Q /\ (i < j)%nat).
Proof.
  intros now subjectId userId sessionId topK results x y Hpx Hpy Hc.
  assert (Hscored :
            forall kept,
              In x (scoredResults now userId sessionId kept) ->
              In y (scoredResults now userId sessionId kept) ->
              (Scored.score y < Scored.score x)%Q).
  { intros kept Hx Hy.
    apply scoredResults_entry in Hx. destruct Hx as [_ Hx].
    apply scoredResults_entry in Hy. destruct Hy as [_ Hy].
    rewrite Hx, Hy. apply scoreDocument_order; assumption. }
  split.
  - apply Hscored.
  - intros i j Hi Hj.
    destruct (rankDocuments_source now subjectId userId sessionId topK
                                   results) as (kept & _ & _ & Heq).
    rewrite Heq in Hi, Hj.
    apply slice0_nth_error in Hi. apply slice0_nth_error in Hj.
    assert (Hx := nth_error_In _ _ Hi). assert (Hy := nth_error_In _ _ Hj).
    apply sort_In in Hx. apply sort_In in Hy.
    assert (Hlt : (Scored.score y < Scored.score x)%Q).
    { destruct userId as [u|], sessionId as [s|];
        try (apply fallbackResults_entry in Hx;
             apply fallbackResults_entry in Hy;
             destruct Hx as [_ Hx]; destruct Hy as [_ Hy];
             rewrite Hx, Hy in Hc; discriminate).
      eapply Hscored; eassumption. }
    split; [assumption|].
    eapply ranked_position; eassumption.
Qed.

(** The theorem at a query of caller (9, 100) that fetched a permanent
    row at distance 0 and the caller's own row at distance 3/2: the own
    row scores higher and is returned first. *)
Lemma buckets_never_interleave_witness :
  plausible 2000 (DocHit.mk ownedRow (3 # 2))
  /\ plausible 2000 (DocHit.mk permanentRow 0)
  /\ (scoreDocument 2000 (DocHit.mk permanentRow 0) permanent
      < scoreDocument 2000 (DocHit.mk ownedRow (3 # 2)) temporary)%Q
  /\ List.map Scored.category
       (rankDocuments 2000 None (Some 9) (Some 100) 10
                      [DocHit.mk permanentRow 0; DocHit.mk ownedRow (3 # 2)])
     = [temporary; permanent].
Proof.
  assert (Hx : plausible 2000 (DocHit.mk ownedRow (3 # 2))).
  { repeat split; cbn; try lia; intro; discriminate. }
  assert (Hy : plausible 2000 (DocHit.mk permanentRow 0)).
  { repeat split; cbn; try lia; intro; discriminate. }
  split; [exact Hx|]. split; [exact Hy|]. split; [|vm_compute; reflexivity].
  apply (proj1 (buckets_never_interleave 2000 None (Some 9) (Some 100) 10
                  [DocHit.mk permanentRow 0; DocHit.mk ownedRow (3 # 2)]
                  (Scored.mk (DocHit.mk ownedRow (3 # 2)) temporary
                     (scoreDocument 2000 (DocHit.mk ownedRow (3 # 2))
                                    temporary))
                  (Scored.mk (DocHit.mk permanentRow 0) permanent
                     (scoreDocument 2000 (DocHit.mk permanentRow 0)
                                    permanent))
                  Hx Hy eq_refl)).
  - vm_compute. tauto.
  - vm_compute. tauto.
Defined.

(** ** Running the methods *)

Ltac break_runs :=
  repeat match goal with
         | H : (Thrown, _) = (Ok _, _) |- _ => discriminate H
         | H : (Ok _, _) = (Thrown, _) |- _ => discriminate H
         | H : (Ok _, _) = (Ok _, _) |- _ => injection H as ? ?; subst
         | H : context [match ?x with _ => _ end] |- _ => destruct x eqn:?
         end.

Lemma bind_unlessSet_set {B} (handle : World -> bool) (m : M unit)
      (k : unit -> M B) (w : World) :
  handle w = true -> bind (unlessSet handle m) k w = k tt w.
Proof. intro H. unfold bind, unlessSet. rewrite H. reflexivity. Qed.

Lemma snd_tryCatch_ret {A} (m : M A) (x : A) (w : World) :
  snd (tryCatch m (ret x) w) = snd (m w).
Proof. unfold tryCatch, ret. destruct (m w) as [[a|] w1]; reflexivity. Qed.

Lemma snd_bind {A B} (m : M A) (k : A -> M B) (w : World) :
  snd (bind m k w)
  = match m w with
    | (Ok a, w1) => snd (k a w1)
    | (Thrown, w1) => w1
    end.
Proof. unfold bind. destruct (m w) as [[a|] w1]; reflexivity. Qed.

Lemma searchDocumentsWithContext_returns env now query subjectId userId
      sessionId topK w docs w' :
  searchDocumentsWithContext env now query subjectId userId sessionId topK w
  = (Ok docs, w') ->
  exists raw : list DocHit.t,
    docs = rankDocuments now subjectId userId sessionId (orDefault 10 topK)
                         raw.
Proof.
  unfold searchDocumentsWithContext, bind, tryCatch, ret, throw.
  intro H. break_runs. eexists. reflexivity.
Qed.

Lemma counts_div (K : Z) :
  docCountOf K = - ((- (K * 7)) / 10) /\ videoCountOf K = (K * 3) / 10.
Proof.
  unfold docCountOf, videoCountOf, Qceiling, Qfloor. cbn.
  split; reflexivity.
Qed.

Lemma counts_sum (K : Z) : docCountOf K + videoCountOf K = K.
Proof.
  destruct (counts_div K) as [-> ->].
  Z.to_euclidean_division_equations. lia.
Qed.

Lemma counts_nonneg (K : Z) :
  0 <= K -> 0 <= docCountOf K /\ 0 <= videoCountOf K.
Proof.
  intro HK. destruct (counts_div K) as [-> ->].
  Z.to_euclidean_division_equations. lia.
Qed.

Lemma rankDocuments_length now subjectId userId sessionId topK results :
  0 <= topK ->
  Z.of_nat (List.length (rankDocuments now subjectId userId sessionId topK
                                       results)) <= topK.
Proof.
  intro Hk.
  destruct (rankDocuments_source now subjectId userId sessionId topK results)
    as (kept & _ & _ & ->).
  apply slice0_length, Hk.
Qed.

Lemma rankTranscripts_length currentVideoId videoCount videoResults :
  0 <= videoCount ->
  Z.of_nat (List.length (rankTranscripts currentVideoId videoCount
                                         videoResults)) <= videoCount.
Proof.
  intro Hk. unfold rankTranscripts.
  destruct (JS.truthyNum currentVideoId); apply slice0_length, Hk.
Qed.

(** What a returning call of [searchCombinedForVideoQA] is made of: the
    document list is the one [searchDocuments] returned for [docCount],
    and the transcript list is [rankTranscripts] of what
    [searchVideoTranscripts] returned for [videoCount + 3] afterwards. *)
Lemma searchCombinedForVideoQA_returns env now query subjectId topK
      currentVideoId w r w' :
  searchCombinedForVideoQA env now query subjectId topK currentVideoId w
  = (Ok r, w') ->
  let K := orDefault 5 topK in
  exists (w1 : World) (raw : list VideoHit.t),
    searchDocuments env now query subjectId (Some (docCountOf K)) w
    = (Ok (Combined.documents r), w1)
    /\ searchVideoTranscripts env now query subjectId
                              (Some (videoCountOf K + 3)) w1
       = (Ok raw, w')
    /\ Combined.videos r = rankTranscripts currentVideoId (videoCountOf K) raw
    /\ Combined.totalSources r
       = Z.of_nat (List.length (Combined.videos r))
         + Z.of_nat (List.length (Combined.documents r))
    /\ Combined.currentVideoId r = currentVideoId.
Proof.
  unfold searchCombinedForVideoQA, bind, tryCatch, ret, throw.
  intro H. break_runs. cbn. eauto 8.
Qed.

(** For every K from 0 to 10000 the counts computed in double precision
    are the ones of the exact model. *)
Lemma counts_in_double_precision :
  forallb countsAgree (List.map Z.of_nat (seq 0 (Z.to_nat 10001))) = true.
Proof. vm_compute. reflexivity. Qed.

(** ** Order of the transcript list *)

Lemma Precedes_front {A} (a b : A) (l1 l2 : list A) :
  In a l1 -> (forall z, In z l1 -> z <> b) -> Precedes a b (l1 ++ l2).
Proof.
  induction l1 as [|z l1 IH]; intros Hin Hne; [destruct Hin|].
  cbn [app]. destruct Hin as [->|Hin].
  - apply Precedes_here.
  - apply Precedes_skip.
    + apply Hne. left. reflexivity.
    + apply IH; [assumption|]. intros y Hy. apply Hne. right. assumption.
Qed.

Lemma Precedes_firstn {A} (a b : A) (l : list A) :
  Precedes a b l -> forall n, Precedes a b (firstn n l).
Proof.
  induction 1 as [|l|z l Hz Hl IH]; intro n.
  - rewrite firstn_nil. constructor.
  - destruct n; cbn [firstn]; constructor.
  - destruct n; cbn [firstn]; constructor; auto.
Qed.

Lemma Precedes_nth_error {A} (a b : A) (l : list A) :
  a <> b -> Precedes a b l ->
  forall j, nth_error l j = Some b ->
            exists i, (i < j)%nat /\ nth_error l i = Some a.
Proof.
  intros Hab. induction 1 as [|l|z l Hz Hl IH]; intros j Hj.
  - destruct j; discriminate.
  - destruct j as [|j]; cbn in Hj.
    + congruence.
    + exists O. split; [lia|reflexivity].
  - destruct j as [|j]; cbn in Hj.
    + congruence.
    + destruct (IH j Hj) as (i & Hi & Hnth).
      exists (S i). split; [lia|exact Hnth].
Qed.

Section StableOrder.
Variables a b : VideoHit.t.
Hypothesis key_le : (VideoHit.score a <= VideoHit.score b)%Q.

Lemma insert_first_Precedes (s : list VideoHit.t) :
Precedes a b (JS.insert byScoreAscending a s).
Proof.
induction s as [|y s IH]; cbn [JS.insert].
- constructor.
- destruct (Qle_bool (byScoreAscending a y) 0) eqn:E.
  + constructor.
  + apply Precedes_skip; [|exact IH].
    intros ->. apply Qle_bool_iff in key_le.
    unfold byScoreAscending in E.
    assert (H : Qle_bool (VideoHit.score a - VideoHit.score b) 0 = true).
    { apply Qle_bool_iff. apply Qle_bool_iff in key_le. lra. }
    congruence.
Qed.

Lemma insert_other_Precedes (z : VideoHit.t) (s : list VideoHit.t) :
z <> b -> Precedes a b s -> Precedes a b (JS.insert byScoreAscending z s).
Proof.
intros Hz. induction 1 as [|l|y l Hy Hl IH]; cbn [JS.insert].
- repeat constructor. exact Hz.
- destruct (Qle_bool (byScoreAscending z a) 0).
  + apply Precedes_skip; [exact Hz|constructor].
  + constructor.
- destruct (Qle_bool (byScoreAscending z y) 0).
  + apply Precedes_skip; [exact Hz|].
    apply Precedes_skip; assumption.
  + apply Precedes_skip; assumption.
Qed.

Lemma sort_Precedes (l : list VideoHit.t) :
Precedes a b l -> Precedes a b (JS.sort byScoreAscending l).
Proof.
induction 1 as [|l|z l Hz Hl IH]; cbn [JS.sort].
- constructor.
- apply insert_first_Precedes.
- apply insert_other_Precedes; assumption.
Qed.

End StableOrder.

Lemma rankTranscripts_directional (cur videoCount : Z)
      (raw : list VideoHit.t) (a b : VideoHit.t) :
  cur <> 0 -> In a raw -> In b raw ->
  VideoHit.videoId a = cur -> VideoHit.videoId b <> cur ->
  (VideoHit.score a == VideoHit.score b)%Q -> (0 <= VideoHit.score a)%Q ->
  forall j,
    nth_error (rankTranscripts (Some cur) videoCount raw) j = Some b ->
    exists i, (i < j)%nat
              /\ nth_error (rankTranscripts (Some cur) videoCount raw) i
                 = Some (boost a).
Proof.
  intros Hcur Ha Hb Hva Hvb Heq Hpos.
  assert (Hne : boost a <> b).
  { intro H. apply Hvb. rewrite <- H. exact Hva. }
  apply Precedes_nth_error; [exact Hne|].
  unfold rankTranscripts, JS.truthyNum.
  destruct (Z.eqb_spec cur 0) as [|_]; [contradiction|]. cbn [negb].
  unfold JS.slice0. apply Precedes_firstn. apply sort_Precedes.
  - cbn. lra.
  - apply Precedes_front.
    + apply in_map. apply filter_In. split; [exact Ha|].
      cbn. apply Z.eqb_eq. exact Hva.
    + intros z Hz ->. apply in_map_iff in Hz.
      destruct Hz as (c & Hc & Hin). apply filter_In in Hin.
      destruct Hin as [_ Hin]. cbn in Hin. apply Z.eqb_eq in Hin.
      apply Hvb. rewrite <- Hc. exact Hin.
Qed.

(** C7: when the combiner is called with a current video (a non-zero id,
    which is what [if (currentVideoId)] accepts), take two candidates
    returned by the transcript search with equal raw distance, one of the
    current video and one of another video, the distance being
    non-negative.  Wherever the other video's candidate stands in the
    final transcript list, the current video's candidate, with its
    distance halved, stands at an earlier position. *)
Theorem current_video_boost_directional :
  forall (env : Env) (now : Z) (query : JS.str) (subjectId topK : option Z)
         (cur : Z) (w w' : World) (r : Combined.t),
    cur <> 0 ->
    searchCombinedForVideoQA env now query subjectId topK (Some cur) w
    = (Ok r, w') ->
    exists (w1 : World) (raw : list VideoHit.t),
      searchVideoTranscripts env now query subjectId
        (Some (videoCountOf (orDefault 5 topK) + 3)) w1 = (Ok raw, w')
      /\ forall a b : VideoHit.t,
          In a raw -> In b raw ->
          VideoHit.videoId a = cur -> VideoHit.videoId b <> cur ->
          (VideoHit.score a == VideoHit.score b)%Q ->
          (0 <= VideoHit.score a)%Q ->
          forall j, nth_error (Combined.videos r) j = Some b ->
                    exists i, (i < j)%nat
                              /\ nth_error (Combined.videos r) i
                                 = Some (boost a).
Proof.
  intros env now query subjectId topK cur w w' r Hcur Hrun.
  apply searchCombinedForVideoQA_returns in Hrun.
  destruct Hrun as (w1 & raw & _ & Hraw & Hvid & _).
  exists w1, raw. split; [exact Hraw|].
  intros a b Ha Hb Hva Hvb Heq Hpos j Hj. rewrite Hvid in *.
  eapply rankTranscripts_directional; eassumption.
Qed.

(** The theorem on a table where the row of another video comes first:
    both rows are at distance 4 from the query, video 5 is playing. *)
Lemma current_video_boost_directional_witness :
  5 <> 0
  /\ exists (r : Combined.t) (w' : World),
      searchCombinedForVideoQA demoEnv 2000 (JS.lit "ab") None (Some 7)
        (Some 5) (running [] [transcriptRow 8 2; transcriptRow 5 2])
      = (Ok r, w')
      /\ List.map VideoHit.videoId (Combined.videos r) = [5; 8]
      /\ exists (w1 : World) (raw : list VideoHit.t),
          searchVideoTranscripts demoEnv 2000 (JS.lit "ab") None
            (Some (videoCountOf (orDefault 5 (Some 7)) + 3)) w1 = (Ok raw, w')
          /\ forall a b : VideoHit.t,
              In a raw -> In b raw ->
              VideoHit.videoId a = 5 -> VideoHit.videoId b <> 5 ->
              (VideoHit.score a == VideoHit.score b)%Q ->
              (0 <= VideoHit.score a)%Q ->
              forall j, nth_error (Combined.videos r) j = Some b ->
                        exists i, (i < j)%nat
                                  /\ nth_error (Combined.videos r) i
                                     = Some (boost a).
Proof.
  split; [lia|].
  eexists. eexists. split; [vm_compute; reflexivity|].
  split; [reflexivity|].
  eapply (current_video_boost_directional demoEnv 2000 (JS.lit "ab")
            None (Some 7) 5
            (running [] [transcriptRow 8 2; transcriptRow 5 2])).
  - lia.
  - vm_compute. reflexivity.
Defined.

(** C7 as stated fails for the video whose id is 0: [if (currentVideoId)]
    takes the id 0 for no id, the transcript list is the list of the
    search cut to [videoCount], and the candidate of video 0 stands below
    the candidate of video 8 at the same distance, not halved. *)
Lemma current_video_zero_not_boosted :
  ~ (forall (env : Env) (now : Z) (query : JS.str)
            (subjectId topK : option Z) (cur : Z) (w w1 w' : World)
            (r : Combined.t) (docs : list Scored.t) (raw : list VideoHit.t),
        searchCombinedForVideoQA env now query subjectId topK (Some cur) w
        = (Ok r, w') ->
        searchDocuments env now query subjectId
                        (Some (docCountOf (orDefault 5 topK))) w
        = (Ok docs, w1) ->
        searchVideoTranscripts env now query subjectId
          (Some (videoCountOf (orDefault 5 topK) + 3)) w1 = (Ok raw, w') ->
        forall a b : VideoHit.t,
          In a raw -> In b raw ->
          VideoHit.videoId a = cur -> VideoHit.videoId b <> cur ->
          (VideoHit.score a == VideoHit.score b)%Q ->
          (0 <= VideoHit.score a)%Q ->
          forall j, nth_error (Combined.videos r) j = Some b ->
                    exists i, (i < j)%nat
                              /\ nth_error (Combined.videos r) i
                                 = Some (boost a))
  /\ List.map (fun h => (VideoHit.videoId h, VideoHit.score h))
       (match fst (searchCombinedForVideoQA demoEnv 2000 (JS.lit "ab") None
                     (Some 7) (Some 0)
                     (running [] [transcriptRow 8 2; transcriptRow 0 2]))
        with
        | Ok r => Combined.videos r
        | Thrown => []
        end)
     = [(8, 4%Q); (0, 4%Q)].
Proof.
  split; [|vm_compute; reflexivity].
  intro H.
  set (a := VideoHit.mk (JS.lit "abcd") 0 0 2 4).
  set (b := VideoHit.mk (JS.lit "abcd") 8 0 2 4).
  assert (Hrun : searchCombinedForVideoQA demoEnv 2000 (JS.lit "ab") None
                   (Some 7) (Some 0)
                   (running [] [transcriptRow 8 2; transcriptRow 0 2])
                 = (Ok (Combined.mk [b; a] [] 2 (Some 0)),
                    mkWorld (Some [])
                            (Some [transcriptRow 8 2; transcriptRow 0 2])
                            true true true [] []
                            [EvEmbedding (JS.lit "ab");
                             EvEmbedding (JS.lit "ab")]))
    by (vm_compute; reflexivity).
  assert (Hdocs : searchDocuments demoEnv 2000 (JS.lit "ab") None
                    (Some (docCountOf (orDefault 5 (Some 7))))
                    (running [] [transcriptRow 8 2; transcriptRow 0 2])
                  = (Ok [],
                     mkWorld (Some [])
                             (Some [transcriptRow 8 2; transcriptRow 0 2])
                             true true true [] []
                             [EvEmbedding (JS.lit "ab")]))
    by (vm_compute; reflexivity).
  assert (Hraw : searchVideoTranscripts demoEnv 2000 (JS.lit "ab") None
                   (Some (videoCountOf (orDefault 5 (Some 7)) + 3))
                   (mkWorld (Some [])
                            (Some [transcriptRow 8 2; transcriptRow 0 2])
                            true true true [] []
                            [EvEmbedding (JS.lit "ab")])
                 = (Ok [b; a],
                    mkWorld (Some [])
                            (Some [transcriptRow 8 2; transcriptRow 0 2])
                            true true true [] []
                            [EvEmbedding (JS.lit "ab");
                             EvEmbedding (JS.lit "ab")]))
    by (vm_compute; reflexivity).
  destruct (H _ _ _ _ _ 0 _ _ _ _ _ _ Hrun Hdocs Hraw a b) with (j := O)
    as (i & Hi & _).
  - right. left. reflexivity.
  - left. reflexivity.
  - reflexivity.
  - cbn. lia.
  - reflexivity.
  - cbn. lra.
  - reflexivity.
  - lia.
Qed.

(** ** Subject filter *)

Lemma rankDocuments_subject now s userId sessionId topK raw (x : Scored.t) :
  In x (rankDocuments now (Some s) userId sessionId topK raw) ->
  Doc.subjectId (DocHit.row (Scored.doc x)) = s.
Proof.
  destruct (rankDocuments_source now (Some s) userId sessionId topK raw)
    as (kept & _ & Hsub & ->).
  intro Hx. apply slice0_In in Hx. apply sort_In in Hx.
  assert (Hin : In (Scored.doc x) kept).
  { destruct userId, sessionId;
      try (apply fallbackResults_entry in Hx; tauto).
    apply scoredResults_entry in Hx. tauto. }
  apply (Hsub _ Hin s). reflexivity.
Qed.

Lemma rankDocuments_subject_kept now s userId sessionId topK raw
      (d : DocHit.t) :
  In d raw -> Doc.subjectId (DocHit.row d) = s ->
  Z.of_nat (2 * List.length raw) <= topK ->
  In d (List.map Scored.doc
                 (rankDocuments now (Some s) userId sessionId topK raw)).
Proof.
  intros Hin Hs HK.
  set (kept := filter (fun r => Doc.subjectId (DocHit.row r) =? s) raw).
  assert (Heq : rankDocuments now (Some s) userId sessionId topK raw
                = rankDocuments now None userId sessionId topK kept)
    by reflexivity.
  assert (Hlen : (List.length kept <= List.length raw)%nat)
    by apply filter_length_le.
  rewrite Heq.
  eapply Permutation_in;
    [symmetry; apply rankDocuments_once_per_bucket; lia|].
  apply in_flat_map. exists d. split.
  - apply filter_In. split; [exact Hin|]. apply Z.eqb_eq. exact Hs.
  - rewrite bucketCount_spec.
    destruct (Doc.isTemporary (DocHit.row d)
              && (Doc.userId (DocHit.row d) =? 0)
              && (Doc.sessionId (DocHit.row d) =? 0)); cbn; auto.
Qed.

(** C9: with subjectId = 0 the transcript search runs without a subject
    filter, exactly as with no subjectId, whereas document retrieval with
    subjectId = 0 ranks the fetched rows whose subjectId is 0 and no
    other: it returns only such rows, and every fetched row of subject 0
    when [topK] does not cut the list.  On a store holding a document of
    no subject and one of subject 2, and a transcript of no subject and
    one of subject 2, the document search for subject 0 returns the first
    document alone while the search with no subject returns both, and the
    transcript search for subject 0 returns both transcripts, as the one
    with no subject does. *)
Theorem subject_zero_filters_documents_only :
  forall (env : Env) (now : Z) (query : JS.str) (topK : option Z),
    (forall w : World,
        searchVideoTranscripts env now query (Some 0) topK w
        = searchVideoTranscripts env now query None topK w)
    /\ (forall (userId sessionId : option Z) (k : Z) (raw : list DocHit.t),
           rankDocuments now (Some 0) userId sessionId k raw
           = rankDocuments now None userId sessionId k
               (filter (fun r => Doc.subjectId (DocHit.row r) =? 0) raw))
    /\ (forall (userId sessionId : option Z) (w w' : World)
               (docs : list Scored.t),
           searchDocumentsWithContext env now query (Some 0) userId sessionId
                                      topK w = (Ok docs, w') ->
           forall x, In x docs ->
                     Doc.subjectId (DocHit.row (Scored.doc x)) = 0)
    /\ (forall (userId sessionId : option Z) (k : Z) (raw : list DocHit.t)
               (d : DocHit.t),
           In d raw -> Doc.subjectId (DocHit.row d) = 0 ->
           Z.of_nat (2 * List.length raw) <= k ->
           In d (List.map Scored.doc
                   (rankDocuments now (Some 0) userId sessionId k raw)))
    /\ option_map
         (List.map (fun x => Doc.documentId (DocHit.row (Scored.doc x))))
         (returned
            (fst (searchDocumentsWithContext demoEnv 2000 (JS.lit "abcd")
                    (Some 0) None None (Some 5)
                    (running [subjectZeroRow; permanentRow]
                             [transcriptRow 1 0; transcriptRow 3 2]))))
       = Some [8]
    /\ option_map
         (List.map (fun x => Doc.documentId (DocHit.row (Scored.doc x))))
         (returned
            (fst (searchDocumentsWithContext demoEnv 2000 (JS.lit "abcd")
                    None None None (Some 5)
                    (running [subjectZeroRow; permanentRow]
                             [transcriptRow 1 0; transcriptRow 3 2]))))
       = Some [8; 7]
    /\ fst (searchVideoTranscripts demoEnv 2000 (JS.lit "abcd") (Some 0)
              (Some 5)
              (running [subjectZeroRow; permanentRow]
                       [transcriptRow 1 0; transcriptRow 3 2]))
       = Ok [VideoHit.mk (JS.lit "abcd") 1 0 0 0;
             VideoHit.mk (JS.lit "abcd") 3 0 2 0]
    /\ fst (searchVideoTranscripts demoEnv 2000 (JS.lit "abcd") None
              (Some 5)
              (running [subjectZeroRow; permanentRow]
                       [transcriptRow 1 0; transcriptRow 3 2]))
       = Ok [VideoHit.mk (JS.lit "abcd") 1 0 0 0;
             VideoHit.mk (JS.lit "abcd") 3 0 2 0].
Proof.
  intros env now query topK. repeat apply conj.
  - intro w. reflexivity.
  - intros. reflexivity.
  - intros userId sessionId w w' docs Hrun x Hx.
    apply searchDocumentsWithContext_returns in Hrun.
    destruct Hrun as (raw & ->).
    eapply rankDocuments_subject. eassumption.
  - intros userId sessionId k raw d Hin Hs HK.
    apply rankDocuments_subject_kept; assumption.
  - vm_compute. reflexivity.
  - vm_compute. reflexivity.
  - vm_compute. reflexivity.
  - vm_compute. reflexivity.
Qed.

(** ** The document side of the video Q&A combiner *)

(** Without a caller identity the bucket of other users' rows is the
    set of all rows flagged temporary. *)
Lemma anonymous_other_bucket (r : Doc.row) :
  isOtherDoc None None r = Doc.isTemporary r
  /\ isTemporaryDoc None None r = false.
Proof.
  unfold isOtherDoc, isTemporaryDoc, JS.strictEq. cbn.
  destruct (Doc.isTemporary r); split; reflexivity.
Qed.

Lemma anonymous_fallback_keeps_temporary (results : list DocHit.t)
      (d : DocHit.t) :
  In d results -> Doc.isTemporary (DocHit.row d) = true ->
  In (Scored.mk d permanent (1 - JS.orZero (DocHit._distance d) + 5)%Q)
     (fallbackResults None None results).
Proof.
  intros Hin Htmp. unfold fallbackResults.
  apply in_map_iff. exists d. split; [reflexivity|].
  rewrite !in_app_iff, !filter_In. right. right.
  split; [exact Hin|].
  rewrite (proj1 (anonymous_other_bucket _)). exact Htmp.
Qed.

(** C1 on the code: the document side of the combiner is the anonymous
    fallback of [searchDocumentsWithContext], which keeps every fetched
    row that is flagged temporary and labels it permanent.  With a
    temporary row of user 9, session 100 in the documents table, the
    combiner returns that row among its documents, ahead of the
    permanent row. *)
Theorem video_qa_returns_temporary_rows :
  (forall (results : list DocHit.t) (d : DocHit.t),
      In d results -> Doc.isTemporary (DocHit.row d) = true ->
      In (Scored.mk d permanent (1 - JS.orZero (DocHit._distance d) + 5)%Q)
         (fallbackResults None None results))
  /\ exists (r : Combined.t) (w' : World),
      searchCombinedForVideoQA demoEnv 2000 (JS.lit "abc") (Some 2) (Some 7)
        (Some 5) (running [ownedRow; permanentRow] [])
      = (Ok r, w')
      /\ List.map (fun d => (Doc.documentId (DocHit.row (Scored.doc d)),
                             Doc.isTemporary (DocHit.row (Scored.doc d)),
                             Scored.category d))
                  (Combined.documents r)
         = [(50, true, permanent); (7, false, permanent)].
Proof.
  split.
  - apply anonymous_fallback_keeps_temporary.
  - eexists. eexists. split; vm_compute; reflexivity.
Qed.

(** ** Ingestion *)

Lemma transcriptVectors_blank env now videoId subjectId
      (chunks : list Chunk.t) :
  Forall (fun c => nonEmptyChunk c = false) chunks ->
  forall vectorData w,
    transcriptVectors env now videoId subjectId chunks vectorData w
    = (Ok vectorData, w).
Proof.
  induction 1 as [|c chunks Hc _ IH]; intros vectorData w.
  - reflexivity.
  - cbn [transcriptVectors]. rewrite Hc. apply IH.
Qed.

(** The transcript path skips blank chunks: a list of them sends nothing
    to the provider, writes no row and returns 0. *)
Lemma processVideoTranscriptChunks_blank env now videoId subjectId
      (chunks : list Chunk.t) (w : World) :
  videoTable w = true ->
  Forall (fun c => nonEmptyChunk c = false) chunks ->
  processVideoTranscriptChunks env now videoId subjectId chunks w
  = (Ok 0, w).
Proof.
  intros Hset Hblank.
  unfold processVideoTranscriptChunks, bind, tryCatch, unlessSet.
  rewrite Hset. rewrite (transcriptVectors_blank _ _ _ _ _ Hblank).
  reflexivity.
Qed.

Lemma embeddings_emit (text : JS.str) (w : World) :
  embeddings (emit (EvEmbedding text) w) = EvEmbedding text :: embeddings w.
Proof. reflexivity. Qed.

Lemma embeddings_fold_emit (chunks : list JS.str) (w : World) :
  embeddings (fold_left (fun w c => emit (EvEmbedding c) w) chunks w)
  = rev (List.map EvEmbedding chunks) ++ embeddings w.
Proof.
  revert w. induction chunks as [|c chunks IH]; intro w; cbn [fold_left].
  - reflexivity.
  - rewrite IH, embeddings_emit. cbn [List.map rev].
    rewrite <- app_assoc. reflexivity.
Qed.

Lemma storeCall_trace (w : World) : trace (snd (storeCall w)) = trace w.
Proof.
  unfold storeCall. destruct (faults w) as [|[|] fs]; reflexivity.
Qed.

Lemma DocTable_add_trace (new : list Doc.row) (w : World) :
  trace (snd (DocTable.add new w)) = trace w.
Proof.
  unfold DocTable.add, add. rewrite snd_bind.
  pose proof (storeCall_trace w) as Hs.
  destruct (storeCall w) as [[[]|] w1]; cbn [snd] in Hs; [|exact Hs].
  rewrite snd_bind. unfold rowsOf.
  destruct (table w1); [|exact Hs].
  destruct (documents w1); exact Hs.
Qed.

(** The document path sends every chunk of a non-empty list to the
    provider, whatever its text. *)
Lemma processDocumentChunks_embeds_every_chunk env now documentId subjectId
      (chunks : list JS.str) userId sessionId isTemporary (w : World) :
  table w = true -> chunks <> [] ->
  embeddings (snd (processDocumentChunks env now documentId subjectId chunks
                                         userId sessionId isTemporary w))
  = rev (List.map EvEmbedding chunks) ++ embeddings w.
Proof.
  intros Hset Hne. unfold processDocumentChunks.
  rewrite (bind_unlessSet_set _ _ _ _ Hset).
  destruct chunks as [|c chunks]; [contradiction|]. cbn [List.length Nat.eqb].
  set (cs := c :: chunks).
  unfold tryCatch, throw. rewrite <- (embeddings_fold_emit cs w).
  unfold bind at 1, embedAll.
  destruct (allSome (List.map (getEmbedding env) cs)) as [vs|];
    [|reflexivity].
  match goal with
  | |- context [DocTable.add ?new] =>
      pose proof (DocTable_add_trace new
                    (fold_left (fun w c => emit (EvEmbedding c) w) cs w))
        as Ha;
      unfold bind;
      destruct (DocTable.add new
                  (fold_left (fun w c => emit (EvEmbedding c) w) cs w))
        as [[[]|] w1]
  end; cbn [snd] in Ha; unfold embeddings.
  - destruct isTemporary; cbn [negb when].
    + cbn. rewrite Ha. reflexivity.
    + unfold storageCall. pose proof (storeCall_trace w1) as Hs.
      destruct (storeCall w1) as [[[]|] w2]; cbn [snd] in *;
        rewrite Hs, Ha; reflexivity.
  - cbn [snd]. rewrite Ha. reflexivity.
Qed.

(** C5 on the code: the document path has no test for blank chunks; it
    sends every chunk of a non-empty list to the provider.  A document
    whose only chunk is three spaces costs one request and leaves one
    row in the documents table, while the transcript path returns 0 for
    the same text. *)
Theorem document_ingestion_indexes_blank_chunk :
  (forall (env : Env) (now documentId subjectId : Z) (chunks : list JS.str)
          (userId sessionId : option Z) (isTemporary : bool) (w : World),
      table w = true -> chunks <> [] ->
      embeddings (snd (processDocumentChunks env now documentId subjectId
                         chunks userId sessionId isTemporary w))
      = rev (List.map EvEmbedding chunks) ++ embeddings w)
  /\ exists w' : World,
      processDocumentChunks demoEnv 2000 7 2 [JS.lit "   "] None None false
                            (running [] [])
      = (Ok tt, w')
      /\ embeddings w' = [EvEmbedding (JS.lit "   ")]
      /\ documents w'
         = Some [Doc.mk [3%Q] (JS.lit "   ") 7 0 2 0 0 false 2000]
      /\ JS.trim (JS.lit "   ") = []
      /\ processVideoTranscriptChunks demoEnv 2000 7 2
           [Chunk.mk (Some 1) (JS.lit "   ") 0] (running [] [])
         = (Ok 0, running [] []).
Proof.
  split.
  - intros. apply processDocumentChunks_embeds_every_chunk; assumption.
  - eexists. repeat split; vm_compute; reflexivity.
Qed.

(** ** Expiry sweep *)

(** The store rejects the predicate of the sweep, whatever the cutoff
    written into it: its first comparison is between the string
    [isTemporary] and a boolean. *)
Lemma sweep_predicate_rejected (q : Predicate) :
  plan Doc.vector
       (Both (IsEqual (Text (JS.lit "isTemporary")) (Boolean true)) q)
  = None.
Proof. reflexivity. Qed.

Lemma rejected_delete_keeps (p : Predicate) (w : World) :
  plan Doc.vector p = None ->
  fst (DocTable.delete p w) = Thrown
  /\ documents (snd (DocTable.delete p w)) = documents w
  /\ video_transcripts (snd (DocTable.delete p w)) = video_transcripts w
  /\ table (snd (DocTable.delete p w)) = table w.
Proof.
  intro Hp. unfold DocTable.delete, delete, bind, storeCall, rowsOf, throw.
  rewrite Hp.
  destruct w as [docs vt d t vtb vs fs tr]; cbn.
  destruct fs as [|[|] fs]; cbn; destruct t; cbn;
    destruct docs; cbn; repeat split; reflexivity.
Qed.

Lemma countRows_keeps (w : World) :
  documents (snd (DocTable.countRows w)) = documents w
  /\ video_transcripts (snd (DocTable.countRows w)) = video_transcripts w
  /\ table (snd (DocTable.countRows w)) = table w.
Proof.
  unfold DocTable.countRows, countRows, bind, storeCall, rowsOf, ret.
  destruct w as [docs vt d t vtb vs fs tr]; cbn.
  destruct fs as [|[|] fs]; cbn; destruct t; cbn;
    destruct docs; cbn; repeat split; reflexivity.
Qed.

(** A count, a delete that the store rejects and the [catch] that
    throws again: nothing is returned and no row is touched, whatever
    the store answers to the count. *)
Lemma counted_rejected_delete (p : Predicate) (w : World) :
  plan Doc.vector p = None ->
  exists w' : World,
    tryCatch
      (beforeCount <- DocTable.countRows ;;
       DocTable.delete p ;;
       afterCount <- DocTable.countRows ;;
       ret (beforeCount - afterCount))
      throw w = (Thrown, w')
    /\ documents w' = documents w
    /\ video_transcripts w' = video_transcripts w
    /\ table w' = table w.
Proof.
  intros Hp. unfold tryCatch, bind, throw.
  destruct (countRows_keeps w) as (Hd & Hv & Ht).
  destruct (DocTable.countRows w) as [[n|] w1]; cbn [fst snd] in *;
    [|eauto].
  destruct (rejected_delete_keeps p w1 Hp) as (Hr & Hd1 & Hv1 & Ht1).
  destruct (DocTable.delete p w1) as [[[]|] w2]; cbn [fst snd] in *;
    [discriminate|].
  exists w2. repeat split; congruence.
Qed.

(** C6 on the code: the sweep deletes nothing.  The predicate it sends,
    ["isTemporary" = true AND "createdAt" < '...'], compares the string
    [isTemporary] with a boolean; the store rejects it, the [catch]
    throws the error again, and the documents table is as before.  On
    an initialized service this is so at every time, in every time
    zone and whatever the store answers to the count. *)
Theorem expiry_sweep_removes_nothing :
  forall (env : Env) (now : Z) (w : World),
    table w = true ->
    fst (cleanupExpiredTemporaryVectors env now w) = Thrown
    /\ documents (snd (cleanupExpiredTemporaryVectors env now w))
       = documents w
    /\ video_transcripts (snd (cleanupExpiredTemporaryVectors env now w))
       = video_transcripts w.
Proof.
  intros env now w Ht. unfold cleanupExpiredTemporaryVectors.
  rewrite bind_unlessSet_set by exact Ht.
  destruct (counted_rejected_delete
              (Both (IsEqual (Text (JS.lit "isTemporary")) (Boolean true))
                    (IsLess (Text (JS.lit "createdAt"))
                            (Text (JS.toISOString
                                     (twoHoursAgo (calendar env) now)))))
              w (sweep_predicate_rejected _))
    as (w' & Hrun & Hd & Hv & _).
  cbv zeta. rewrite Hrun. auto.
Qed.

(** Scenario E of the specification: a temporary row created three hours
    before the sweep, next to a fresh one and a permanent one.  The
    sweep throws and the expired row stays. *)
Lemma expiry_sweep_removes_nothing_witness :
  table (running [oldTemporaryRow; freshTemporaryRow; permanentRow] []) = true
  /\ fst (cleanupExpiredTemporaryVectors demoEnv (3 * 60 * 60 * 1000)
            (running [oldTemporaryRow; freshTemporaryRow; permanentRow] []))
     = Thrown
  /\ documents
       (snd (cleanupExpiredTemporaryVectors demoEnv (3 * 60 * 60 * 1000)
               (running [oldTemporaryRow; freshTemporaryRow; permanentRow]
                        [])))
     = Some [oldTemporaryRow; freshTemporaryRow; permanentRow]
  /\ expired (calendar demoEnv) (3 * 60 * 60 * 1000) oldTemporaryRow = true.
Proof.
  split; [reflexivity|].
  destruct (expiry_sweep_removes_nothing demoEnv (3 * 60 * 60 * 1000)
              (running [oldTemporaryRow; freshTemporaryRow; permanentRow] [])
              eq_refl) as (Hr & Hd & _).
  split; [exact Hr|]. split; [exact Hd|]. reflexivity.
Defined.

(** ** Failure modes of [deleteVideoVectors] *)

Lemma tryCatch_ret_returns {A} (m : M A) (x : A) (w : World) :
  fst (tryCatch m (ret x) w) <> Thrown.
Proof.
  unfold tryCatch, ret. destruct (m w) as [[a|] w1]; cbn; discriminate.
Qed.

Lemma nearest_In {R} (vec : R -> Vec) env q (rows : list R) (h : R * Q) :
  In h (nearest vec env q rows) <->
  In (fst h) rows /\ snd h = distance env (vec (fst h)) q.
Proof.
  unfold nearest. rewrite sort_In, in_map_iff. split.
  - intros (r & <- & Hr). cbn. tauto.
  - intros [Hr Hd]. exists (fst h). split; [|exact Hr].
    destruct h as [r d]. cbn in *. congruence.
Qed.

Lemma nearest_length {R} (vec : R -> Vec) env q (rows : list R) :
  List.length (nearest vec env q rows) = List.length rows.
Proof. unfold nearest. rewrite sort_length, length_map. reflexivity. Qed.

Lemma fetched_In {R} (vec : R -> Vec) env q (n : nat) (rows : list R)
      (r : R) :
  In r (List.map fst (firstn n (nearest vec env q rows))) -> In r rows.
Proof.
  rewrite in_map_iff. intros (h & <- & Hh).
  assert (Hin : In h (nearest vec env q rows)).
  { rewrite <- (firstn_skipn n). apply in_or_app. left. exact Hh. }
  apply nearest_In in Hin. tauto.
Qed.

Lemma filter_none {A} (p : A -> bool) (l : list A) :
  (forall x, In x l -> p x = false) -> filter p l = [].
Proof.
  induction l as [|x l IH]; intro H; [reflexivity|].
  cbn [filter]. rewrite (H x (or_introl eq_refl)).
  apply IH. intros y Hy. apply H. right. exact Hy.
Qed.

Lemma deleteVideoVectors_throws_iff env now videoId (w : World) :
  fst (deleteVideoVectors env now videoId w) = Thrown
  <-> videoTable w = false /\ fst (initialize now w) = Thrown.
Proof.
  unfold deleteVideoVectors, bind, unlessSet.
  destruct (videoTable w).
  - split.
    + intro H. exfalso. revert H. apply tryCatch_ret_returns.
    + intros [H _]. discriminate.
  - destruct (initialize now w) as [[[]|] w1]; cbn [fst]; split.
    + intro H. exfalso. revert H. apply tryCatch_ret_returns.
    + intros [_ H]. discriminate.
    + tauto.
    + reflexivity.
Qed.

Lemma deleteVideoVectors_failed_fetch env now videoId (w : World) fs :
  videoTable w = true -> faults w = true :: fs ->
  deleteVideoVectors env now videoId w = (Ok 0, setFaults fs w).
Proof.
  intros Hset Hf.
  unfold deleteVideoVectors, bind, unlessSet, tryCatch, VideoTable.search,
    search, bind, storeCall, ret.
  rewrite Hset, Hf. reflexivity.
Qed.

Lemma deleteVideoVectors_no_rows env now videoId (w : World) rows :
  videoTable w = true -> video_transcripts w = Some rows ->
  Forall (fun r => Video.videoId r <> videoId) rows ->
  hd false (faults w) = false ->
  fst (deleteVideoVectors env now videoId w) = Ok 0.
Proof.
  intros Hset Hrows Hnone Hf.
  assert (Hnil : forall n,
             filter (fun r => Video.videoId r =? videoId)
                    (List.map fst (firstn n (nearest Video.vector env
                                                     zeroVector rows)))
             = []).
  { intro n. apply filter_none. intros r Hr. apply fetched_In in Hr.
    rewrite Forall_forall in Hnone. apply Z.eqb_neq. auto. }
  unfold deleteVideoVectors, bind, unlessSet, tryCatch, VideoTable.search,
    search, bind, storeCall, rowsOf, ret.
  change (10000 <=? 0) with false. cbv iota.
  rewrite Hset.
  destruct (faults w) as [|[|] fs]; cbn in Hf; try discriminate;
    cbn [videoTable video_transcripts setFaults];
    rewrite ?Hset, Hrows, Hnil; reflexivity.
Qed.

(** C10, amended: [deleteVideoVectors] throws exactly when the handle on
    the transcripts table is unset and the [initialize()] it then runs,
    outside its [try], throws.  With the handle set it returns a number
    whatever the store does: 0 when the fetch of the rows fails, which
    leaves every row in place, and 0 as well when the table holds no row
    of the video.  Whenever it returns, [deleteVideo] goes on to delete
    the record of the video. *)
Theorem deleteVideoVectors_failure_modes :
  forall (env : Env) (now videoId : Z) (w : World),
    (fst (deleteVideoVectors env now videoId w) = Thrown
     <-> videoTable w = false /\ fst (initialize now w) = Thrown)
    /\ (videoTable w = true ->
        forall fs, faults w = true :: fs ->
                   deleteVideoVectors env now videoId w
                   = (Ok 0, setFaults fs w))
    /\ (videoTable w = true ->
        forall rows, video_transcripts w = Some rows ->
                     Forall (fun r => Video.videoId r <> videoId) rows ->
                     hd false (faults w) = false ->
                     fst (deleteVideoVectors env now videoId w) = Ok 0)
    /\ (fst (deleteVideoVectors env now videoId w) <> Thrown ->
        exists w', deleteVideo env now videoId w = (Ok tt, w')
                   /\ ~ In videoId (videos w')).
Proof.
  intros env now videoId w. split; [|split; [|split]].
  - apply deleteVideoVectors_throws_iff.
  - intros Hset fs Hf. apply deleteVideoVectors_failed_fetch; assumption.
  - intros Hset rows Hrows Hnone Hf.
    eapply deleteVideoVectors_no_rows; eassumption.
  - intro Hret. unfold deleteVideo, bind.
    destruct (deleteVideoVectors env now videoId w) as [[n|] w1];
      [|contradiction Hret; reflexivity].
    eexists. split; [reflexivity|].
    cbn [videos setVideos]. rewrite filter_In. intros [_ H].
    rewrite Z.eqb_refl in H. discriminate.
Qed.

(** The theorem on a service whose store fails at the fetch: the rows of
    video 5 stay, the call returns 0, the record of the video goes. *)
Lemma deleteVideoVectors_failure_modes_witness :
  deleteVideoVectors demoEnv 2000 5 failingFetch
  = (Ok 0, setFaults [] failingFetch)
  /\ video_transcripts (snd (deleteVideo demoEnv 2000 5 failingFetch))
     = Some [transcriptRow 5 2]
  /\ videos (snd (deleteVideo demoEnv 2000 5 failingFetch)) = [].
Proof.
  split; [|split; vm_compute; reflexivity].
  apply (proj1 (proj2 (deleteVideoVectors_failure_modes demoEnv 2000 5
                         failingFetch)));
    reflexivity.
Defined.

(** C10 as stated fails: in a process whose service is not initialized
    and whose store is unreachable, [deleteVideoVectors] throws, and
    [deleteVideo] with it. *)
Lemma deleteVideoVectors_can_throw :
  ~ (forall (env : Env) (now videoId : Z) (w : World),
        exists (n : Z) (w' : World),
          deleteVideoVectors env now videoId w = (Ok n, w'))
  /\ fst (deleteVideoVectors demoEnv 2000 5
            (cold [] [transcriptRow 5 2] [true])) = Thrown
  /\ fst (deleteVideo demoEnv 2000 5 (cold [] [transcriptRow 5 2] [true]))
     = Thrown.
Proof.
  split; [|split; vm_compute; reflexivity].
  intro H.
  destruct (H demoEnv 2000 5 (cold [] [transcriptRow 5 2] [true]))
    as (n & w' & Hrun).
  vm_compute in Hrun. discriminate.
Qed.

(** A failed delete of one row is skipped, not reported: of the two rows
    of video 5 the first delete fails and the call returns 1. *)
Example deleteVideoVectors_partial :
  let w := mkWorld (Some [])
                   (Some [Video.mk [1%Q] (JS.lit "a") 5 0 0 0 2 1000;
                          Video.mk [2%Q] (JS.lit "b") 5 1 0 0 2 1000;
                          Video.mk [3%Q] (JS.lit "c") 8 0 0 0 2 1000])
                   true true true [5; 8] [false; true] [] in
  fst (deleteVideoVectors demoEnv 2000 5 w) = Ok 1
  /\ video_transcripts (snd (deleteVideoVectors demoEnv 2000 5 w))
     = Some [Video.mk [1%Q] (JS.lit "a") 5 0 0 0 2 1000;
             Video.mk [3%Q] (JS.lit "c") 8 0 0 0 2 1000].
Proof. intro w. split; vm_compute; reflexivity. Qed.

(** ** Which requests drop a table *)

Lemma calm_ret {A} (a : A) : calm (ret a).
Proof. intros w Hw. cbn. tauto. Qed.

Lemma calm_throw {A} : calm (@throw A).
Proof. intros w Hw. cbn. tauto. Qed.

Lemma calm_bind {A B} (m : M A) (k : A -> M B) :
  calm m -> (forall a, calm (k a)) -> calm (bind m k).
Proof.
  intros Hm Hk w Hw. unfold bind. specialize (Hm w Hw).
  destruct (m w) as [[a|] w1]; cbn [snd] in *.
  - destruct Hm as [Hi Hd]. destruct (Hk a w1 Hi) as [Hi' Hd'].
    split; [assumption|congruence].
  - exact Hm.
Qed.

Lemma calm_tryCatch {A} (m h : M A) : calm m -> calm h -> calm (tryCatch m h).
Proof.
  intros Hm Hh w Hw. unfold tryCatch. specialize (Hm w Hw).
  destruct (m w) as [[a|] w1]; cbn [snd] in *.
  - exact Hm.
  - destruct Hm as [Hi Hd]. destruct (Hh w1 Hi) as [Hi' Hd'].
    split; [assumption|congruence].
Qed.

Lemma calm_when (b : bool) (m : M unit) : calm m -> calm (when b m).
Proof. destruct b; [tauto|]. intros _. apply calm_ret. Qed.

Lemma calm_modify (f : World -> World) : harmless f -> calm (modify f).
Proof.
  intros Hf w [Ht Hv]. destruct (Hf w) as (H1 & H2 & H3).
  unfold modify, initialized. cbn [snd]. repeat split; congruence.
Qed.

Lemma calm_unlessSet_table (m : M unit) : calm (unlessSet table m).
Proof.
  intros w Hw. unfold unlessSet. destruct Hw as [Ht Hv]. rewrite Ht.
  cbn. repeat split; assumption.
Qed.

Lemma calm_unlessSet_videoTable (m : M unit) : calm (unlessSet videoTable m).
Proof.
  intros w Hw. unfold unlessSet. destruct Hw as [Ht Hv]. rewrite Hv.
  cbn. repeat split; assumption.
Qed.

Lemma harmless_setFaults fs : harmless (setFaults fs).
Proof. intro w. repeat split. Qed.

Lemma harmless_setDocuments t : harmless (setDocuments t).
Proof. intro w. repeat split. Qed.

Lemma harmless_setVideoTranscripts t : harmless (setVideoTranscripts t).
Proof. intro w. repeat split. Qed.

Lemma harmless_emit_embedding text : harmless (emit (EvEmbedding text)).
Proof. intro w. repeat split. Qed.

Lemma calm_storeCall : calm storeCall.
Proof.
  intros w Hw. unfold storeCall.
  destruct (faults w) as [|[|] fs]; cbn [snd]; auto.
Qed.

Section CalmTable.
Context {R : Type}.
Variable get : World -> option (list R).
Variable set : option (list R) -> World -> World.
Variable handle : World -> bool.
Variable vec : R -> Vec.
Variable env : Env.
Hypothesis set_harmless : forall t, harmless (set t).

Lemma calm_rowsOf : calm (rowsOf get handle).
Proof.
intros w Hw. unfold rowsOf.
destruct (handle w); [destruct (get w)|]; cbn [snd]; auto.
Qed.

Lemma calm_search q p n : calm (search get handle vec env q p n).
Proof.
unfold search. apply calm_bind; [apply calm_storeCall|]. intros _.
apply calm_bind; [apply calm_rowsOf|]. intro rows.
destruct (n <=? 0); [apply calm_throw|].
destruct p as [p|]; [|apply calm_ret].
destruct (plan vec p); [apply calm_ret|apply calm_throw].
Qed.

Lemma calm_add new : calm (add get set handle new).
Proof.
unfold add. apply calm_bind; [apply calm_storeCall|]. intros _.
apply calm_bind; [apply calm_rowsOf|]. intro rows.
apply calm_modify, set_harmless.
Qed.

Lemma calm_delete p : calm (delete get set handle vec p).
Proof.
unfold delete. apply calm_bind; [apply calm_storeCall|]. intros _.
apply calm_bind; [apply calm_rowsOf|]. intro rows.
destruct (plan vec p); [apply calm_modify, set_harmless|apply calm_throw].
Qed.

Lemma calm_countRows : calm (countRows get handle).
Proof.
unfold countRows. apply calm_bind; [apply calm_storeCall|]. intros _.
apply calm_bind; [apply calm_rowsOf|]. intro rows. apply calm_ret.
Qed.

End CalmTable.

Lemma calm_embed env text : calm (embed env text).
Proof.
  intros w Hw. unfold embed.
  destruct (getEmbedding env text); cbn [snd]; auto.
Qed.

Lemma fold_emit_embedding (chunks : list JS.str) (w : World) :
  let w' := fold_left (fun w c => emit (EvEmbedding c) w) chunks w in
  table w' = table w /\ videoTable w' = videoTable w
  /\ dropped w' = dropped w.
Proof.
  revert w. induction chunks as [|c chunks IH]; intro w; cbn [fold_left].
  - tauto.
  - destruct (IH (emit (EvEmbedding c) w)) as (H1 & H2 & H3).
    cbn zeta. rewrite H1, H2, H3. repeat split.
Qed.

Lemma calm_embedAll env chunks : calm (embedAll env chunks).
Proof.
  intros w [Ht Hv]. unfold embedAll.
  destruct (fold_emit_embedding chunks w) as (H1 & H2 & H3).
  unfold initialized.
  destruct (allSome _); cbn [snd]; rewrite H1, H2, H3; auto.
Qed.

Lemma calm_transcriptVectors env now videoId subjectId chunks :
  forall vectorData,
    calm (transcriptVectors env now videoId subjectId chunks vectorData).
Proof.
  induction chunks as [|c chunks IH]; intro vectorData;
    cbn [transcriptVectors].
  - apply calm_ret.
  - destruct (nonEmptyChunk c); [|apply IH].
    apply calm_bind; [apply calm_embed|]. intro v. apply IH.
Qed.

Lemma calm_deleteEach records : forall n, calm (deleteEach records n).
Proof.
  induction records as [|r records IH]; intro n; cbn [deleteEach].
  - apply calm_ret.
  - apply calm_bind; [|apply IH].
    apply calm_tryCatch; [|apply calm_ret].
    apply calm_bind; [|intros _; apply calm_ret].
    apply calm_delete, harmless_setVideoTranscripts.
Qed.

Create HintDb calm.
#[local] Hint Resolve calm_ret calm_throw calm_storeCall calm_embed
  calm_embedAll calm_transcriptVectors calm_deleteEach
  calm_unlessSet_table calm_unlessSet_videoTable : calm.
#[local] Hint Resolve harmless_setDocuments harmless_setVideoTranscripts
  harmless_setFaults : calm.

Ltac calm_steps :=
  repeat first
         [ solve [auto with calm]
         | apply calm_search
         | apply calm_add
         | apply calm_delete
         | apply calm_countRows
         | apply calm_tryCatch
         | apply calm_when
         | apply calm_bind; [|intro] ].

Lemma calm_searchDocumentsWithContext env now query subjectId userId
      sessionId topK :
  calm (searchDocumentsWithContext env now query subjectId userId sessionId
                                   topK).
Proof.
  unfold searchDocumentsWithContext, DocTable.search. calm_steps.
Qed.

Lemma calm_processDocumentChunks env now documentId subjectId chunks userId
      sessionId isTemporary :
  calm (processDocumentChunks env now documentId subjectId chunks userId
                              sessionId isTemporary).
Proof.
  unfold processDocumentChunks, DocTable.add, storageCall.
  apply calm_bind; [auto with calm|]. intros _.
  destruct (List.length chunks =? 0)%nat; calm_steps.
Qed.

Lemma calm_processVideoTranscriptChunks env now videoId subjectId chunks :
  calm (processVideoTranscriptChunks env now videoId subjectId chunks).
Proof.
  unfold processVideoTranscriptChunks, VideoTable.add. calm_steps.
Qed.

Lemma calm_searchVideoTranscripts env now query subjectId topK :
  calm (searchVideoTranscripts env now query subjectId topK).
Proof.
  unfold searchVideoTranscripts, VideoTable.search.
  apply calm_bind; [auto with calm|]. intros _.
  apply calm_tryCatch; [|auto with calm].
  apply calm_bind; [auto with calm|]. intro v.
  apply calm_bind; [|intro; auto with calm].
  destruct (JS.truthyNum subjectId); apply calm_search.
Qed.

Lemma calm_searchCombinedForVideoQA env now query subjectId topK
      currentVideoId :
  calm (searchCombinedForVideoQA env now query subjectId topK
                                 currentVideoId).
Proof.
  unfold searchCombinedForVideoQA, searchDocuments.
  apply calm_tryCatch; [|auto with calm].
  apply calm_bind; [apply calm_searchDocumentsWithContext|]. intro docs.
  apply calm_bind; [apply calm_searchVideoTranscripts|]. intro vids.
  auto with calm.
Qed.

Lemma calm_deleteVectorsByDocumentId now documentId :
  calm (deleteVectorsByDocumentId now documentId).
Proof.
  unfold deleteVectorsByDocumentId, DocTable.countRows, DocTable.delete.
  calm_steps.
Qed.

Lemma calm_deleteVectorsByUserSession now userId sessionId :
  calm (deleteVectorsByUserSession now userId sessionId).
Proof.
  unfold deleteVectorsByUserSession, DocTable.countRows, DocTable.delete.
  calm_steps.
Qed.

Lemma calm_cleanupExpiredTemporaryVectors env now :
  calm (cleanupExpiredTemporaryVectors env now).
Proof.
  unfold cleanupExpiredTemporaryVectors, DocTable.countRows, DocTable.delete.
  cbv zeta. calm_steps.
Qed.

Lemma calm_useDb : calm useDb.
Proof.
  intros w Hw. unfold useDb. destruct (db w); cbn [snd]; auto.
Qed.

Lemma calm_createVideoTable overwrite rows :
  calm (VideoTable.createTable overwrite rows).
Proof.
  unfold VideoTable.createTable, createTable.
  apply calm_bind; [apply calm_useDb|]. intros _.
  destruct overwrite; [apply calm_throw|].
  apply calm_bind; [apply calm_storeCall|]. intros _.
  intros w [Ht Hv].
  destruct (tableExists VideoTranscripts w);
    cbn [snd]; unfold initialized; auto.
Qed.

(** [dropTable] leaves the handles as they are; it either throws without
    dropping or records the drop of the table with its rows. *)
Lemma dropTable_effect (name : TableName) (w : World) :
  table (snd (dropTable name w)) = table w
  /\ videoTable (snd (dropTable name w)) = videoTable w
  /\ ((fst (dropTable name w) = Thrown
       /\ dropped (snd (dropTable name w)) = dropped w)
      \/ (fst (dropTable name w) = Ok tt
          /\ exists w1, tableSize name w1 = tableSize name w
                        /\ dropped (snd (dropTable name w))
                           = EvDropTable name (tableSize name w1)
                               :: dropped w)).
Proof.
  unfold dropTable, bind, useDb, storeCall.
  destruct (db w); [|cbn; tauto].
  destruct (faults w) as [|[|] fs]; cbn [fst snd];
    try (cbn; tauto);
    match goal with
    | |- context [tableExists name ?w0] =>
        destruct (tableExists name w0) eqn:E
    end;
    cbn [fst snd]; try (cbn; tauto);
    (split; [destruct name; reflexivity|];
     split; [destruct name; reflexivity|]; right; split; [reflexivity|];
     eexists; split; [|destruct name; reflexivity]; destruct name;
     reflexivity).
Qed.

Lemma VideoTable_search_returns env q n (w w1 : World) found :
  VideoTable.search env q None n w = (Ok found, w1) ->
  exists rows,
    video_transcripts w = Some rows
    /\ video_transcripts w1 = Some rows
    /\ found = firstn (Z.to_nat n) (nearest Video.vector env q rows).
Proof.
  unfold VideoTable.search, search, bind, storeCall, rowsOf, ret, throw.
  intro H.
  destruct (faults w) as [|[|] fs]; break_runs; eauto.
Qed.

Lemma fetched_all {R} (vec : R -> Vec) env q (n : nat) (rows : list R)
      (r : R) :
  (List.length rows <= n)%nat -> In r rows ->
  In r (List.map fst (firstn n (nearest vec env q rows))).
Proof.
  intros Hlen Hr. rewrite firstn_all2 by (rewrite nearest_length; exact Hlen).
  apply in_map_iff. exists (r, distance env (vec r) q).
  split; [reflexivity|]. apply nearest_In. cbn. tauto.
Qed.

(** Dropping and recreating the transcripts table, as [deleteVideoVectors]
    does it: the handles stay set, and either nothing was dropped or the
    table was, with the rows it held. *)
Lemma recreate_drop now (n : Z) (w : World) :
  initialized w ->
  let w' := snd ((dropTable VideoTranscripts ;;
                  VideoTable.createTable false [initVideo now] ;;
                  tryCatch (VideoTable.delete textIsInit) (ret tt) ;;
                  ret n) w) in
  initialized w'
  /\ (dropped w' = dropped w
      \/ dropped w'
         = EvDropTable VideoTranscripts (tableSize VideoTranscripts w)
             :: dropped w).
Proof.
  intros Hw w'. subst w'. rewrite snd_bind.
  destruct (dropTable_effect VideoTranscripts w)
    as (Hdt & Hdv & [[Hthrown Hsame]|[Hok (w2 & Hsize & Hdrop)]]);
    destruct (dropTable VideoTranscripts w) as [[[]|] w1];
    cbn [fst snd] in *; try discriminate.
  - split; [unfold initialized in *; intuition congruence|]. left. exact Hsame.
  - assert (Hi1 : initialized w1)
      by (unfold initialized in *; intuition congruence).
    assert (Hrest :
              calm (VideoTable.createTable false [initVideo now] ;;
                    tryCatch (VideoTable.delete textIsInit) (ret tt) ;;
                    ret n)).
    { apply calm_bind; [apply calm_createVideoTable|]. intros _.
      apply calm_bind; [|intros _; apply calm_ret].
      apply calm_tryCatch; [|apply calm_ret].
      apply calm_delete, harmless_setVideoTranscripts. }
    destruct (Hrest w1 Hi1) as [Hi Hd]. split; [exact Hi|].
    right. rewrite Hd, Hdrop, Hsize. reflexivity.
Qed.

(** What [deleteVideoVectors] can do to an initialized service: it drops
    no table, or it drops the transcripts table; in the second case the
    table, if it held at most the 10000 rows the method fetches, held
    rows of the deleted video only. *)
Lemma deleteVideoVectors_drop env now videoId (w : World) :
  initialized w ->
  initialized (snd (deleteVideoVectors env now videoId w))
  /\ (dropped (snd (deleteVideoVectors env now videoId w)) = dropped w
      \/ exists n : nat,
          dropped (snd (deleteVideoVectors env now videoId w))
          = EvDropTable VideoTranscripts n :: dropped w
          /\ forall rows,
              video_transcripts w = Some rows ->
              Z.of_nat (List.length rows) <= 10000 ->
              n = List.length rows /\ rows <> []
              /\ Forall (fun r => Video.videoId r = videoId) rows).
Proof.
  intros Hw. pose proof Hw as [Ht Hv].
  unfold deleteVideoVectors.
  rewrite (bind_unlessSet_set _ _ _ _ Hv), snd_tryCatch_ret, snd_bind.
  pose proof (calm_search video_transcripts videoTable Video.vector env
                          zeroVector None 10000 w Hw) as Hs.
  fold (VideoTable.search env zeroVector None 10000) in Hs.
  destruct (VideoTable.search env zeroVector None 10000 w)
    as [[found|] w1] eqn:Hrun; cbn [snd] in Hs; destruct Hs as [Hi1 Hd1];
    [|split; [exact Hi1|left; exact Hd1]].
  apply VideoTable_search_returns in Hrun.
  destruct Hrun as (rows & Hrows & Hrows1 & Hfound).
  destruct (List.length (filter (fun r => (Video.videoId r =? videoId)%Z)
                                (List.map fst found)) =? 0)%nat eqn:Edel;
    [split; [exact Hi1|left; exact Hd1]|].
  destruct (List.length
              (filter (fun r => negb (Video.videoId r =? videoId)%Z)
                      (List.map fst found)) =? 0)%nat eqn:Ekeep.
  - (* every fetched row belongs to the video: drop and recreate *)
    destruct (recreate_drop now
                (Z.of_nat (List.length
                             (filter (fun r => Video.videoId r =? videoId)
                                     (List.map fst found)))) w1 Hi1)
      as [Hi [Hd|Hd]]; (split; [exact Hi|]).
    + left. congruence.
    + right. exists (tableSize VideoTranscripts w1).
      split; [congruence|]. intros rows' Hrows' Hlen.
      rewrite Hrows in Hrows'. injection Hrows' as <-.
      split; [cbn; rewrite Hrows1; reflexivity|].
      split; [intros ->; subst found; cbn in Edel; discriminate|].
      apply Forall_forall. intros r Hr.
      apply Nat.eqb_eq, length_zero_iff_nil in Ekeep.
      assert (Hin : In r (List.map fst found)).
      { subst found. apply fetched_all; [lia|assumption]. }
      destruct (Video.videoId r =? videoId) eqn:E;
        [apply Z.eqb_eq; exact E|].
      assert (Hk : In r (filter (fun r => negb (Video.videoId r =? videoId))
                                (List.map fst found))).
      { apply filter_In. rewrite E. tauto. }
      rewrite Ekeep in Hk. destruct Hk.
  - (* rows of other videos remain: delete row by row *)
    destruct (calm_deleteEach
                (filter (fun r => Video.videoId r =? videoId)
                        (List.map fst found)) 0 w1 Hi1) as [Hi3 Hd3].
    split; [exact Hi3|]. left. congruence.
Qed.

Lemma calm_unlessSet_both (m : M unit) :
  calm (unlessSet (fun w => table w && videoTable w) m).
Proof.
  intros w Hw. unfold unlessSet. destruct Hw as [Ht Hv]. rewrite Ht, Hv.
  cbn. repeat split; assumption.
Qed.

Lemma calm_deleteAllVectors env now : calm (deleteAllVectors env now).
Proof.
  unfold deleteAllVectors, DocTable.countRows, DocTable.delete,
    VideoTable.countRows, VideoTable.search.
  apply calm_bind; [apply calm_unlessSet_both|]. intros _. calm_steps.
Qed.

Lemma serve_calm env now (r : Request) (w : World) :
  recreates r = false -> initialized w ->
  initialized (serve env now r w) /\ dropped (serve env now r w) = dropped w.
Proof.
  intros Hr Hw. destruct r; cbn [serve]; try discriminate.
  - apply calm_searchDocumentsWithContext, Hw.
  - apply calm_processDocumentChunks, Hw.
  - apply calm_processVideoTranscriptChunks, Hw.
  - apply calm_searchVideoTranscripts, Hw.
  - apply calm_searchCombinedForVideoQA, Hw.
  - apply calm_deleteVectorsByDocumentId, Hw.
  - apply calm_deleteVectorsByUserSession, Hw.
  - apply calm_cleanupExpiredTemporaryVectors, Hw.
  - apply calm_deleteAllVectors, Hw.
Qed.

Lemma serveAll_calm env now (rs : list Request) :
  Forall (fun r => recreates r = false) rs ->
  forall w, initialized w ->
            initialized (serveAll env now rs w)
            /\ dropped (serveAll env now rs w) = dropped w.
Proof.
  induction 1 as [|r rs Hr _ IH]; intros w Hw; cbn [serveAll].
  - tauto.
  - destruct (serve_calm env now r w Hr Hw) as [Hi Hd].
    destruct (IH _ Hi) as [Hi' Hd']. split; [exact Hi'|congruence].
Qed.

Lemma serve_deleteVideo env now videoId (w : World) :
  serve env now (DeleteVideo videoId) w
  = match deleteVideoVectors env now videoId w with
    | (Ok _, w1) =>
        setVideos (filter (fun v => negb (v =? videoId)) (videos w1)) w1
    | (Thrown, w1) => w1
    end.
Proof.
  cbn [serve]. unfold deleteVideo. rewrite snd_bind.
  destruct (deleteVideoVectors env now videoId w) as [[n|] w1]; reflexivity.
Qed.

(** The maintenance operation drops the transcripts table with all its
    rows whenever the store answers its first call. *)
Lemma cleanupAllVideoVectors_drops env now (w : World) rows :
  initialized w -> db w = true -> video_transcripts w = Some rows ->
  hd false (faults w) = false ->
  exists n : nat,
    n = List.length rows
    /\ dropped (serve env now CleanupAllVideo w)
       = EvDropTable VideoTranscripts n :: dropped w.
Proof.
  intros [Ht Hv] Hdb Hrows Hf. exists (List.length rows).
  split; [reflexivity|].
  cbn [serve]. unfold cleanupAllVideoVectors.
  rewrite (bind_unlessSet_set _ _ _ _ Hv).
  unfold tryCatch, bind, dropTable, bind, useDb, storeCall,
    VideoTable.createTable, createTable, bind, useDb, storeCall.
  rewrite Hdb.
  destruct w as [docs vt d t vtb vs fs tr].
  cbn in Ht, Hv, Hdb, Hrows, Hf. subst.
  destruct fs as [|[|] [|[|] fs]]; try discriminate; reflexivity.
Qed.




(** ** Start-up *)

Lemma run_initialize (now : Z) (w : World) :
  faults w = [] ->
  exists w' : World,
    initialize now w = (Ok tt, w')
    /\ documents w' = Some [initDoc now]
    /\ video_transcripts w' = Some [initVideo now]
    /\ initialized w' /\ db w' = true
    /\ faults w' = [] /\ videos w' = videos w.
Proof.
  intros Hf. destruct w as [docs vt d t vtb vs fs tr].
  cbn in Hf. subst fs.
  destruct docs as [docs|], vt as [vt|];
    eexists; (split; [vm_compute; reflexivity|]);
    repeat split; reflexivity.
Qed.

(** With a store that answers, [initialize()] succeeds from any state of
    the process and of the store.  It leaves both tables existing, with
    the three fields of the service set; whatever the tables held is
    gone, and each holds the row it was created with: the delete of
    ["text" = 'init'] that follows the creation compares two different
    strings and removes no row. *)
Theorem initialize_leaves_init_rows :
  forall (now : Z) (w : World),
    faults w = [] ->
    exists w' : World,
      initialize now w = (Ok tt, w')
      /\ documents w' = Some [initDoc now]
      /\ video_transcripts w' = Some [initVideo now]
      /\ initialized w' /\ db w' = true
      /\ faults w' = [] /\ videos w' = videos w.
Proof.
  intros now w Hf. destruct w as [docs vt d t vtb vs fs tr].
  cbn in Hf. subst fs.
  destruct docs as [docs|], vt as [vt|];
    eexists; (split; [vm_compute; reflexivity|]);
    repeat split; reflexivity.
Qed.

(** The theorem on a process that starts over the tables of an earlier
    run. *)
Lemma initialize_leaves_init_rows_witness :
  faults (cold [permanentRow] [transcriptRow 5 2] []) = []
  /\ exists w' : World,
      initialize 2000 (cold [permanentRow] [transcriptRow 5 2] [])
      = (Ok tt, w')
      /\ documents w' = Some [initDoc 2000]
      /\ video_transcripts w' = Some [initVideo 2000]
      /\ initialized w' /\ db w' = true
      /\ faults w' = []
      /\ videos w' = videos (cold [permanentRow] [transcriptRow 5 2] []).
Proof.
  split; [reflexivity|].
  apply (initialize_leaves_init_rows 2000
           (cold [permanentRow] [transcriptRow 5 2] [])).
  reflexivity.
Defined.

(** ** Running the store with no fault *)

Lemma run_storeCall (w : World) : faults w = [] -> storeCall w = (Ok tt, w).
Proof. intro H. unfold storeCall. rewrite H. reflexivity. Qed.

Section RunTable.
Context {R : Type}.
Variable get : World -> option (list R).
Variable set : option (list R) -> World -> World.
Variable handle : World -> bool.
Variable vec : R -> Vec.
Variable env : Env.
Variable w : World.
Variable rows : list R.
Hypothesis handle_set : handle w = true.
Hypothesis table_rows : get w = Some rows.
Hypothesis no_fault : faults w = [].

Lemma run_rowsOf : rowsOf get handle w = (Ok rows, w).
Proof. unfold rowsOf. rewrite handle_set, table_rows. reflexivity. Qed.

Lemma run_search q n :
  0 < n ->
  search get handle vec env q None n w
  = (Ok (firstn (Z.to_nat n) (nearest vec env q rows)), w).
Proof.
  intro Hn. unfold search, bind.
  rewrite (run_storeCall w no_fault), run_rowsOf.
  destruct (Z.leb_spec n 0); [lia|reflexivity].
Qed.

Lemma run_add new :
  add get set handle new w = (Ok tt, set (Some (rows ++ new)) w).
Proof.
  unfold add, bind. rewrite (run_storeCall w no_fault), run_rowsOf.
  reflexivity.
Qed.

Lemma run_delete p f :
  plan vec p = Some f ->
  delete get set handle vec p w
  = (Ok tt, set (Some (filter (fun r => negb (f r)) rows)) w).
Proof.
  intro Hp. unfold delete, bind.
  rewrite (run_storeCall w no_fault), run_rowsOf, Hp.
  reflexivity.
Qed.

Lemma run_countRows :
  countRows get handle w = (Ok (Z.of_nat (List.length rows)), w).
Proof.
  unfold countRows, bind. rewrite (run_storeCall w no_fault), run_rowsOf.
  reflexivity.
Qed.

End RunTable.

(** A delete by predicate followed by the two counts, as the three
    [delete...] methods of the documents table do it, for a predicate
    that the store plans. *)
Lemma run_counted_delete (p : Predicate) (f : Doc.row -> bool) (w : World)
      (rows : list Doc.row) :
  plan Doc.vector p = Some f ->
  table w = true -> documents w = Some rows -> faults w = [] ->
  tryCatch
    (beforeCount <- DocTable.countRows ;;
     DocTable.delete p ;;
     afterCount <- DocTable.countRows ;;
     ret (beforeCount - afterCount))
    throw w
  = (Ok (Z.of_nat (List.length (filter f rows))),
     setDocuments (Some (filter (fun r => negb (f r)) rows)) w).
Proof.
  intros Hp Ht Hd Hf.
  unfold tryCatch, bind, DocTable.countRows, DocTable.delete.
  rewrite (run_countRows documents table w rows Ht Hd Hf).
  rewrite (run_delete documents setDocuments table Doc.vector w rows
                      Ht Hd Hf p f Hp).
  rewrite (run_countRows documents table
             (setDocuments (Some (filter (fun r => negb (f r)) rows)) w)
             (filter (fun r => negb (f r)) rows) Ht eq_refl Hf).
  unfold ret. f_equal. f_equal.
  pose proof (filter_length f rows). lia.
Qed.

(** A number in decimal begins with a digit or with the minus sign. *)
Lemma decimal_head (z : Z) :
  exists (c : N) (rest : JS.str),
    JS.decimal z = c :: rest /\ (c = 45 \/ 48 <= c <= 57)%N.
Proof.
  unfold JS.decimal. destruct (Z.to_int z) as [u|u]; cbn.
  - destruct u; cbn; eexists; eexists; (split; [reflexivity|]); right;
      cbv; split; discriminate.
  - eexists; eexists; (split; [reflexivity|]). left. reflexivity.
Qed.

(** The name of a column is not a number in decimal. *)
Lemma name_is_no_number (c : N) (name : JS.str) (z : Z) :
  (57 < c)%N -> JS.eqb (c :: name) (JS.decimal z) = false.
Proof.
  intro Hc. unfold JS.eqb.
  destruct (list_eq_dec N.eq_dec (c :: name) (JS.decimal z)) as [E|E];
    [|reflexivity].
  destruct (decimal_head z) as (d & rest & Hd & Hrange).
  rewrite Hd in E. injection E as -> _. lia.
Qed.

Lemma filter_all {A} (f : A -> bool) (l : list A) :
  (forall x, f x = true) -> filter f l = l.
Proof.
  intro H. induction l as [|x l IH]; [reflexivity|].
  cbn [filter]. rewrite H, IH. reflexivity.
Qed.

(** A delete whose predicate holds of no row changes no table, whatever
    the store answers. *)
Lemma idle_delete_keeps (p : Predicate) (f : Doc.row -> bool) (w : World) :
  plan Doc.vector p = Some f -> (forall r, f r = false) ->
  documents (snd (DocTable.delete p w)) = documents w
  /\ video_transcripts (snd (DocTable.delete p w)) = video_transcripts w
  /\ table (snd (DocTable.delete p w)) = table w.
Proof.
  intros Hp Hf.
  unfold DocTable.delete, delete, bind, storeCall, rowsOf, modify.
  rewrite Hp.
  destruct w as [docs vt d t vtb vs fs tr]; cbn.
  destruct fs as [|[|] fs]; cbn; destruct t; cbn;
    destruct docs as [rows|]; cbn; repeat split;
    rewrite filter_all; try reflexivity;
    intro r; rewrite Hf; reflexivity.
Qed.

Lemma counted_idle_delete (p : Predicate) (f : Doc.row -> bool) (w : World) :
  plan Doc.vector p = Some f -> (forall r, f r = false) ->
  let w' := snd (tryCatch
                   (beforeCount <- DocTable.countRows ;;
                    DocTable.delete p ;;
                    afterCount <- DocTable.countRows ;;
                    ret (beforeCount - afterCount))
                   throw w) in
  documents w' = documents w
  /\ video_transcripts w' = video_transcripts w.
Proof.
  intros Hp Hf w'. subst w'. unfold tryCatch, bind, throw, ret.
  destruct (countRows_keeps w) as (Hd & Hv & Ht).
  destruct (DocTable.countRows w) as [[n|] w1]; cbn [fst snd] in *;
    [|auto].
  destruct (idle_delete_keeps p f w1 Hp Hf) as (Hd1 & Hv1 & Ht1).
  destruct (DocTable.delete p w1) as [[[]|] w2]; cbn [fst snd] in *;
    [|split; congruence].
  destruct (countRows_keeps w2) as (Hd2 & Hv2 & _).
  destruct (DocTable.countRows w2) as [[m|] w3]; cbn [fst snd] in *;
    split; congruence.
Qed.

(** The rows a returning document search ranks are rows of the documents
    table, which the search leaves as it is. *)
Lemma searchDocumentsWithContext_rows env now query subjectId userId
      sessionId topK (w w' : World) docs :
  table w = true ->
  searchDocumentsWithContext env now query subjectId userId sessionId topK w
  = (Ok docs, w') ->
  exists rows,
    documents w = Some rows /\ documents w' = Some rows
    /\ forall x, In x docs -> In (DocHit.row (Scored.doc x)) rows.
Proof.
  intros Ht. unfold searchDocumentsWithContext.
  rewrite (bind_unlessSet_set _ _ _ _ Ht).
  unfold tryCatch, bind, embed, DocTable.search, search, bind, storeCall,
    rowsOf, ret, throw.
  intro H.
  destruct (getEmbedding env query) as [v|]; [|discriminate].
  cbn [faults emit table documents] in H.
  destruct (faults w) as [|[|] fs]; try discriminate;
    cbn [table documents setFaults emit] in H; rewrite Ht in H;
    destruct (documents w) as [rows|] eqn:Hd; try discriminate;
    destruct (orDefault 10 topK * 3 <=? 0); cbv beta in H; try discriminate;
    injection H as <- <-; exists rows; (split; [reflexivity|]);
    (split; [exact Hd|]); intros x Hx;
    destruct (rankDocuments_source now subjectId userId sessionId
                (orDefault 10 topK)
                (List.map (fun h => DocHit.mk (fst h) (snd h))
                          (firstn (Z.to_nat (orDefault 10 topK * 3))
                                  (nearest Doc.vector env v rows))))
      as (kept & Hkept & _ & Heq);
    rewrite Heq in Hx; apply slice0_In in Hx; apply sort_In in Hx;
    assert (Hin : In (Scored.doc x) kept)
      by (destruct userId, sessionId;
          try (apply fallbackResults_entry in Hx; tauto);
          apply scoredResults_entry in Hx; tauto);
    apply Hkept in Hin; apply in_map_iff in Hin;
    destruct Hin as (h & <- & Hh); cbn [DocHit.row];
    apply (fetched_In Doc.vector env v
                      (Z.to_nat (orDefault 10 topK * 3)) rows);
    apply in_map; exact Hh.
Qed.

(** ** Deletion from the documents table *)

Lemma deleteVectorsByDocumentId_idle :
  forall (now documentId : Z) (w : World),
    table w = true ->
    documents (snd (deleteVectorsByDocumentId now documentId w))
    = documents w
    /\ video_transcripts (snd (deleteVectorsByDocumentId now documentId w))
       = video_transcripts w
    /\ (forall rows : list Doc.row,
           documents w = Some rows -> faults w = [] ->
           deleteVectorsByDocumentId now documentId w = (Ok 0, w)).
Proof.
  intros now documentId w Ht.
  set (f := fun _ : Doc.row =>
              JS.eqb (JS.lit "documentId") (JS.decimal documentId)).
  assert (Hp : plan Doc.vector
                    (IsEqual (Text (JS.lit "documentId")) (Number documentId))
               = Some f)
    by reflexivity.
  assert (Hnone : forall r : Doc.row, f r = false).
  { intro r. unfold f. apply name_is_no_number. reflexivity. }
  unfold deleteVectorsByDocumentId.
  rewrite (bind_unlessSet_set _ _ _ _ Ht).
  pose proof (counted_idle_delete _ f w Hp Hnone) as [Hd Hv].
  split; [exact Hd|]. split; [exact Hv|].
  intros rows Hrows Hf.
  rewrite (run_counted_delete _ f w rows Hp Ht Hrows Hf).
  rewrite (filter_none f rows) by (intros r _; apply Hnone).
  rewrite (filter_all (fun r => negb (f r)) rows)
    by (intro r; rewrite Hnone; reflexivity).
  cbn [List.length Z.of_nat]. f_equal.
  destruct w as [docs vt d t vtb vs fs tr]. cbn in Hrows. subst docs.
  reflexivity.
Qed.


(** Deleting the vectors of a document removes no row.  The predicate
    sent, ["documentId" = N], compares the string [documentId] with a
    number, which holds of no row: on a service whose handle is set,
    both tables are afterwards as before, whatever the store answers;
    with a store that answers, the method returns 0 and leaves the whole
    state as it was, so that a later search still finds the chunks of
    the document. *)
Theorem document_deletion_removes_nothing :
  forall (now documentId : Z) (w : World),
    table w = true ->
    documents (snd (deleteVectorsByDocumentId now documentId w))
    = documents w
    /\ video_transcripts (snd (deleteVectorsByDocumentId now documentId w))
       = video_transcripts w
    /\ (forall rows : list Doc.row,
           documents w = Some rows -> faults w = [] ->
           deleteVectorsByDocumentId now documentId w = (Ok 0, w)).
Proof.
  intros now documentId w Ht.
  apply deleteVectorsByDocumentId_idle. exact Ht.
Qed.

(** Scenario D of the specification: the document 7 is deleted, the call
    reports no row deleted, and the next search returns its chunk. *)
Lemma document_deletion_removes_nothing_witness :
  table (running [permanentRow; ownedRow] []) = true
  /\ deleteVectorsByDocumentId 2000 7 (running [permanentRow; ownedRow] [])
     = (Ok 0, running [permanentRow; ownedRow] [])
  /\ option_map
       (List.map (fun x => Doc.documentId (DocHit.row (Scored.doc x))))
       (returned
          (fst (searchDocumentsWithContext demoEnv 3000 (JS.lit "abcd") None
                  None None (Some 1)
                  (snd (deleteVectorsByDocumentId 2000 7
                          (running [permanentRow; ownedRow] []))))))
     = Some [7].
Proof.
  split; [reflexivity|].
  pose proof (proj2 (proj2 (document_deletion_removes_nothing 2000 7
                              (running [permanentRow; ownedRow] []) eq_refl))
                    [permanentRow; ownedRow] eq_refl eq_refl) as Hrun.
  split; [exact Hrun|].
  rewrite Hrun. vm_compute. reflexivity.
Defined.

Lemma deleteVectorsByUserSession_throws (now userId sessionId : Z)
      (w : World) :
  table w = true ->
  exists w' : World,
    deleteVectorsByUserSession now userId sessionId w = (Thrown, w')
    /\ documents w' = documents w
    /\ video_transcripts w' = video_transcripts w
    /\ table w' = table w.
Proof.
  intro Ht. unfold deleteVectorsByUserSession.
  rewrite (bind_unlessSet_set _ _ _ _ Ht).
  apply (counted_rejected_delete
           (Both (Both (IsEqual (Text (JS.lit "userId")) (Number userId))
                       (IsEqual (Text (JS.lit "sessionId"))
                                (Number sessionId)))
                 (IsEqual (Text (JS.lit "isTemporary")) (Boolean true)))
           w eq_refl).
Qed.

(** Deleting the vectors of a session always fails.  The predicate sent
    ends with ["isTemporary" = true], a comparison of a string with a
    boolean that the store rejects: on a service whose handle is set the
    method throws, at every call and whatever the store answers to the
    count, and both tables are as before. *)
Theorem session_deletion_always_throws :
  forall (now userId sessionId : Z) (w : World),
    table w = true ->
    fst (deleteVectorsByUserSession now userId sessionId w) = Thrown
    /\ documents (snd (deleteVectorsByUserSession now userId sessionId w))
       = documents w
    /\ video_transcripts
         (snd (deleteVectorsByUserSession now userId sessionId w))
       = video_transcripts w.
Proof.
  intros now userId sessionId w Ht.
  destruct (deleteVectorsByUserSession_throws now userId sessionId w Ht)
    as (w' & Hrun & Hd & Hv & _).
  rewrite Hrun. auto.
Qed.

(** The theorem on the temporary row of user 9 in session 100: the row
    stays. *)
Lemma session_deletion_always_throws_witness :
  table (running [ownedRow; permanentRow] []) = true
  /\ fst (deleteVectorsByUserSession 2000 9 100
            (running [ownedRow; permanentRow] [])) = Thrown
  /\ documents (snd (deleteVectorsByUserSession 2000 9 100
                       (running [ownedRow; permanentRow] [])))
     = Some [ownedRow; permanentRow].
Proof.
  split; [reflexivity|].
  destruct (session_deletion_always_throws 2000 9 100
              (running [ownedRow; permanentRow] []) eq_refl)
    as (Hr & Hd & _).
  split; [exact Hr|exact Hd].
Defined.

(** ** What ingestion writes *)

Lemma mapi_length {A B} (f : Z -> A -> B) (i : Z) (l : list A) :
  List.length (mapi f i l) = List.length l.
Proof.
  revert i. induction l as [|x l IH]; intro i; cbn; [reflexivity|].
  rewrite IH. reflexivity.
Qed.

Lemma mapi_nth_error {A B} (f : Z -> A -> B) (l : list A) :
  forall (i : Z) (k : nat),
    nth_error (mapi f i l) k
    = option_map (f (i + Z.of_nat k)) (nth_error l k).
Proof.
  induction l as [|x l IH]; intros i k.
  - destruct k; reflexivity.
  - destruct k as [|k]; cbn [mapi nth_error option_map].
    + rewrite Z.add_0_r. reflexivity.
    + rewrite IH. do 2 f_equal. lia.
Qed.

Lemma mapi_In {A B} (f : Z -> A -> B) (l : list A) (i : Z) (y : B) :
  In y (mapi f i l) -> exists j x, In x l /\ y = f j x.
Proof.
  revert i. induction l as [|x l IH]; intros i Hy; [destruct Hy|].
  destruct Hy as [<-|Hy].
  - exists i, x. split; [left; reflexivity|reflexivity].
  - destruct (IH _ Hy) as (j & x' & Hx' & ->).
    exists j, x'. split; [right; exact Hx'|reflexivity].
Qed.

Lemma allSome_spec {A B} (f : A -> option B) (l : list A) (vs : list B) :
  allSome (List.map f l) = Some vs ->
  List.length vs = List.length l
  /\ forall k x, nth_error l k = Some x ->
                 exists v, f x = Some v /\ nth_error vs k = Some v.
Proof.
  revert vs. induction l as [|a l IH]; intros vs H; cbn in H.
  - injection H as <-. split; [reflexivity|].
    intros [|k] x Hx; discriminate.
  - destruct (f a) as [b|] eqn:Ea; [|discriminate].
    destruct (allSome (List.map f l)) as [r|] eqn:Er; [|discriminate].
    injection H as <-. destruct (IH r eq_refl) as [Hlen Hnth].
    split; [cbn; congruence|].
    intros [|k] x Hx; cbn in Hx.
    + injection Hx as <-. exists b. split; [exact Ea|reflexivity].
    + apply Hnth. exact Hx.
Qed.

Lemma allSome_answers {A B} (f : A -> option B) (l : list A) :
  (forall x, In x l -> f x <> None) ->
  exists vs, allSome (List.map f l) = Some vs.
Proof.
  induction l as [|a l IH]; intro H; cbn.
  - eexists. reflexivity.
  - destruct (f a) as [b|] eqn:Ea;
      [|exfalso; apply (H a); [left; reflexivity|exact Ea]].
    destruct IH as (vs & ->); [intros x Hx; apply H; right; exact Hx|].
    eexists. reflexivity.
Qed.

Lemma allSome_fails {A B} (f : A -> option B) (l : list A) (x : A) :
  In x l -> f x = None -> allSome (List.map f l) = None.
Proof.
  induction l as [|a l IH]; intros Hin Hx; [destruct Hin|]. cbn.
  destruct Hin as [->|Hin].
  - rewrite Hx. reflexivity.
  - destruct (f a); [|reflexivity]. rewrite (IH Hin Hx). reflexivity.
Qed.

Lemma sameButTrace_fold_emit (chunks : list JS.str) (w : World) :
  sameButTrace w (fold_left (fun w c => emit (EvEmbedding c) w) chunks w).
Proof.
  revert w. induction chunks as [|c chunks IH]; intro w; cbn [fold_left].
  - repeat split.
  - destruct (IH (emit (EvEmbedding c) w)) as (H1 & H2 & H3 & H4 & H5 & H6 & H7).
    repeat split; assumption.
Qed.

(** The run of a successful document ingestion. *)
Lemma run_processDocumentChunks env now documentId subjectId
      (chunks : list JS.str) userId sessionId isTemporary (w : World)
      (rows : list Doc.row) (vectors : list Vec) :
  table w = true -> documents w = Some rows -> faults w = [] ->
  chunks <> [] ->
  allSome (List.map (getEmbedding env) chunks) = Some vectors ->
  processDocumentChunks env now documentId subjectId chunks userId sessionId
                        isTemporary w
  = (Ok tt,
     setDocuments
       (Some (rows ++ documentRecords now documentId subjectId userId
                                      sessionId isTemporary chunks vectors))
       (fold_left (fun w c => emit (EvEmbedding c) w) chunks w)).
Proof.
  intros Ht Hd Hf Hne Hall. unfold processDocumentChunks.
  rewrite (bind_unlessSet_set _ _ _ _ Ht).
  destruct chunks as [|c chunks]; [contradiction|]. cbn [List.length Nat.eqb].
  set (cs := c :: chunks) in *.
  destruct (sameButTrace_fold_emit cs w) as (H1 & _ & _ & H4 & _ & _ & H7).
  unfold tryCatch, bind at 1, embedAll. rewrite Hall.
  unfold bind, DocTable.add.
  rewrite (run_add documents setDocuments table _ rows);
    [|congruence|congruence|congruence].
  destruct isTemporary; cbn [negb when]; [reflexivity|].
  unfold storageCall. rewrite run_storeCall; [reflexivity|].
  cbn [faults setDocuments]. congruence.
Qed.

Lemma documentRecords_nth now documentId subjectId userId sessionId
      isTemporary (chunks : list JS.str) (vectors : list Vec) env :
  allSome (List.map (getEmbedding env) chunks) = Some vectors ->
  List.length (documentRecords now documentId subjectId userId sessionId
                               isTemporary chunks vectors)
  = List.length chunks
  /\ forall (k : nat) (chunk : JS.str),
      nth_error chunks k = Some chunk ->
      exists v,
        getEmbedding env chunk = Some v
        /\ nth_error (documentRecords now documentId subjectId userId
                                      sessionId isTemporary chunks vectors) k
           = Some (Doc.mk v chunk documentId (Z.of_nat k) subjectId
                          (JS.orNum userId 0) (JS.orNum sessionId 0)
                          isTemporary now).
Proof.
  intro Hall. destruct (allSome_spec _ _ _ Hall) as [Hlen Hnth].
  unfold documentRecords. split.
  - rewrite mapi_length, length_combine, Hlen. apply Nat.min_id.
  - intros k chunk Hk. destruct (Hnth k chunk Hk) as (v & Hv & Hvk).
    exists v. split; [exact Hv|].
    rewrite mapi_nth_error.
    assert (Hc : nth_error (combine chunks vectors) k = Some (chunk, v)).
    { clear - Hk Hvk. revert vectors k Hk Hvk.
      induction chunks as [|c chunks IH]; intros [|u vs] [|k] Hk Hvk;
        cbn in *; try discriminate.
      - congruence.
      - apply IH; assumption. }
    rewrite Hc. reflexivity.
Qed.

Lemma documentRecords_ids now documentId subjectId userId sessionId
      isTemporary (chunks : list JS.str) (vectors : list Vec) (r : Doc.row) :
  In r (documentRecords now documentId subjectId userId sessionId isTemporary
                        chunks vectors) ->
  Doc.documentId r = documentId.
Proof.
  unfold documentRecords. intro H. apply mapi_In in H.
  destruct H as (j & x & _ & ->). reflexivity.
Qed.

(** A document ingestion that the provider and the store answer appends
    one row per chunk, in the order of the chunks: the chunk at position
    k becomes the row with that text, its embedding, [chunkIndex] k, the
    owner given (0 where none is) and the time of the call.  The rows
    that were there stay in front, untouched. *)
Theorem document_ingestion_appends_rows :
  forall (env : Env) (now documentId subjectId : Z) (chunks : list JS.str)
         (userId sessionId : option Z) (isTemporary : bool) (w : World)
         (rows : list Doc.row),
    table w = true -> documents w = Some rows -> faults w = [] ->
    chunks <> [] -> answersAll env chunks ->
    exists (w' : World) (added : list Doc.row),
      processDocumentChunks env now documentId subjectId chunks userId
                            sessionId isTemporary w = (Ok tt, w')
      /\ documents w' = Some (rows ++ added)
      /\ video_transcripts w' = video_transcripts w
      /\ List.length added = List.length chunks
      /\ forall (k : nat) (chunk : JS.str),
          nth_error chunks k = Some chunk ->
          exists v,
            getEmbedding env chunk = Some v
            /\ nth_error added k
               = Some (Doc.mk v chunk documentId (Z.of_nat k) subjectId
                              (JS.orNum userId 0) (JS.orNum sessionId 0)
                              isTemporary now).
Proof.
  intros env now documentId subjectId chunks userId sessionId isTemporary w
         rows Ht Hd Hf Hne Hans.
  destruct (allSome_answers (getEmbedding env) chunks Hans) as (vs & Hall).
  destruct (documentRecords_nth now documentId subjectId userId sessionId
              isTemporary chunks vs env Hall) as [Hlen Hnth].
  eexists. eexists. split; [|split; [|split; [|split]]].
  - apply run_processDocumentChunks; eassumption.
  - reflexivity.
  - cbn [video_transcripts setDocuments].
    apply (sameButTrace_fold_emit chunks w).
  - exact Hlen.
  - exact Hnth.
Qed.

(** Scenario A of the specification, with ASCII texts: three chunks of
    permanent document 7, subject 2. *)
Lemma document_ingestion_appends_rows_witness :
  answersAll demoEnv [JS.lit "def"; JS.lit "example"; JS.lit "exercises"]
  /\ exists w' : World,
      processDocumentChunks demoEnv 2000 7 2
        [JS.lit "def"; JS.lit "example"; JS.lit "exercises"] None None false
        (running [ownedRow] []) = (Ok tt, w')
      /\ documents w'
         = Some [ownedRow;
                 Doc.mk [3%Q] (JS.lit "def") 7 0 2 0 0 false 2000;
                 Doc.mk [7%Q] (JS.lit "example") 7 1 2 0 0 false 2000;
                 Doc.mk [9%Q] (JS.lit "exercises") 7 2 2 0 0 false 2000].
Proof.
  assert (Hans : answersAll demoEnv
                   [JS.lit "def"; JS.lit "example"; JS.lit "exercises"])
    by (intros c _; discriminate).
  split; [exact Hans|].
  destruct (document_ingestion_appends_rows demoEnv 2000 7 2
              [JS.lit "def"; JS.lit "example"; JS.lit "exercises"]
              None None false (running [ownedRow] []) [ownedRow]
              eq_refl eq_refl eq_refl ltac:(discriminate) Hans)
    as (w' & added & Hrun & _).
  exists w'. split; [exact Hrun|].
  vm_compute in Hrun. injection Hrun as <-. reflexivity.
Defined.

(** The retry path: deleting the rows of a document and ingesting its
    chunks again.  With a store and a provider that answer, the delete
    reports no row and changes nothing, and the ingestion appends: the
    table then holds every row it held, the earlier rows of the document
    among them, followed by the new rows, so that the document has its
    earlier rows and the new ones. *)
Theorem reingestion_duplicates_rows :
  forall (env : Env) (now documentId subjectId : Z) (chunks : list JS.str)
         (userId sessionId : option Z) (isTemporary : bool) (w : World)
         (rows : list Doc.row),
    table w = true -> documents w = Some rows -> faults w = [] ->
    chunks <> [] -> answersAll env chunks ->
    exists (w2 : World) (vectors : list Vec),
      deleteVectorsByDocumentId now documentId w = (Ok 0, w)
      /\ processDocumentChunks env now documentId subjectId chunks userId
                               sessionId isTemporary w = (Ok tt, w2)
      /\ allSome (List.map (getEmbedding env) chunks) = Some vectors
      /\ documents w2
         = Some (rows ++ documentRecords now documentId subjectId userId
                                         sessionId isTemporary chunks vectors)
      /\ filter (fun r => Doc.documentId r =? documentId)
                (rows ++ documentRecords now documentId subjectId userId
                                         sessionId isTemporary chunks vectors)
         = filter (fun r => Doc.documentId r =? documentId) rows
           ++ documentRecords now documentId subjectId userId sessionId
                              isTemporary chunks vectors.
Proof.
  intros env now documentId subjectId chunks userId sessionId isTemporary w
         rows Ht Hd Hf Hne Hans.
  destruct (allSome_answers (getEmbedding env) chunks Hans) as (vs & Hall).
  set (recs := documentRecords now documentId subjectId userId sessionId
                               isTemporary chunks vs).
  assert (Hrecs : forall r, In r recs ->
                            (Doc.documentId r =? documentId) = true).
  { intros r Hr. apply Z.eqb_eq. eapply documentRecords_ids. exact Hr. }
  eexists. exists vs.
  split; [|split; [|split; [|split]]].
  - apply (proj2 (proj2 (deleteVectorsByDocumentId_idle now documentId w Ht))
                 rows Hd Hf).
  - apply run_processDocumentChunks; try eassumption; reflexivity.
  - exact Hall.
  - reflexivity.
  - fold recs. rewrite filter_app. f_equal.
    clear - Hrecs. induction recs as [|r recs IH]; [reflexivity|].
    cbn [filter]. rewrite (Hrecs r (or_introl eq_refl)).
    f_equal. apply IH. intros x Hx. apply Hrecs. right. exact Hx.
Qed.

(** The theorem on a table that holds a leftover row of document 7 and a
    row of document 50: the leftover row stays, ahead of the two new
    rows. *)
Lemma reingestion_duplicates_rows_witness :
  answersAll demoEnv [JS.lit "def"; JS.lit "example"]
  /\ exists w2 : World,
      deleteVectorsByDocumentId 2000 7 (running [permanentRow; ownedRow] [])
      = (Ok 0, running [permanentRow; ownedRow] [])
      /\ processDocumentChunks demoEnv 2000 7 2
           [JS.lit "def"; JS.lit "example"] None None false
           (running [permanentRow; ownedRow] []) = (Ok tt, w2)
      /\ documents w2
         = Some [permanentRow; ownedRow;
                 Doc.mk [3%Q] (JS.lit "def") 7 0 2 0 0 false 2000;
                 Doc.mk [7%Q] (JS.lit "example") 7 1 2 0 0 false 2000].
Proof.
  assert (Hans : answersAll demoEnv [JS.lit "def"; JS.lit "example"])
    by (intros c _; discriminate).
  split; [exact Hans|].
  destruct (reingestion_duplicates_rows demoEnv 2000 7 2
              [JS.lit "def"; JS.lit "example"] None None false
              (running [permanentRow; ownedRow] []) [permanentRow; ownedRow]
              eq_refl eq_refl eq_refl ltac:(discriminate) Hans)
    as (w2 & vs & Hdel & Hing & _).
  exists w2. split; [exact Hdel|]. split; [exact Hing|].
  vm_compute in Hing. injection Hing as <-. reflexivity.
Defined.

Lemma sameButTrace_refl (w : World) : sameButTrace w w.
Proof. repeat split. Qed.

Lemma sameButTrace_trans (w1 w2 w3 : World) :
  sameButTrace w1 w2 -> sameButTrace w2 w3 -> sameButTrace w1 w3.
Proof.
  unfold sameButTrace. intros H1 H2.
  decompose [and] H1. decompose [and] H2. repeat split; congruence.
Qed.

Lemma sameButTrace_emit (e : Event) (w : World) : sameButTrace w (emit e w).
Proof. repeat split. Qed.

(** If the provider fails for one chunk of a document, the ingestion
    throws after every chunk has been sent to the provider, and nothing
    has been written: both tables are as before. *)
Theorem document_ingestion_all_or_nothing :
  forall (env : Env) (now documentId subjectId : Z) (chunks : list JS.str)
         (userId sessionId : option Z) (isTemporary : bool) (w : World)
         (c : JS.str),
    table w = true -> In c chunks -> getEmbedding env c = None ->
    exists w' : World,
      processDocumentChunks env now documentId subjectId chunks userId
                            sessionId isTemporary w = (Thrown, w')
      /\ sameButTrace w w'
      /\ embeddings w' = rev (List.map EvEmbedding chunks) ++ embeddings w.
Proof.
  intros env now documentId subjectId chunks userId sessionId isTemporary w c
         Ht Hc Hnone.
  exists (fold_left (fun w c => emit (EvEmbedding c) w) chunks w).
  split; [|split].
  - unfold processDocumentChunks.
    rewrite (bind_unlessSet_set _ _ _ _ Ht).
    destruct chunks as [|c0 chunks]; [destruct Hc|].
    cbn [List.length Nat.eqb].
    unfold tryCatch, bind, embedAll, throw.
    rewrite (allSome_fails _ _ c Hc Hnone). reflexivity.
  - apply sameButTrace_fold_emit.
  - apply embeddings_fold_emit.
Qed.

(** The theorem with a provider that refuses texts of more than five
    code units. *)
Lemma document_ingestion_all_or_nothing_witness :
  exists w' : World,
    processDocumentChunks
      (mkEnv (fun s => if (5 <? List.length s)%nat then None
                       else Some [inject_Z (Z.of_nat (List.length s))])
             sqDist false)
      2000 7 2 [JS.lit "def"; JS.lit "example"] None None false
      (running [ownedRow] [])
    = (Thrown, w')
    /\ documents w' = Some [ownedRow]
    /\ embeddings w' = [EvEmbedding (JS.lit "example");
                        EvEmbedding (JS.lit "def")].
Proof.
  destruct (document_ingestion_all_or_nothing
              (mkEnv (fun s => if (5 <? List.length s)%nat then None
                               else Some [inject_Z (Z.of_nat (List.length s))])
                     sqDist false)
              2000 7 2 [JS.lit "def"; JS.lit "example"] None None false
              (running [ownedRow] []) (JS.lit "example")
              eq_refl (or_intror (or_introl eq_refl)) eq_refl)
    as (w' & Hrun & Hsame & Hemb).
  exists w'. split; [exact Hrun|]. split.
  - destruct Hsame as [Hd _]. exact Hd.
  - exact Hemb.
Defined.

Lemma transcriptVectors_sameButTrace env now videoId subjectId
      (chunks : list Chunk.t) :
  forall vectorData w,
    sameButTrace w (snd (transcriptVectors env now videoId subjectId chunks
                                           vectorData w)).
Proof.
  induction chunks as [|c chunks IH]; intros vectorData w;
    cbn [transcriptVectors].
  - apply sameButTrace_refl.
  - destruct (nonEmptyChunk c); [|apply IH].
    rewrite snd_bind. unfold embed.
    destruct (getEmbedding env (Chunk.text c)) as [v|].
    + eapply sameButTrace_trans; [apply sameButTrace_emit|apply IH].
    + apply sameButTrace_emit.
Qed.

Lemma transcriptVectors_throws env now videoId subjectId
      (chunks : list Chunk.t) (c : Chunk.t) :
  In c chunks -> nonEmptyChunk c = true ->
  getEmbedding env (Chunk.text c) = None ->
  forall vectorData w,
    fst (transcriptVectors env now videoId subjectId chunks vectorData w)
    = Thrown.
Proof.
  intros Hin Hne Hnone.
  induction chunks as [|c0 chunks IH]; intros vectorData w; [destruct Hin|].
  cbn [transcriptVectors]. destruct Hin as [->|Hin].
  - rewrite Hne. unfold bind, embed. rewrite Hnone. reflexivity.
  - destruct (nonEmptyChunk c0); [|apply IH; exact Hin].
    unfold bind, embed.
    destruct (getEmbedding env (Chunk.text c0)); [|reflexivity].
    apply IH. exact Hin.
Qed.

(** If the provider fails for one non-blank chunk of a transcript, the
    ingestion throws and nothing has been written: both tables are as
    before, whatever the chunks before it were. *)
Theorem transcript_ingestion_all_or_nothing :
  forall (env : Env) (now videoId subjectId : Z) (chunks : list Chunk.t)
         (w : World) (c : Chunk.t),
    videoTable w = true -> In c chunks -> nonEmptyChunk c = true ->
    getEmbedding env (Chunk.text c) = None ->
    exists w' : World,
      processVideoTranscriptChunks env now videoId subjectId chunks w
      = (Thrown, w')
      /\ sameButTrace w w'.
Proof.
  intros env now videoId subjectId chunks w c Hv Hin Hne Hnone.
  unfold processVideoTranscriptChunks.
  rewrite (bind_unlessSet_set _ _ _ _ Hv).
  pose proof (transcriptVectors_throws env now videoId subjectId chunks c
                Hin Hne Hnone [] w) as Hthrown.
  pose proof (transcriptVectors_sameButTrace env now videoId subjectId chunks
                [] w) as Hsame.
  unfold tryCatch, bind, throw.
  destruct (transcriptVectors env now videoId subjectId chunks [] w)
    as [[vd|] w1]; cbn [fst snd] in *; [discriminate|].
  exists w1. split; [reflexivity|exact Hsame].
Qed.

(** The theorem with the same provider: the second chunk is refused
    after the first was embedded. *)
Lemma transcript_ingestion_all_or_nothing_witness :
  nonEmptyChunk (Chunk.mk (Some 2) (JS.lit "example") 1) = true
  /\ exists w' : World,
      processVideoTranscriptChunks
        (mkEnv (fun s => if (5 <? List.length s)%nat then None
                         else Some [inject_Z (Z.of_nat (List.length s))])
               sqDist false)
        2000 5 2
        [Chunk.mk (Some 1) (JS.lit "def") 0;
         Chunk.mk (Some 2) (JS.lit "example") 1]
        (running [] [transcriptRow 8 2])
      = (Thrown, w')
      /\ video_transcripts w' = Some [transcriptRow 8 2].
Proof.
  split; [reflexivity|].
  destruct (transcript_ingestion_all_or_nothing
              (mkEnv (fun s => if (5 <? List.length s)%nat then None
                               else Some [inject_Z (Z.of_nat (List.length s))])
                     sqDist false)
              2000 5 2
              [Chunk.mk (Some 1) (JS.lit "def") 0;
               Chunk.mk (Some 2) (JS.lit "example") 1]
              (running [] [transcriptRow 8 2])
              (Chunk.mk (Some 2) (JS.lit "example") 1)
              eq_refl (or_intror (or_introl eq_refl)) eq_refl eq_refl)
    as (w' & Hrun & Hsame).
  exists w'. split; [exact Hrun|].
  destruct Hsame as (_ & Hv & _). exact Hv.
Defined.

(** The run of the loop of [processVideoTranscriptChunks] with a provider
    that answers: one row per non-blank chunk, in order. *)
Lemma run_transcriptVectors env now videoId subjectId
      (chunks : list Chunk.t) :
  answersAll env (List.map Chunk.text (filter nonEmptyChunk chunks)) ->
  forall vectorData w,
    exists (w' : World) (added : list Video.row),
      transcriptVectors env now videoId subjectId chunks vectorData w
      = (Ok (vectorData ++ added), w')
      /\ sameButTrace w w'
      /\ Forall2 (fun c r =>
                    getEmbedding env (Chunk.text c) = Some (Video.vector r)
                    /\ r = Video.mk (Video.vector r) (Chunk.text c) videoId
                                    (JS.orNum (Chunk.id c) (Chunk.chunkIndex c))
                                    0 0 subjectId now)
                 (filter nonEmptyChunk chunks) added.
Proof.
  induction chunks as [|c chunks IH]; intros Hans vectorData w;
    cbn [transcriptVectors filter].
  - exists w, []. rewrite app_nil_r.
    split; [reflexivity|]. split; [apply sameButTrace_refl|constructor].
  - cbn [filter] in Hans. destruct (nonEmptyChunk c) eqn:E.
    + cbn [List.map] in Hans.
      destruct (getEmbedding env (Chunk.text c)) as [v|] eqn:Ev;
        [|exfalso; apply (Hans (Chunk.text c)); [left; reflexivity|exact Ev]].
      destruct (IH (fun x Hx => Hans x (or_intror Hx))
                   (vectorData
                      ++ [Video.mk v (Chunk.text c) videoId
                                   (JS.orNum (Chunk.id c) (Chunk.chunkIndex c))
                                   0 0 subjectId now])
                   (emit (EvEmbedding (Chunk.text c)) w))
        as (w' & added & Hrun & Hsame & Hrel).
      exists w', (Video.mk v (Chunk.text c) videoId
                           (JS.orNum (Chunk.id c) (Chunk.chunkIndex c))
                           0 0 subjectId now :: added).
      split; [|split].
      * unfold bind, embed. rewrite Ev, Hrun, <- app_assoc. reflexivity.
      * eapply sameButTrace_trans; [apply sameButTrace_emit|exact Hsame].
      * constructor; [|exact Hrel]. cbn. split; [exact Ev|reflexivity].
    + apply IH. exact Hans.
Qed.

(** A transcript ingestion that the provider and the store answer
    returns the number of non-blank chunks and appends one row for each
    of them, in their order, with the text of the chunk, its embedding,
    [chunkId] the id of the chunk (its index where the id is missing or
    0) and both times 0; blank chunks leave no row, and the rows that
    were there stay in front. *)
Theorem transcript_ingestion_appends_rows :
  forall (env : Env) (now videoId subjectId : Z) (chunks : list Chunk.t)
         (w : World) (rows : list Video.row),
    videoTable w = true -> video_transcripts w = Some rows ->
    faults w = [] ->
    answersAll env (List.map Chunk.text (filter nonEmptyChunk chunks)) ->
    exists (w' : World) (added : list Video.row),
      processVideoTranscriptChunks env now videoId subjectId chunks w
      = (Ok (Z.of_nat (List.length (filter nonEmptyChunk chunks))), w')
      /\ video_transcripts w' = Some (rows ++ added)
      /\ documents w' = documents w
      /\ Forall2 (fun c r =>
                    getEmbedding env (Chunk.text c) = Some (Video.vector r)
                    /\ r = Video.mk (Video.vector r) (Chunk.text c) videoId
                                    (JS.orNum (Chunk.id c) (Chunk.chunkIndex c))
                                    0 0 subjectId now)
                 (filter nonEmptyChunk chunks) added.
Proof.
  intros env now videoId subjectId chunks w rows Hv Hrows Hf Hans.
  destruct (run_transcriptVectors env now videoId subjectId chunks Hans [] w)
    as (w1 & added & Hrun & Hsame & Hrel).
  cbn [app] in Hrun.
  destruct Hsame as (Hd1 & Hv1 & _ & _ & Hh1 & _ & Hf1).
  pose proof (Forall2_length Hrel) as Hlen.
  unfold processVideoTranscriptChunks.
  rewrite (bind_unlessSet_set _ _ _ _ Hv).
  unfold tryCatch, bind at 1. rewrite Hrun. unfold bind.
  destruct added as [|r added].
  - cbn [List.length Nat.ltb Nat.leb when ret]. exists w1, [].
    rewrite app_nil_r. rewrite <- Hlen at 1. cbn [List.length] in *.
    rewrite Hlen.
    split; [reflexivity|]. split; [congruence|]. split; [exact Hd1|exact Hrel].
  - cbn [List.length Nat.ltb Nat.leb when]. unfold VideoTable.add.
    rewrite (run_add video_transcripts setVideoTranscripts videoTable w1 rows);
      [|congruence|congruence|congruence].
    eexists. exists (r :: added).
    split; [unfold ret; rewrite Hlen; reflexivity|].
    split; [reflexivity|]. split; [exact Hd1|exact Hrel].
Qed.

(** The theorem on three chunks of video 5, the second of them blank. *)
Lemma transcript_ingestion_appends_rows_witness :
  answersAll demoEnv
    (List.map Chunk.text
       (filter nonEmptyChunk
               [Chunk.mk (Some 11) (JS.lit "one.") 0;
                Chunk.mk (Some 12) (JS.lit "  ") 1;
                Chunk.mk None (JS.lit "three.") 2]))
  /\ exists w' : World,
      processVideoTranscriptChunks demoEnv 2000 5 2
        [Chunk.mk (Some 11) (JS.lit "one.") 0;
         Chunk.mk (Some 12) (JS.lit "  ") 1;
         Chunk.mk None (JS.lit "three.") 2]
        (running [] [transcriptRow 8 2])
      = (Ok 2, w')
      /\ video_transcripts w'
         = Some [transcriptRow 8 2;
                 Video.mk [4%Q] (JS.lit "one.") 5 11 0 0 2 2000;
                 Video.mk [6%Q] (JS.lit "three.") 5 2 0 0 2 2000].
Proof.
  assert (Hans : answersAll demoEnv
                   (List.map Chunk.text
                      (filter nonEmptyChunk
                              [Chunk.mk (Some 11) (JS.lit "one.") 0;
                               Chunk.mk (Some 12) (JS.lit "  ") 1;
                               Chunk.mk None (JS.lit "three.") 2])))
    by (intros c _; discriminate).
  split; [exact Hans|].
  destruct (transcript_ingestion_appends_rows demoEnv 2000 5 2
              [Chunk.mk (Some 11) (JS.lit "one.") 0;
               Chunk.mk (Some 12) (JS.lit "  ") 1;
               Chunk.mk None (JS.lit "three.") 2]
              (running [] [transcriptRow 8 2]) [transcriptRow 8 2]
              eq_refl eq_refl eq_refl Hans)
    as (w' & added & Hrun & _).
  exists w'. split; [exact Hrun|].
  vm_compute in Hrun. injection Hrun as <-. reflexivity.
Defined.

(** ** What a search returns *)

Lemma Forall_firstn_of {A} (P : A -> Prop) (n : nat) (l : list A) :
  Forall P l -> Forall P (firstn n l).
Proof.
  intro H. rewrite Forall_forall in *. intros x Hx. apply H.
  rewrite <- (firstn_skipn n l). apply in_or_app. left. exact Hx.
Qed.

Lemma Forall_filter_of {A} (P : A -> Prop) (p : A -> bool) (l : list A) :
  Forall P l -> Forall P (filter p l).
Proof.
  intro H. rewrite Forall_forall in *. intros x Hx. apply H.
  apply filter_In in Hx. tauto.
Qed.

Lemma StronglySorted_firstn {A} (R : A -> A -> Prop) (l : list A) :
  StronglySorted R l -> forall n, StronglySorted R (firstn n l).
Proof.
  induction 1 as [|x l Hs IH Hx]; intro n.
  - rewrite firstn_nil. constructor.
  - destruct n; cbn [firstn]; constructor; [apply IH|].
    apply Forall_firstn_of. exact Hx.
Qed.

Lemma StronglySorted_filter {A} (R : A -> A -> Prop) (p : A -> bool)
      (l : list A) :
  StronglySorted R l -> StronglySorted R (filter p l).
Proof.
  induction 1 as [|x l Hs IH Hx]; cbn [filter]; [constructor|].
  destruct (p x); [|exact IH].
  constructor; [exact IH|]. apply Forall_filter_of. exact Hx.
Qed.

Lemma StronglySorted_map {A B} (R : A -> A -> Prop) (S : B -> B -> Prop)
      (f : A -> B) (l : list A) :
  (forall a b, R a b -> S (f a) (f b)) ->
  StronglySorted R l -> StronglySorted S (List.map f l).
Proof.
  intros Hf. induction 1 as [|x l Hs IH Hx]; cbn [List.map]; constructor.
  - exact IH.
  - apply Forall_map. rewrite Forall_forall in *. auto.
Qed.

Lemma orZero_eq (d : Q) : (JS.orZero d == d)%Q.
Proof.
  unfold JS.orZero. destruct (Qeq_bool d 0) eqn:E; [|reflexivity].
  apply Qeq_bool_eq in E. symmetry. exact E.
Qed.

Lemma StronglySorted_weaken {A} (R S : A -> A -> Prop) (l : list A) :
  (forall a b, R a b -> S a b) -> StronglySorted R l -> StronglySorted S l.
Proof.
  intros H Hs. rewrite <- (map_id l).
  eapply StronglySorted_map; [|exact Hs]. exact H.
Qed.

Lemma rankDocuments_sorted now subjectId userId sessionId topK results :
  StronglySorted (fun a b => (Scored.score b <= Scored.score a)%Q)
                 (rankDocuments now subjectId userId sessionId topK results).
Proof.
  destruct (rankDocuments_source now subjectId userId sessionId topK results)
    as (kept & _ & _ & ->).
  unfold JS.slice0. apply StronglySorted_firstn.
  eapply StronglySorted_weaken;
    [|apply (sort_sorted byScoreDescending byScoreDescending_total
                         byScoreDescending_trans)].
  intros a b H. unfold byScoreDescending in H. cbn beta in H. lra.
Qed.

(** What a document search returns on a service whose documents handle
    is set: at most [topK] entries (10 when none is given), in the order
    of decreasing score, each carrying a row of the documents table, and
    a row of the requested subject when a subject is given. *)
Theorem document_search_result :
  forall (env : Env) (now : Z) (query : JS.str)
         (subjectId userId sessionId topK : option Z) (w w' : World)
         (docs : list Scored.t),
    table w = true ->
    searchDocumentsWithContext env now query subjectId userId sessionId topK w
    = (Ok docs, w') ->
    (0 <= orDefault 10 topK ->
     Z.of_nat (List.length docs) <= orDefault 10 topK)
    /\ StronglySorted (fun a b => (Scored.score b <= Scored.score a)%Q) docs
    /\ (exists rows,
           documents w = Some rows
           /\ forall x, In x docs -> In (DocHit.row (Scored.doc x)) rows)
    /\ (forall s, subjectId = Some s ->
                  forall x, In x docs ->
                            Doc.subjectId (DocHit.row (Scored.doc x)) = s).
Proof.
  intros env now query subjectId userId sessionId topK w w' docs Ht Hrun.
  pose proof (searchDocumentsWithContext_rows _ _ _ _ _ _ _ _ _ _ Ht Hrun)
    as (rows & Hrows & _ & Hin).
  apply searchDocumentsWithContext_returns in Hrun.
  destruct Hrun as (raw & ->).
  split; [|split; [|split]].
  - apply rankDocuments_length.
  - apply rankDocuments_sorted.
  - exists rows. split; [exact Hrows|exact Hin].
  - intros s -> x Hx. eapply rankDocuments_subject. exact Hx.
Qed.

(** The theorem on a query of caller (9, 100) for two results of
    subject 2. *)
Lemma document_search_result_witness :
  table busy = true
  /\ exists (docs : list Scored.t) (w' : World),
      searchDocumentsWithContext demoEnv 2000 (JS.lit "abcd") (Some 2)
        (Some 9) (Some 100) (Some 2) busy = (Ok docs, w')
      /\ Z.of_nat (List.length docs) <= 2
      /\ List.map (fun x => Doc.documentId (DocHit.row (Scored.doc x))) docs
         = [50; 7].
Proof.
  split; [reflexivity|].
  eexists. eexists. split; [vm_compute; reflexivity|].
  split; [|reflexivity].
  apply (proj1 (document_search_result demoEnv 2000 (JS.lit "abcd") (Some 2)
                  (Some 9) (Some 100) (Some 2) busy _ _ eq_refl eq_refl)).
  cbn. lia.
Defined.

Lemma byDistance_total {R} (a b : R * Q) :
  (snd a - snd b <= 0)%Q \/ (snd b - snd a <= 0)%Q.
Proof. destruct (Qlt_le_dec (snd a) (snd b)); [left|right]; lra. Qed.

Lemma nearest_sorted {R} (vec : R -> Vec) env q (rows : list R) :
  StronglySorted (fun a b => (snd a <= snd b)%Q) (nearest vec env q rows).
Proof.
  unfold nearest.
  eapply StronglySorted_weaken;
    [|apply (sort_sorted (fun a b : R * Q => (snd a - snd b)%Q)
                         byDistance_total)].
  - intros a b H. cbn beta in H. lra.
  - intros a b c H1 H2. lra.
Qed.

Lemma firstn_In {A} (n : nat) (l : list A) (x : A) :
  In x (firstn n l) -> In x l.
Proof.
  intro H. rewrite <- (firstn_skipn n l). apply in_or_app. left. exact H.
Qed.

(** What the store returns for a search of the transcripts, for any
    filter. *)
Lemma VideoTable_search_result env v (p : option Predicate) (n : Z)
      (w w' : World) found :
  VideoTable.search env v p n w = (Ok found, w') ->
  exists rows,
    video_transcripts w = Some rows
    /\ (List.length found <= Z.to_nat n)%nat
    /\ StronglySorted (fun a b => (snd a <= snd b)%Q) found
    /\ (forall h, In h found -> In (fst h) rows)
    /\ (forall q f, p = Some q -> plan Video.vector q = Some f ->
                    forall h, In h found -> f (fst h) = true)
    /\ (p = None ->
        found = firstn (Z.to_nat n) (nearest Video.vector env v rows)).
Proof.
  unfold VideoTable.search, search, bind, storeCall, rowsOf, ret, throw.
  intro H.
  assert (Hrows : exists rows,
             video_transcripts w = Some rows
             /\ match p with
                | None => found = firstn (Z.to_nat n)
                                         (nearest Video.vector env v rows)
                | Some q =>
                    exists f,
                      plan Video.vector q = Some f
                      /\ found
                         = if prefilter env
                           then firstn (Z.to_nat n)
                                  (filter (fun h => f (fst h))
                                          (nearest Video.vector env v rows))
                           else filter (fun h => f (fst h))
                                  (firstn (Z.to_nat n)
                                          (nearest Video.vector env v rows))
                end).
  { destruct (faults w) as [|[|] fs]; try discriminate;
      cbn [videoTable video_transcripts setFaults] in H;
      destruct (videoTable w); try discriminate;
      destruct (video_transcripts w) as [rows|]; try discriminate;
      destruct (n <=? 0); try discriminate;
      (destruct p as [q|];
       [destruct (plan Video.vector q) as [f|] eqn:Hq; try discriminate|]);
      injection H as <- _; exists rows; (split; [reflexivity|]);
      eauto. }
  destruct Hrows as (rows & Hrows & Hfound). exists rows.
  split; [exact Hrows|].
  pose proof (nearest_sorted Video.vector env v rows) as Hs.
  assert (Hsub : forall h, In h (nearest Video.vector env v rows) ->
                           In (fst h) rows)
    by (intros h Hh; apply nearest_In in Hh; tauto).
  destruct p as [q|];
    [destruct Hfound as (f & Hq & ->); destruct (prefilter env)
    |subst found].
  - split; [apply firstn_le_length|].
    split; [apply StronglySorted_firstn, StronglySorted_filter, Hs|].
    split; [|split; [|discriminate]].
    + intros h Hh. apply firstn_In, filter_In in Hh. apply Hsub. tauto.
    + intros q' f' [= <-] Hq' h Hh. rewrite Hq in Hq'. injection Hq' as <-.
      apply firstn_In, filter_In in Hh. tauto.
  - split; [etransitivity; [apply filter_length_le|apply firstn_le_length]|].
    split; [apply StronglySorted_filter, StronglySorted_firstn, Hs|].
    split; [|split; [|discriminate]].
    + intros h Hh. apply filter_In in Hh. destruct Hh as [Hh _].
      apply Hsub. eapply firstn_In. exact Hh.
    + intros q' f' [= <-] Hq' h Hh. rewrite Hq in Hq'. injection Hq' as <-.
      apply filter_In in Hh. tauto.
  - split; [apply firstn_le_length|].
    split; [apply StronglySorted_firstn, Hs|]. split; [|split].
    + intros h Hh. apply Hsub. eapply firstn_In. exact Hh.
    + discriminate.
    + reflexivity.
Qed.

(** The predicate of the subject filter holds of no row. *)
Lemma subjectIdIs_plan (subjectId : option Z) :
  exists f : Video.row -> bool,
    plan Video.vector (subjectIdIs subjectId) = Some f
    /\ forall r, f r = false.
Proof.
  eexists. split; [reflexivity|].
  intro r. cbv beta. apply name_is_no_number. reflexivity.
Qed.

(** What a transcript search returns on a service whose transcripts
    handle is set: at most [topK] entries (5 when none is given), in the
    order of increasing distance, each copied from a row of the
    transcripts table.  With no subject, or the subject 0, they are the
    nearest rows of the table, [topK] of them or all; with another
    subject the list is empty, whatever the table holds: the filter
    sent, ["subjectId" = N], compares the string [subjectId] with a
    number. *)
Theorem transcript_search_result :
  forall (env : Env) (now : Z) (query : JS.str) (subjectId topK : option Z)
         (w w' : World) (hits : list VideoHit.t),
    videoTable w = true ->
    searchVideoTranscripts env now query subjectId topK w = (Ok hits, w') ->
    (List.length hits <= Z.to_nat (orDefault 5 topK))%nat
    /\ StronglySorted (fun a b => (VideoHit.score a <= VideoHit.score b)%Q)
                      hits
    /\ (exists rows,
           video_transcripts w = Some rows
           /\ (forall h, In h hits ->
                         exists r, In r rows
                                   /\ VideoHit.text h = Video.text r
                                   /\ VideoHit.videoId h = Video.videoId r
                                   /\ VideoHit.chunkId h = Video.chunkId r
                                   /\ VideoHit.subjectId h = Video.subjectId r)
           /\ (JS.truthyNum subjectId = false ->
               forall v, getEmbedding env query = Some v ->
                 List.map (fun h => (VideoHit.videoId h, VideoHit.chunkId h))
                          hits
                 = List.map (fun h => (Video.videoId (fst h),
                                       Video.chunkId (fst h)))
                            (firstn (Z.to_nat (orDefault 5 topK))
                                    (nearest Video.vector env v rows))))
    /\ (forall s, subjectId = Some s -> s <> 0 -> hits = []).
Proof.
  intros env now query subjectId topK w w' hits Hv.
  unfold searchVideoTranscripts.
  rewrite (bind_unlessSet_set _ _ _ _ Hv).
  unfold tryCatch, bind at 1, embed, throw.
  destruct (getEmbedding env query) as [v|]; [|discriminate].
  set (p := if JS.truthyNum subjectId
            then Some (subjectIdIs subjectId)
            else None).
  assert (Hp : (if JS.truthyNum subjectId
                then VideoTable.search env v (Some (subjectIdIs subjectId))
                       (orDefault 5 topK)
                else VideoTable.search env v None (orDefault 5 topK))
               = VideoTable.search env v p (orDefault 5 topK))
    by (unfold p; destruct (JS.truthyNum subjectId); reflexivity).
  rewrite Hp. unfold bind, ret.
  destruct (VideoTable.search env v p (orDefault 5 topK)
                              (emit (EvEmbedding query) w))
    as [[found|] w2] eqn:Hs; [|discriminate].
  intro H. injection H as <- _.
  apply VideoTable_search_result in Hs.
  destruct Hs as (rows & Hrows & Hlen & Hsorted & Hin & Hf & Hnone).
  cbn [video_transcripts emit] in Hrows.
  split; [rewrite length_map; exact Hlen|]. split; [|split].
  - eapply StronglySorted_map; [|exact Hsorted].
    intros a b Hab. cbn [VideoHit.score]. rewrite !orZero_eq. exact Hab.
  - exists rows. split; [exact Hrows|]. split.
    + intros h Hh. apply in_map_iff in Hh. destruct Hh as (x & <- & Hx).
      exists (fst x). split; [apply Hin; exact Hx|]. cbn. tauto.
    + intros Hfalsy v' [= <-]. rewrite map_map. cbn [VideoHit.videoId
        VideoHit.chunkId].
      rewrite Hnone; [reflexivity|]. unfold p. rewrite Hfalsy. reflexivity.
  - intros s -> Hs0.
    destruct (subjectIdIs_plan (Some s)) as (f & Hplan & Hfalse).
    assert (Hps : p = Some (subjectIdIs (Some s))).
    { unfold p, JS.truthyNum. destruct (Z.eqb_spec s 0); [contradiction|].
      reflexivity. }
    destruct found as [|x found]; [reflexivity|].
    specialize (Hf _ f Hps Hplan x (or_introl eq_refl)).
    rewrite Hfalse in Hf. discriminate.
Qed.

(** The theorem on a search with no subject over transcripts of two
    subjects; the same search for subject 2 returns nothing. *)
Lemma transcript_search_result_witness :
  videoTable (running [] [transcriptRow 5 3; transcriptRow 8 2]) = true
  /\ (exists (hits : list VideoHit.t) (w' : World),
         searchVideoTranscripts demoEnv 2000 (JS.lit "ab") None (Some 5)
           (running [] [transcriptRow 5 3; transcriptRow 8 2]) = (Ok hits, w')
         /\ (List.length hits <= Z.to_nat 5)%nat
         /\ List.map VideoHit.videoId hits = [5; 8])
  /\ fst (searchVideoTranscripts demoEnv 2000 (JS.lit "ab") (Some 2) (Some 5)
            (running [] [transcriptRow 5 3; transcriptRow 8 2]))
     = Ok [].
Proof.
  split; [reflexivity|]. split; [|vm_compute; reflexivity].
  eexists. eexists. split; [vm_compute; reflexivity|].
  split; [|reflexivity].
  apply (proj1 (transcript_search_result demoEnv 2000 (JS.lit "ab") None
                  (Some 5) (running [] [transcriptRow 5 3; transcriptRow 8 2])
                  _ _ eq_refl eq_refl)).
Defined.

(** ** The counts of the video Q&A combiner *)

Lemma slice0_length_exact {A} (k : Z) (l : list A) :
  0 <= k <= Z.of_nat (List.length l) ->
  Z.of_nat (List.length (JS.slice0 k l)) = k.
Proof.
  intro Hk. unfold JS.slice0.
  destruct (Z.ltb_spec k 0); [lia|].
  rewrite length_firstn. lia.
Qed.

(** When [topK] is at most the number of hits, the ranking returns
    exactly [topK] entries: every hit is in one bucket at least. *)
Lemma rankDocuments_length_exact now userId sessionId (topK : Z)
      (results : list DocHit.t) :
  0 <= topK <= Z.of_nat (List.length results) ->
  Z.of_nat (List.length (rankDocuments now None userId sessionId topK
                                       results)) = topK.
Proof.
  intro Hk.
  destruct (rankDocuments_candidates now userId sessionId topK results)
    as (candidates & -> & Hp).
  apply slice0_length_exact. rewrite sort_length.
  rewrite <- (length_map Scored.doc candidates), (Permutation_length Hp).
  pose proof (once_per_bucket_length_ge userId sessionId results). lia.
Qed.

Lemma rankTranscripts_length_exact currentVideoId (videoCount : Z)
      (videoResults : list VideoHit.t) :
  0 <= videoCount <= Z.of_nat (List.length videoResults) ->
  Z.of_nat (List.length (rankTranscripts currentVideoId videoCount
                                         videoResults)) = videoCount.
Proof.
  intro Hk. unfold rankTranscripts.
  destruct (JS.truthyNum currentVideoId); apply slice0_length_exact;
    [|exact Hk].
  rewrite sort_length, length_app, length_map.
  pose proof (filter_length
                (fun r => JS.strictEq (VideoHit.videoId r) currentVideoId)
                videoResults).
  lia.
Qed.

(** A document search without subject and caller, with a store and a
    provider that answer. *)
Lemma run_searchDocuments env now query (k : Z) (w : World)
      (docRows : list Doc.row) (v : Vec) :
  table w = true -> faults w = [] -> documents w = Some docRows ->
  getEmbedding env query = Some v -> 0 < k ->
  searchDocuments env now query None (Some k) w
  = (Ok (rankDocuments now None None None k
           (List.map (fun h => DocHit.mk (fst h) (snd h))
                     (firstn (Z.to_nat (k * 3))
                             (nearest Doc.vector env v docRows)))),
     emit (EvEmbedding query) w).
Proof.
  intros Ht Hf Hd Hq Hk.
  unfold searchDocuments, searchDocumentsWithContext. cbn [orDefault].
  rewrite (bind_unlessSet_set _ _ _ _ Ht).
  unfold tryCatch, bind at 1, embed. rewrite Hq.
  unfold bind, DocTable.search.
  rewrite (run_search documents table Doc.vector env
                      (emit (EvEmbedding query) w) docRows Ht Hd Hf) by lia.
  reflexivity.
Qed.

(** A transcript search without subject, with a store and a provider
    that answer. *)
Lemma run_searchVideoTranscripts env now query (k : Z) (w : World)
      (videoRows : list Video.row) (v : Vec) :
  videoTable w = true -> faults w = [] ->
  video_transcripts w = Some videoRows ->
  getEmbedding env query = Some v -> 0 < k ->
  exists raw : list VideoHit.t,
    searchVideoTranscripts env now query None (Some k) w
    = (Ok raw, emit (EvEmbedding query) w)
    /\ List.length raw
       = Nat.min (Z.to_nat k) (List.length videoRows).
Proof.
  intros Hv Hf Hr Hq Hk.
  unfold searchVideoTranscripts. cbn [orDefault JS.truthyNum].
  rewrite (bind_unlessSet_set _ _ _ _ Hv).
  unfold tryCatch, bind at 1, embed. rewrite Hq.
  unfold bind, VideoTable.search.
  rewrite (run_search video_transcripts videoTable Video.vector env
                      (emit (EvEmbedding query) w) videoRows Hv Hr Hf)
    by lia.
  eexists. split; [reflexivity|].
  rewrite length_map, length_firstn, nearest_length. reflexivity.
Qed.

(** At K = 0 the combiner asks the store for 0 rows, which the store
    rejects: the call throws. *)
Lemma combined_zero_throws env now query subjectId currentVideoId
      (w : World) :
  table w = true ->
  fst (searchCombinedForVideoQA env now query subjectId (Some 0)
                                currentVideoId w) = Thrown.
Proof.
  intro Ht.
  unfold searchCombinedForVideoQA, searchDocuments,
    searchDocumentsWithContext.
  cbn [orDefault].
  change (docCountOf 0) with 0. cbn [orDefault].
  unfold tryCatch at 1, bind at 1.
  rewrite (bind_unlessSet_set _ _ _ _ Ht).
  unfold tryCatch, bind at 1, embed, throw.
  destruct (getEmbedding env query) as [v|]; [|reflexivity].
  unfold bind, DocTable.search, search, bind, storeCall, rowsOf, throw.
  destruct w as [docs vt d t vtb vs fs tr]. cbn in Ht. subst.
  destruct fs as [|[|] fs]; cbn; destruct docs; reflexivity.
Qed.

(** C8: for a requested total K >= 0 the combiner takes
    docCount = ceil(K * 0.7) and videoCount = floor(K * 0.3), which add
    up to K.  These are the numbers it works with: a call that returns
    has as documents what [searchDocuments] returned when asked for
    docCount results, and as transcripts the first videoCount, after the
    boost, of what [searchVideoTranscripts] returned when asked for
    videoCount + 3; so it returns at most docCount documents and at most
    videoCount transcripts, at most K sources in all.  The bounds are
    reached: for K >= 1, with a store and a provider that answer, no
    subject, and tables that hold at least docCount documents and
    videoCount transcripts, the call returns exactly docCount documents
    and videoCount transcripts.  (At K = 0 the store is asked for 0
    rows, rejects the request, and the call throws.) *)
Theorem combined_counts :
  forall (env : Env) (now : Z) (query : JS.str)
         (subjectId currentVideoId : option Z) (K : Z) (w : World),
    0 <= K ->
    docCountOf K = Qceiling (inject_Z K * (7 # 10))
    /\ videoCountOf K = Qfloor (inject_Z K * (3 # 10))
    /\ docCountOf K + videoCountOf K = K
    /\ (forall (r : Combined.t) (w' : World),
           searchCombinedForVideoQA env now query subjectId (Some K)
                                    currentVideoId w = (Ok r, w') ->
           (exists (w1 : World) (raw : list VideoHit.t),
               searchDocuments env now query subjectId (Some (docCountOf K)) w
               = (Ok (Combined.documents r), w1)
               /\ searchVideoTranscripts env now query subjectId
                                         (Some (videoCountOf K + 3)) w1
                  = (Ok raw, w')
               /\ Combined.videos r
                  = rankTranscripts currentVideoId (videoCountOf K) raw)
           /\ Z.of_nat (List.length (Combined.documents r)) <= docCountOf K
           /\ Z.of_nat (List.length (Combined.videos r)) <= videoCountOf K
           /\ Combined.totalSources r
              = Z.of_nat (List.length (Combined.videos r))
                + Z.of_nat (List.length (Combined.documents r))
           /\ Combined.totalSources r <= K)
    /\ (forall (docRows : list Doc.row) (videoRows : list Video.row)
               (v : Vec),
           1 <= K -> initialized w -> faults w = [] ->
           documents w = Some docRows ->
           video_transcripts w = Some videoRows ->
           getEmbedding env query = Some v ->
           docCountOf K <= Z.of_nat (List.length docRows) ->
           videoCountOf K <= Z.of_nat (List.length videoRows) ->
           exists (r : Combined.t) (w' : World),
             searchCombinedForVideoQA env now query None (Some K)
                                      currentVideoId w = (Ok r, w')
             /\ Z.of_nat (List.length (Combined.documents r)) = docCountOf K
             /\ Z.of_nat (List.length (Combined.videos r)) = videoCountOf K
             /\ Combined.totalSources r = K)
    /\ (K = 0 -> table w = true ->
        fst (searchCombinedForVideoQA env now query subjectId (Some K)
                                      currentVideoId w) = Thrown).
Proof.
  intros env now query subjectId currentVideoId K w HK.
  destruct (counts_nonneg K HK) as [Hdoc Hvid].
  pose proof (counts_sum K) as Hsum.
  split; [reflexivity|]. split; [reflexivity|]. split; [exact Hsum|].
  split; [|split].
  - intros r w' Hrun.
    apply searchCombinedForVideoQA_returns in Hrun. cbn [orDefault] in Hrun.
    destruct Hrun as (w1 & raw & Hdocs & Hraw & Hvideos & Htotal & _).
    assert (Hld : Z.of_nat (List.length (Combined.documents r))
                  <= docCountOf K).
    { unfold searchDocuments in Hdocs.
      apply searchDocumentsWithContext_returns in Hdocs.
      destruct Hdocs as (results & ->). cbn [orDefault].
      apply rankDocuments_length. exact Hdoc. }
    assert (Hlv : Z.of_nat (List.length (Combined.videos r))
                  <= videoCountOf K).
    { rewrite Hvideos. apply rankTranscripts_length. exact Hvid. }
    split; [exists w1, raw; auto|].
    split; [exact Hld|]. split; [exact Hlv|]. split; [exact Htotal|]. lia.
  - intros docRows videoRows v HK1 [Ht Hv] Hf Hd Hr Hq Hdocs Hvids.
    assert (Hdpos : 0 < docCountOf K).
    { destruct (counts_div K) as [-> _].
      Z.to_euclidean_division_equations. lia. }
    unfold searchCombinedForVideoQA. cbn [orDefault].
    unfold tryCatch, bind at 1.
    rewrite (run_searchDocuments env now query (docCountOf K) w docRows v
               Ht Hf Hd Hq Hdpos).
    unfold bind at 1.
    destruct (run_searchVideoTranscripts env now query (videoCountOf K + 3)
                (emit (EvEmbedding query) w) videoRows v Hv Hf Hr Hq
                ltac:(lia)) as (raw & Hraw & Hlen).
    rewrite Hraw. unfold ret.
    eexists. eexists. split; [reflexivity|].
    cbn [Combined.documents Combined.videos Combined.totalSources].
    assert (Hld : Z.of_nat
                    (List.length
                       (rankDocuments now None None None (docCountOf K)
                          (List.map (fun h => DocHit.mk (fst h) (snd h))
                             (firstn (Z.to_nat (docCountOf K * 3))
                                     (nearest Doc.vector env v docRows)))))
                  = docCountOf K).
    { apply rankDocuments_length_exact.
      rewrite length_map, length_firstn, nearest_length. lia. }
    assert (Hlv : Z.of_nat
                    (List.length
                       (rankTranscripts currentVideoId (videoCountOf K) raw))
                  = videoCountOf K).
    { apply rankTranscripts_length_exact. rewrite Hlen. lia. }
    split; [exact Hld|]. split; [exact Hlv|]. rewrite Hld, Hlv. lia.
  - intros -> Ht. apply combined_zero_throws. exact Ht.
Qed.

(** The theorem for K = 4 on a service with four documents and two
    transcripts: three documents and one transcript come back. *)
Lemma combined_counts_witness :
  0 <= 4
  /\ docCountOf 4 = 3 /\ videoCountOf 4 = 1
  /\ exists (r : Combined.t) (w' : World),
      searchCombinedForVideoQA demoEnv 2000 (JS.lit "abcd") None (Some 4)
        (Some 5)
        (running [permanentRow; ownedRow; ownerlessRow; oldTemporaryRow]
                 [transcriptRow 8 2; transcriptRow 5 2])
      = (Ok r, w')
      /\ Z.of_nat (List.length (Combined.documents r)) = docCountOf 4
      /\ Z.of_nat (List.length (Combined.videos r)) = videoCountOf 4
      /\ Combined.totalSources r = 4.
Proof.
  split; [lia|]. split; [reflexivity|]. split; [reflexivity|].
  apply (proj1 (proj2 (proj2 (proj2 (proj2
           (combined_counts demoEnv 2000 (JS.lit "abcd") None (Some 5) 4
              (running [permanentRow; ownedRow; ownerlessRow; oldTemporaryRow]
                       [transcriptRow 8 2; transcriptRow 5 2])
              ltac:(lia))))))
           [permanentRow; ownedRow; ownerlessRow; oldTemporaryRow]
           [transcriptRow 8 2; transcriptRow 5 2] [4%Q]);
    try reflexivity; try (split; reflexivity); try lia;
    vm_compute; discriminate.
Defined.

(** ** Searches do not write *)

Lemma sameTables_initialized (w w' : World) :
  sameTables w w' -> initialized w -> initialized w'.
Proof.
  intros (_ & _ & Ht & Hv) [H1 H2]. split; congruence.
Qed.

Lemma readOnly_ret {A} (a : A) : readOnly (ret a).
Proof. intros w _. repeat split. Qed.

Lemma readOnly_throw {A} : readOnly (@throw A).
Proof. intros w _. repeat split. Qed.

Lemma readOnly_bind {A B} (m : M A) (k : A -> M B) :
  readOnly m -> (forall a, readOnly (k a)) -> readOnly (bind m k).
Proof.
  intros Hm Hk w Hw. rewrite snd_bind. specialize (Hm w Hw).
  destruct (m w) as [[a|] w1]; cbn [snd] in Hm; [|exact Hm].
  pose proof (Hk a w1 (sameTables_initialized _ _ Hm Hw)) as H.
  unfold sameTables in *. decompose [and] Hm. decompose [and] H.
  repeat split; congruence.
Qed.

Lemma readOnly_tryCatch {A} (m h : M A) :
  readOnly m -> readOnly h -> readOnly (tryCatch m h).
Proof.
  intros Hm Hh w Hw. unfold tryCatch. specialize (Hm w Hw).
  destruct (m w) as [[a|] w1]; cbn [snd] in *; [exact Hm|].
  pose proof (Hh w1 (sameTables_initialized _ _ Hm Hw)) as H.
  unfold sameTables in *. decompose [and] Hm. decompose [and] H.
  repeat split; congruence.
Qed.

Lemma readOnly_storeCall : readOnly storeCall.
Proof.
  intros w _. unfold storeCall.
  destruct (faults w) as [|[|] fs]; repeat split.
Qed.

Lemma readOnly_embed env text : readOnly (embed env text).
Proof.
  intros w _. unfold embed. destruct (getEmbedding env text); repeat split.
Qed.

Lemma readOnly_unlessSet_table (m : M unit) : readOnly (unlessSet table m).
Proof.
  intros w [Ht _]. unfold unlessSet. rewrite Ht. repeat split.
Qed.

Lemma readOnly_unlessSet_videoTable (m : M unit) :
  readOnly (unlessSet videoTable m).
Proof.
  intros w [_ Hv]. unfold unlessSet. rewrite Hv. repeat split.
Qed.

Lemma readOnly_search {R} (get : World -> option (list R))
      (handle : World -> bool) (vec : R -> Vec) env q p n :
  readOnly (search get handle vec env q p n).
Proof.
  unfold search. apply readOnly_bind; [apply readOnly_storeCall|]. intros _.
  apply readOnly_bind;
    [|intro rows; destruct (n <=? 0); [apply readOnly_throw|];
      destruct p as [p|]; [|apply readOnly_ret];
      destruct (plan vec p); [apply readOnly_ret|apply readOnly_throw]].
  intros w _. unfold rowsOf.
  destruct (handle w); [destruct (get w)|]; repeat split.
Qed.

Lemma readOnly_searchDocumentsWithContext env now query subjectId userId
      sessionId topK :
  readOnly (searchDocumentsWithContext env now query subjectId userId
                                       sessionId topK).
Proof.
  unfold searchDocumentsWithContext, DocTable.search.
  apply readOnly_bind; [apply readOnly_unlessSet_table|]. intros _.
  apply readOnly_tryCatch; [|apply readOnly_throw].
  apply readOnly_bind; [apply readOnly_embed|]. intro v.
  apply readOnly_bind; [apply readOnly_search|]. intro found.
  apply readOnly_ret.
Qed.

Lemma readOnly_searchVideoTranscripts env now query subjectId topK :
  readOnly (searchVideoTranscripts env now query subjectId topK).
Proof.
  unfold searchVideoTranscripts, VideoTable.search.
  apply readOnly_bind; [apply readOnly_unlessSet_videoTable|]. intros _.
  apply readOnly_tryCatch; [|apply readOnly_throw].
  apply readOnly_bind; [apply readOnly_embed|]. intro v.
  apply readOnly_bind; [|intro; apply readOnly_ret].
  destruct (JS.truthyNum subjectId); apply readOnly_search.
Qed.

Lemma readOnly_searchCombinedForVideoQA env now query subjectId topK
      currentVideoId :
  readOnly (searchCombinedForVideoQA env now query subjectId topK
                                     currentVideoId).
Proof.
  unfold searchCombinedForVideoQA, searchDocuments.
  apply readOnly_tryCatch; [|apply readOnly_throw].
  apply readOnly_bind; [apply readOnly_searchDocumentsWithContext|].
  intro docs.
  apply readOnly_bind; [apply readOnly_searchVideoTranscripts|]. intro vids.
  apply readOnly_ret.
Qed.

(** On a service whose two handles are set, a search (of the documents,
    of the transcripts, or the combined one) leaves both tables and both
    handles exactly as they were, whether it returns or throws and
    whatever the store and the provider do. *)
Theorem searches_do_not_write :
  forall (env : Env) (now : Z) (r : Request) (w : World),
    initialized w -> isSearch r = true ->
    documents (serve env now r w) = documents w
    /\ video_transcripts (serve env now r w) = video_transcripts w
    /\ initialized (serve env now r w).
Proof.
  intros env now r w Hw Hr.
  assert (H : sameTables w (serve env now r w)).
  { destruct r; try discriminate; cbn [serve].
    - apply readOnly_searchDocumentsWithContext, Hw.
    - apply readOnly_searchVideoTranscripts, Hw.
    - apply readOnly_searchCombinedForVideoQA, Hw. }
  pose proof (sameTables_initialized _ _ H Hw) as Hi.
  destruct H as (Hd & Hv & _). repeat split; try assumption; apply Hi.
Qed.

(** The theorem on a combined search whose store fails at its second
    call. *)
Lemma searches_do_not_write_witness :
  initialized (mkWorld (Some [permanentRow]) (Some [transcriptRow 5 2])
                       true true true [] [false; true] [])
  /\ documents
       (serve demoEnv 2000
          (SearchCombined (JS.lit "ab") (Some 2) (Some 7) (Some 5))
          (mkWorld (Some [permanentRow]) (Some [transcriptRow 5 2])
                   true true true [] [false; true] []))
     = Some [permanentRow]
  /\ video_transcripts
       (serve demoEnv 2000
          (SearchCombined (JS.lit "ab") (Some 2) (Some 7) (Some 5))
          (mkWorld (Some [permanentRow]) (Some [transcriptRow 5 2])
                   true true true [] [false; true] []))
     = Some [transcriptRow 5 2].
Proof.
  assert (Hi : initialized
                 (mkWorld (Some [permanentRow]) (Some [transcriptRow 5 2])
                          true true true [] [false; true] []))
    by (split; reflexivity).
  split; [exact Hi|].
  destruct (searches_do_not_write demoEnv 2000
              (SearchCombined (JS.lit "ab") (Some 2) (Some 7) (Some 5))
              _ Hi eq_refl) as (Hd & Hv & _).
  split; [exact Hd|exact Hv].
Defined.

Lemma slice0_single {A} (k : Z) (x : A) : 0 < k -> JS.slice0 k [x] = [x].
Proof.
  intro Hk. unfold JS.slice0.
  destruct (Z.ltb_spec k 0); [lia|].
  destruct (Z.to_nat k) eqn:E; [lia|].
  cbn [firstn]. rewrite firstn_nil. reflexivity.
Qed.

(** The ranking of one hit whose row is not temporary. *)
Lemma rankDocuments_single now (subjectId userId sessionId : option Z)
      (k : Z) (r : Doc.row) (d : Q) :
  Doc.isTemporary r = false -> 0 < k ->
  List.map (fun x => (Scored.doc x, Scored.category x))
           (rankDocuments now subjectId userId sessionId k [DocHit.mk r d])
  = if match subjectId with
       | Some s => Doc.subjectId r =? s
       | None => true
       end
    then [(DocHit.mk r d, permanent)]
    else [].
Proof.
  intros Htmp Hk.
  assert (Hone : forall s u e,
             List.map (fun x => (Scored.doc x, Scored.category x))
                      (rankDocuments now None u e k [DocHit.mk r d])
             = [(DocHit.mk r d, permanent)]
             /\ List.map (fun x => (Scored.doc x, Scored.category x))
                         (rankDocuments now (Some s) u e k [])
                = []).
  { intros s u e. unfold rankDocuments, scoredResults, fallbackResults,
      isTemporaryDoc, isPermanentDoc, isOtherDoc.
    cbn [filter DocHit.row List.map app]. rewrite Htmp.
    cbn [andb negb orb List.map app JS.sort JS.insert].
    split; destruct u, e; cbn [List.map app JS.sort JS.insert];
      rewrite ?slice0_single by exact Hk; try reflexivity;
      unfold JS.slice0; rewrite firstn_nil; reflexivity. }
  destruct subjectId as [s|]; [|apply (Hone 0)].
  destruct (Doc.subjectId r =? s) eqn:E.
  - transitivity (List.map (fun x => (Scored.doc x, Scored.category x))
                           (rankDocuments now None userId sessionId k
                                          [DocHit.mk r d])).
    + unfold rankDocuments. cbn [filter DocHit.row]. rewrite E. reflexivity.
    + apply (Hone 0).
  - transitivity (List.map (fun x => (Scored.doc x, Scored.category x))
                           (rankDocuments now (Some s) userId sessionId k [])).
    + unfold rankDocuments. cbn [filter DocHit.row]. rewrite E. reflexivity.
    + apply (Hone s).
Qed.

(** A search on a service that has not been initialized, with a store
    and a provider that answer, initializes it first.  Whatever the
    documents table held is gone; the table holds the row it was created
    with, and the search returns that row, labelled permanent, unless a
    subject other than 0 is asked for. *)
Theorem first_search_finds_init_row :
  forall (env : Env) (now : Z) (query : JS.str)
         (subjectId userId sessionId topK : option Z) (w : World) (v : Vec),
    table w = false -> faults w = [] -> getEmbedding env query = Some v ->
    0 < orDefault 10 topK ->
    exists (docs : list Scored.t) (w' : World),
      searchDocumentsWithContext env now query subjectId userId sessionId
                                 topK w = (Ok docs, w')
      /\ documents w' = Some [initDoc now]
      /\ video_transcripts w' = Some [initVideo now]
      /\ List.map (fun x => (Scored.doc x, Scored.category x)) docs
         = if JS.truthyNum subjectId then []
           else [(DocHit.mk (initDoc now) (distance env zeroVector v),
                  permanent)].
Proof.
  intros env now query subjectId userId sessionId topK w v Ht Hf Ev Hk.
  destruct (run_initialize now w Hf)
    as (w1 & Hinit & Hd & Hv & [Ht1 _] & _ & Hf1 & _).
  unfold searchDocumentsWithContext, bind at 1, unlessSet.
  rewrite Ht, Hinit.
  unfold tryCatch, bind at 1, embed. rewrite Ev.
  unfold bind, DocTable.search.
  rewrite (run_search documents table Doc.vector env
                      (emit (EvEmbedding query) w1) [initDoc now] Ht1 Hd Hf1)
    by lia.
  unfold nearest. cbn [List.map JS.sort JS.insert].
  destruct (Z.to_nat (orDefault 10 topK * 3)) eqn:E; [lia|].
  cbn [firstn List.map fst snd]. rewrite firstn_nil.
  eexists. eexists. split; [reflexivity|].
  split; [exact Hd|]. split; [exact Hv|].
  rewrite rankDocuments_single by (reflexivity || exact Hk).
  change (Doc.subjectId (initDoc now)) with 0.
  change (Doc.vector (initDoc now)) with zeroVector.
  unfold JS.truthyNum.
  destruct subjectId as [s|]; [|reflexivity].
  rewrite (Z.eqb_sym 0 s). destruct (s =? 0); reflexivity.
Qed.

(** The theorem on a process started over a store that holds a
    permanent row matching the query: the search returns the row of the
    new table, not the row the store held. *)
Lemma first_search_finds_init_row_witness :
  table (cold [permanentRow] [] []) = false
  /\ exists (docs : list Scored.t) (w' : World),
      searchDocumentsWithContext demoEnv 2000 (JS.lit "abcd") None None
        None (Some 5) (cold [permanentRow] [] []) = (Ok docs, w')
      /\ documents w' = Some [initDoc 2000]
      /\ List.map (fun x => (Doc.text (DocHit.row (Scored.doc x)),
                             Scored.category x)) docs
         = [(JS.lit "init", permanent)].
Proof.
  split; [reflexivity|].
  destruct (first_search_finds_init_row demoEnv 2000 (JS.lit "abcd") None
              None None (Some 5) (cold [permanentRow] [] [])
              [4%Q] eq_refl eq_refl eq_refl)
    as (docs & w' & Hrun & Hd & _ & Hdocs); [cbn; lia|].
  exists docs, w'. split; [exact Hrun|]. split; [exact Hd|].
  cbn [JS.truthyNum] in Hdocs.
  rewrite <- (map_map (fun x => (Scored.doc x, Scored.category x))
                      (fun y => (Doc.text (DocHit.row (fst y)), snd y))).
  rewrite Hdocs. reflexivity.
Defined.

(** ** Scores and labels *)

Lemma temporalScore_mono (now : Z) (d d' : DocHit.t) :
  Doc.createdAt (DocHit.row d) <= Doc.createdAt (DocHit.row d') ->
  (temporalScore now d <= temporalScore now d')%Q.
Proof.
  intro H. unfold temporalScore. apply Q.max_le_compat_l.
  assert (Hle : (inject_Z (now - Doc.createdAt (DocHit.row d'))
                 <= inject_Z (now - Doc.createdAt (DocHit.row d)))%Q)
    by (rewrite <- Zle_Qle; lia).
  assert (Hdiv : (inject_Z (now - Doc.createdAt (DocHit.row d'))
                    / inject_Z twoHours
                  <= inject_Z (now - Doc.createdAt (DocHit.row d))
                     / inject_Z twoHours)%Q).
  { unfold Qdiv. apply Qmult_le_compat_r; [exact Hle|].
    unfold Qle. cbn. lia. }
  lra.
Qed.

(** The temporal score of [scoreDocument] is 1 for a row created at the
    time of the query, 0 for a row that is two hours old or older, and
    never higher for an older row than for a younger one; within a
    bucket, a hit that is at least as close and at least as young as
    another scores at least as high. *)
Theorem scoring_is_monotone :
  forall (now : Z) (d d' : DocHit.t) (c : Category),
    (Doc.createdAt (DocHit.row d) = now -> (temporalScore now d == 1)%Q)
    /\ (twoHours <= now - Doc.createdAt (DocHit.row d) ->
        (temporalScore now d == 0)%Q)
    /\ (Doc.createdAt (DocHit.row d) <= Doc.createdAt (DocHit.row d') ->
        (temporalScore now d <= temporalScore now d')%Q)
    /\ (Doc.createdAt (DocHit.row d) <= Doc.createdAt (DocHit.row d') ->
        (DocHit._distance d' <= DocHit._distance d)%Q ->
        (scoreDocument now d c <= scoreDocument now d' c)%Q).
Proof.
  intros now d d' c. split; [|split; [|split]].
  - intro H. unfold temporalScore. rewrite H, Z.sub_diag.
    change (inject_Z 0) with 0%Q.
    assert (Hv : (1 - 0 / inject_Z twoHours == 1)%Q)
      by (unfold Qdiv; rewrite Qmult_0_l; lra).
    rewrite Q.max_r; [exact Hv|]. rewrite Hv. lra.
  - intro H. unfold temporalScore. apply Q.max_l.
    assert (Hq : (1 <= inject_Z (now - Doc.createdAt (DocHit.row d))
                       / inject_Z twoHours)%Q).
    { apply Qle_shift_div_l; [reflexivity|].
      rewrite Qmult_1_l. rewrite <- Zle_Qle. exact H. }
    lra.
  - apply temporalScore_mono.
  - intros Hage Hdist.
    pose proof (temporalScore_mono now d d' Hage) as Ht.
    assert (Hs : (semanticScore d <= semanticScore d')%Q).
    { unfold semanticScore. rewrite !orZero_eq. lra. }
    unfold scoreDocument. destruct c; lra.
Qed.

(** The theorem at the creation time of a fresh row, against a row
    older than two hours at the same distance. *)
Lemma scoring_is_monotone_witness :
  (temporalScore 10000000 (DocHit.mk freshTemporaryRow 1) == 1)%Q
  /\ (temporalScore 10000000 (DocHit.mk oldTemporaryRow 1) == 0)%Q
  /\ (scoreDocument 10000000 (DocHit.mk oldTemporaryRow 1) temporary
      <= scoreDocument 10000000 (DocHit.mk freshTemporaryRow 1) temporary)%Q.
Proof.
  destruct (scoring_is_monotone 10000000 (DocHit.mk freshTemporaryRow 1)
                                (DocHit.mk oldTemporaryRow 1) temporary)
    as (H1 & _).
  destruct (scoring_is_monotone 10000000 (DocHit.mk oldTemporaryRow 1)
                                (DocHit.mk freshTemporaryRow 1) temporary)
    as (_ & H2 & _ & H4).
  split; [apply H1; reflexivity|].
  split; [apply H2; unfold twoHours; cbn; lia|].
  apply H4; [cbn; lia|unfold Qle; cbn; lia].
Defined.

(** With a caller identity, the label of every returned entry tells who
    owns its row: [temporary] is a temporary row of the caller's user
    and session, [other] is a temporary row of another user or session,
    [permanent] is a row that is not temporary or has owner (0, 0).
    Without one, every entry is labelled [permanent], whatever its row. *)
Theorem labels_follow_ownership :
  forall (env : Env) (now : Z) (query : JS.str)
         (subjectId userId sessionId topK : option Z) (w w' : World)
         (docs : list Scored.t) (x : Scored.t),
    searchDocumentsWithContext env now query subjectId userId sessionId topK w
    = (Ok docs, w') ->
    In x docs ->
    match userId, sessionId with
    | Some u, Some s =>
        match Scored.category x with
        | temporary =>
            Doc.isTemporary (DocHit.row (Scored.doc x)) = true
            /\ Doc.userId (DocHit.row (Scored.doc x)) = u
            /\ Doc.sessionId (DocHit.row (Scored.doc x)) = s
        | permanent =>
            Doc.isTemporary (DocHit.row (Scored.doc x)) = false
            \/ (Doc.userId (DocHit.row (Scored.doc x)) = 0
                /\ Doc.sessionId (DocHit.row (Scored.doc x)) = 0)
        | other =>
            Doc.isTemporary (DocHit.row (Scored.doc x)) = true
            /\ (Doc.userId (DocHit.row (Scored.doc x)) <> u
                \/ Doc.sessionId (DocHit.row (Scored.doc x)) <> s)
        end
    | _, _ => Scored.category x = permanent
    end.
Proof.
  intros env now query subjectId userId sessionId topK w w' docs x Hrun Hx.
  apply searchDocumentsWithContext_returns in Hrun.
  destruct Hrun as (raw & ->).
  destruct (rankDocuments_source now subjectId userId sessionId
              (orDefault 10 topK) raw) as (kept & _ & _ & Heq).
  rewrite Heq in Hx. apply slice0_In in Hx. apply sort_In in Hx.
  destruct userId as [u|], sessionId as [s|];
    try (apply fallbackResults_entry in Hx; tauto).
  unfold scoredResults in Hx. rewrite !in_app_iff, !in_map_iff in Hx.
  destruct Hx as [(d & <- & Hd)|[(d & <- & Hd)|(d & <- & Hd)]];
    apply filter_In in Hd; destruct Hd as [_ Hd]; cbn.
  - unfold isTemporaryDoc, JS.strictEq in Hd.
    apply andb_prop in Hd. destruct Hd as [Hd Hs].
    apply andb_prop in Hd. destruct Hd as [Ht Hu].
    apply Z.eqb_eq in Hu, Hs. tauto.
  - unfold isPermanentDoc in Hd. apply orb_prop in Hd.
    destruct Hd as [Hd|Hd].
    + left. apply negb_true_iff. exact Hd.
    + right. apply andb_prop in Hd. destruct Hd as [Hu Hs].
      apply Z.eqb_eq in Hu, Hs. tauto.
  - unfold isOtherDoc, JS.strictEq in Hd.
    apply andb_prop in Hd. destruct Hd as [Ht Hd]. split; [exact Ht|].
    apply orb_prop in Hd. destruct Hd as [Hd|Hd];
      apply negb_true_iff, Z.eqb_neq in Hd; tauto.
Qed.

(** Scenario C of the specification: the temporary row of user 9,
    session 100 in a query of user 1, session 5. *)
Lemma labels_follow_ownership_witness :
  exists (docs : list Scored.t) (w' : World),
    searchDocumentsWithContext demoEnv 2000 (JS.lit "abc") (Some 2) (Some 1)
      (Some 5) (Some 5) busy = (Ok docs, w')
    /\ List.map (fun x => (Doc.documentId (DocHit.row (Scored.doc x)),
                           Scored.category x)) docs
       = [(7, permanent); (50, other)]
    /\ forall x, In x docs ->
                 match Scored.category x with
                 | temporary =>
                     Doc.isTemporary (DocHit.row (Scored.doc x)) = true
                     /\ Doc.userId (DocHit.row (Scored.doc x)) = 1
                     /\ Doc.sessionId (DocHit.row (Scored.doc x)) = 5
                 | permanent =>
                     Doc.isTemporary (DocHit.row (Scored.doc x)) = false
                     \/ (Doc.userId (DocHit.row (Scored.doc x)) = 0
                         /\ Doc.sessionId (DocHit.row (Scored.doc x)) = 0)
                 | other =>
                     Doc.isTemporary (DocHit.row (Scored.doc x)) = true
                     /\ (Doc.userId (DocHit.row (Scored.doc x)) <> 1
                         \/ Doc.sessionId (DocHit.row (Scored.doc x)) <> 5)
                 end.
Proof.
  eexists. eexists. split; [vm_compute; reflexivity|].
  split; [reflexivity|].
  intros x Hx.
  exact (labels_follow_ownership demoEnv 2000 (JS.lit "abc") (Some 2) (Some 1)
           (Some 5) (Some 5) busy _ _ x eq_refl Hx).
Defined.

(** ** Deleting transcripts row by row *)

Lemma filter_insert_length {A} (cmp : A -> A -> Q) (p : A -> bool) (x : A)
      (l : list A) :
  List.length (filter p (JS.insert cmp x l))
  = List.length (filter p (x :: l)).
Proof.
  induction l as [|y l IH]; cbn [JS.insert]; [reflexivity|].
  destruct (Qle_bool (cmp x y) 0); [reflexivity|].
  cbn [filter] in *. destruct (p y), (p x); cbn [List.length] in *; lia.
Qed.

Lemma filter_sort_length {A} (cmp : A -> A -> Q) (p : A -> bool)
      (l : list A) :
  List.length (filter p (JS.sort cmp l)) = List.length (filter p l).
Proof.
  induction l as [|x l IH]; cbn [JS.sort]; [reflexivity|].
  rewrite filter_insert_length. cbn [filter].
  destruct (p x); cbn [List.length]; rewrite IH; reflexivity.
Qed.

Lemma filter_map_length {A B} (f : A -> B) (p : B -> bool) (l : list A) :
  List.length (filter p (List.map f l))
  = List.length (filter (fun x => p (f x)) l).
Proof.
  induction l as [|x l IH]; [reflexivity|]. cbn [List.map filter].
  destruct (p (f x)); cbn [List.length]; rewrite IH; reflexivity.
Qed.

Lemma fetched_count {R} (vec : R -> Vec) env q (p : R -> bool)
      (rows : list R) :
  List.length (filter p (List.map fst (nearest vec env q rows)))
  = List.length (filter p rows).
Proof.
  unfold nearest.
  rewrite filter_map_length, filter_sort_length, filter_map_length.
  reflexivity.
Qed.

Lemma vecEqb_refl (a : Vec) : vecEqb a a = true.
Proof.
  unfold vecEqb. rewrite Nat.eqb_refl. cbn [andb].
  induction a as [|x a IH]; [reflexivity|]. cbn.
  rewrite Qeq_bool_refl. exact IH.
Qed.

(** One delete by vector on the transcripts table: either the store
    fails and the table is as before, or the rows with that vector are
    gone. *)
Lemma delete_vector_step (v : Vec) (w : World) (rows : list Video.row) :
  videoTable w = true -> video_transcripts w = Some rows ->
  exists (r : Result unit) (w1 : World) (kept : list Video.row),
    VideoTable.delete (vectorIs v) w = (r, w1)
    /\ videoTable w1 = true
    /\ video_transcripts w1 = Some kept
    /\ documents w1 = documents w
    /\ (kept = rows
        \/ (r = Ok tt
            /\ kept = filter (fun x => negb (vecEqb (Video.vector x) v))
                             rows)).
Proof.
  intros Hv Hrows.
  unfold VideoTable.delete, delete, bind, storeCall, rowsOf, modify, throw.
  cbn [vectorIs plan planEqual].
  destruct w as [docs vt d t vtb vs fs tr]. cbn in Hv, Hrows. subst.
  destruct fs as [|[|] fs]; cbn;
    eexists; eexists; eexists; (split; [reflexivity|]); cbn; auto 6.
Qed.

(** The loop over the rows to delete, whatever the store answers to each
    delete: the count grows by at most one per row, and a row of the
    table whose vector is the vector of none of the rows to delete
    stays. *)
Lemma deleteEach_any (records : list Video.row) :
  forall (n : Z) (w : World) (rows : list Video.row),
    videoTable w = true -> video_transcripts w = Some rows ->
    exists (m : Z) (w' : World) (kept : list Video.row),
      deleteEach records n w = (Ok m, w')
      /\ n <= m <= n + Z.of_nat (List.length records)
      /\ videoTable w' = true
      /\ video_transcripts w' = Some kept
      /\ documents w' = documents w
      /\ (forall x, In x kept -> In x rows)
      /\ (forall x, In x rows ->
                    (forall record, In record records ->
                                    vecEqb (Video.vector x)
                                           (Video.vector record) = false) ->
                    In x kept).
Proof.
  induction records as [|record records IH]; intros n w rows Hv Hrows.
  - exists n, w, rows. cbn [deleteEach List.length]. unfold ret.
    repeat split; auto; lia.
  - cbn [deleteEach]. unfold bind at 1, tryCatch, bind at 1.
    destruct (delete_vector_step (Video.vector record) w rows Hv Hrows)
      as (r & w1 & kept1 & Hrun & Hv1 & Hrows1 & Hd1 & Hkept1).
    rewrite Hrun.
    assert (Hsub1 : forall x, In x kept1 -> In x rows).
    { intros x Hx. destruct Hkept1 as [->|[_ ->]]; [exact Hx|].
      apply filter_In in Hx. tauto. }
    assert (Hstay1 : forall x, In x rows ->
                               vecEqb (Video.vector x) (Video.vector record)
                               = false ->
                               In x kept1).
    { intros x Hx Hne. destruct Hkept1 as [->|[_ ->]]; [exact Hx|].
      apply filter_In. rewrite Hne. tauto. }
    destruct r as [[]|]; unfold ret at 1.
    + destruct (IH (n + 1) w1 kept1 Hv1 Hrows1)
        as (m & w' & kept & Hrest & Hm & Hv' & Hrows' & Hd' & Hsub & Hstay).
      exists m, w', kept. rewrite Hrest. cbn [List.length].
      split; [reflexivity|]. split; [lia|]. split; [exact Hv'|].
      split; [exact Hrows'|]. split; [congruence|]. split.
      * intros x Hx. apply Hsub1, Hsub, Hx.
      * intros x Hx Hall. apply Hstay.
        -- apply Hstay1; [exact Hx|]. apply Hall. left. reflexivity.
        -- intros rec Hrec. apply Hall. right. exact Hrec.
    + destruct (IH n w1 kept1 Hv1 Hrows1)
        as (m & w' & kept & Hrest & Hm & Hv' & Hrows' & Hd' & Hsub & Hstay).
      exists m, w', kept. rewrite Hrest. cbn [List.length].
      split; [reflexivity|]. split; [lia|]. split; [exact Hv'|].
      split; [exact Hrows'|]. split; [congruence|]. split.
      * intros x Hx. apply Hsub1, Hsub, Hx.
      * intros x Hx Hall. apply Hstay.
        -- apply Hstay1; [exact Hx|]. apply Hall. left. reflexivity.
        -- intros rec Hrec. apply Hall. right. exact Hrec.
Qed.

(** A search of the transcripts without a filter: the store fails, or
    returns the nearest rows; the tables are as before. *)
Lemma VideoTable_search_cases env q (n : Z) (w : World)
      (rows : list Video.row) :
  0 < n -> videoTable w = true -> video_transcripts w = Some rows ->
  exists (r : Result (list (Video.row * Q))) (w1 : World),
    VideoTable.search env q None n w = (r, w1)
    /\ videoTable w1 = true
    /\ video_transcripts w1 = Some rows
    /\ documents w1 = documents w
    /\ table w1 = table w
    /\ (r = Thrown
        \/ r = Ok (firstn (Z.to_nat n) (nearest Video.vector env q rows))).
Proof.
  intros Hn Hv Hrows.
  unfold VideoTable.search, search, bind, storeCall, rowsOf, ret, throw.
  destruct (Z.leb_spec n 0); [lia|].
  destruct w as [docs vt d t vtb vs fs tr].
  cbn [videoTable video_transcripts] in Hv, Hrows. subst.
  destruct fs as [|[|] fs];
    cbn [faults videoTable video_transcripts setFaults];
    eexists; eexists; (split; [reflexivity|]);
    cbn [faults videoTable video_transcripts setFaults documents table];
    auto 6.
Qed.

(** The fetch of all transcripts: it fails and leaves the state of the
    tables, or returns every row when the table holds at most 10000. *)
Lemma fetch_all_transcripts env (w : World) (rows : list Video.row) :
  videoTable w = true -> video_transcripts w = Some rows ->
  Z.of_nat (List.length rows) <= 10000 ->
  exists (r : Result (list (Video.row * Q))) (w1 : World),
    VideoTable.search env zeroVector None 10000 w = (r, w1)
    /\ videoTable w1 = true
    /\ video_transcripts w1 = Some rows
    /\ documents w1 = documents w
    /\ table w1 = table w
    /\ (r = Thrown \/ r = Ok (nearest Video.vector env zeroVector rows)).
Proof.
  intros Hv Hrows Hlen.
  destruct (VideoTable_search_cases env zeroVector 10000 w rows
              ltac:(lia) Hv Hrows) as (r & w1 & H).
  rewrite firstn_all2 in H by (rewrite nearest_length; lia).
  exists r, w1. exact H.
Qed.

Lemma fetched_rows {R} (vec : R -> Vec) env q (rows : list R) (r : R) :
  In r (List.map fst (nearest vec env q rows)) <-> In r rows.
Proof.
  split.
  - intro H. apply in_map_iff in H. destruct H as (h & <- & Hh).
    apply nearest_In in Hh. tauto.
  - intro H. apply in_map_iff. exists (r, distance env (vec r) q).
    split; [reflexivity|]. apply nearest_In. cbn. tauto.
Qed.

(** Deleting the vectors of a video, on a service whose transcripts
    handle is set and whose table holds at most the 10000 rows the
    method fetches, whatever the store answers: the call returns a
    number between 0 and the number of rows of the video, and when the
    rows are deleted one by one (the table holding rows of other videos)
    every row whose vector is the vector of no row of the video is still
    in the table afterwards. *)
Theorem video_deletion_spares_other_vectors :
  forall (env : Env) (now videoId : Z) (w : World) (rows : list Video.row),
    videoTable w = true -> video_transcripts w = Some rows ->
    Z.of_nat (List.length rows) <= 10000 ->
    exists (n : Z) (w' : World),
      deleteVideoVectors env now videoId w = (Ok n, w')
      /\ 0 <= n <= Z.of_nat (List.length
                               (filter (fun r => Video.videoId r =? videoId)
                                       rows))
      /\ forall x,
          In x rows ->
          (forall r, In r rows -> Video.videoId r = videoId ->
                     vecEqb (Video.vector x) (Video.vector r) = false) ->
          exists kept, video_transcripts w' = Some kept /\ In x kept.
Proof.
  intros env now videoId w rows Hv Hrows Hlen.
  set (fetched := List.map fst (nearest Video.vector env zeroVector rows)).
  assert (Hcount : List.length (filter (fun r => Video.videoId r =? videoId)
                                       fetched)
                   = List.length (filter (fun r => Video.videoId r =? videoId)
                                         rows))
    by apply fetched_count.
  unfold deleteVideoVectors.
  rewrite (bind_unlessSet_set _ _ _ _ Hv).
  unfold tryCatch, bind at 1.
  destruct (fetch_all_transcripts env w rows Hv Hrows Hlen)
    as (r & w1 & Hfetch & Hv1 & Hrows1 & _ & _ & [->| ->]); rewrite Hfetch.
  - (* the fetch failed *)
    exists 0, w1. split; [reflexivity|]. split; [lia|].
    intros x Hx _. exists rows. split; assumption.
  - fold fetched.
    destruct (List.length
                (filter (fun r => (Video.videoId r =? videoId)%Z) fetched)
              =? 0)%nat eqn:Edel.
    + (* no row of the video *)
      exists 0, w1. split; [reflexivity|]. split; [lia|].
      intros x Hx _. exists rows. split; assumption.
    + destruct (List.length
                  (filter (fun r => negb (Video.videoId r =? videoId)%Z)
                          fetched)
                =? 0)%nat eqn:Ekeep.
      * (* only rows of the video: no row has another vector *)
        apply Nat.eqb_eq, length_zero_iff_nil in Ekeep.
        assert (Hall : forall r, In r rows -> Video.videoId r = videoId).
        { intros r Hr. destruct (Video.videoId r =? videoId) eqn:E;
            [apply Z.eqb_eq; exact E|].
          assert (H : In r (filter (fun r => negb (Video.videoId r
                                                   =? videoId)) fetched)).
          { apply filter_In. split; [apply fetched_rows; exact Hr|].
            rewrite E. reflexivity. }
          rewrite Ekeep in H. destruct H. }
        match goal with
        | |- context [bind ?m ?k w1] =>
            destruct (bind m k w1) as [[n|] w2] eqn:Hrun
        end.
        -- exists n, w2. split; [reflexivity|]. split.
           ++ unfold bind in Hrun.
              repeat match type of Hrun with
                     | context [match ?x with _ => _ end] =>
                         destruct x as [[?|] ?]; try discriminate
                     end.
              unfold ret in Hrun. injection Hrun as <- _. lia.
           ++ intros x Hx Hne. specialize (Hne x Hx (Hall x Hx)).
              rewrite vecEqb_refl in Hne. discriminate.
        -- exists 0, w2. split; [reflexivity|]. split; [lia|].
           intros x Hx Hne. specialize (Hne x Hx (Hall x Hx)).
           rewrite vecEqb_refl in Hne. discriminate.
      * (* rows of other videos: one delete per row *)
        destruct (deleteEach_any
                    (filter (fun r => Video.videoId r =? videoId) fetched)
                    0 w1 rows Hv1 Hrows1)
          as (m & w' & kept & Hrun & Hm & _ & Hkept & _ & _ & Hstay).
        rewrite Hrun. exists m, w'. split; [reflexivity|].
        split; [lia|].
        intros x Hx Hne. exists kept. split; [exact Hkept|].
        apply Hstay; [exact Hx|].
        intros record Hrec. apply filter_In in Hrec.
        destruct Hrec as [Hin Hid]. apply Hne.
        -- apply fetched_rows in Hin. exact Hin.
        -- apply Z.eqb_eq. exact Hid.
Qed.

(** The theorem on a table where a row of video 8 has the vector of the
    row of video 5, with a store that rejects the delete: nothing is
    counted, and the row of video 8 with a vector of its own stays. *)
Lemma video_deletion_spares_other_vectors_witness :
  videoTable (mkWorld (Some [])
                      (Some [transcriptRow 5 2; transcriptRow 8 2;
                             Video.mk [9%Q] (JS.lit "z") 8 1 0 0 2 1000])
                      true true true [] [false; true] []) = true
  /\ exists (n : Z) (w' : World),
      deleteVideoVectors demoEnv 2000 5
        (mkWorld (Some [])
                 (Some [transcriptRow 5 2; transcriptRow 8 2;
                        Video.mk [9%Q] (JS.lit "z") 8 1 0 0 2 1000])
                 true true true [] [false; true] [])
      = (Ok n, w')
      /\ 0 <= n <= 1
      /\ exists kept, video_transcripts w' = Some kept
                      /\ In (Video.mk [9%Q] (JS.lit "z") 8 1 0 0 2 1000) kept.
Proof.
  split; [reflexivity|].
  destruct (video_deletion_spares_other_vectors demoEnv 2000 5
              (mkWorld (Some [])
                       (Some [transcriptRow 5 2; transcriptRow 8 2;
                              Video.mk [9%Q] (JS.lit "z") 8 1 0 0 2 1000])
                       true true true [] [false; true] [])
              [transcriptRow 5 2; transcriptRow 8 2;
               Video.mk [9%Q] (JS.lit "z") 8 1 0 0 2 1000]
              eq_refl eq_refl ltac:(cbn; lia))
    as (n & w' & Hrun & Hn & Hstay).
  exists n, w'. split; [exact Hrun|]. split; [exact Hn|].
  apply Hstay; [cbn; auto|].
  intros r [<-|[<-|[<-|[]]]] Hid; try reflexivity; discriminate.
Defined.

(** The documents half of [deleteAllVectors] when the store answers its
    three calls: the predicate [1 = 1] holds of every row. *)
Lemma bulk_documents_half (w : World) (docRows : list Doc.row) :
  table w = true -> documents w = Some docRows ->
  forallb negb (firstn 3 (faults w)) = true ->
  exists w1 : World,
    tryCatch
      (docsBefore <- DocTable.countRows ;;
       DocTable.delete (IsEqual (Number 1) (Number 1)) ;;
       docsAfter <- DocTable.countRows ;;
       ret (docsBefore - docsAfter))
      (ret 0) w
    = (Ok (Z.of_nat (List.length docRows)), w1)
    /\ documents w1 = Some []
    /\ video_transcripts w1 = video_transcripts w
    /\ videoTable w1 = videoTable w.
Proof.
  intros Ht Hd Hf.
  assert (Hnil : filter (fun _ : Doc.row => negb (1 =? 1)) docRows = [])
    by (apply filter_none; reflexivity).
  unfold tryCatch, bind, DocTable.countRows, DocTable.delete, countRows,
    delete, bind, storeCall, rowsOf, modify, ret.
  cbn [plan planEqual].
  destruct w as [docs vt d t vtb vs fs tr]. cbn in Ht, Hd, Hf. subst.
  destruct fs as [|[|] [|[|] [|[|] fs]]]; try discriminate;
    cbn [faults table documents setFaults setDocuments video_transcripts
         videoTable];
    rewrite Hnil; cbn [List.length Z.of_nat];
    rewrite Z.sub_0_r; eexists; split; try reflexivity; auto.
Qed.

(** The transcripts half of [deleteAllVectors], whatever the store
    answers. *)
Lemma bulk_transcripts_half env (w : World) (videoRows : list Video.row) :
  videoTable w = true -> video_transcripts w = Some videoRows ->
  exists (m : Z) (w' : World),
    tryCatch
      (VideoTable.countRows ;;
       allVideoRecords <- VideoTable.search env zeroVector None 10000 ;;
       deleteEach (List.map fst allVideoRecords) 0)
      (ret 0) w
    = (Ok m, w')
    /\ 0 <= m <= Z.of_nat (List.length videoRows)
    /\ documents w' = documents w.
Proof.
  intros Hv Hrows. unfold tryCatch, bind at 1.
  assert (Hcount : exists r w1,
             VideoTable.countRows w = (r, w1)
             /\ videoTable w1 = true /\ video_transcripts w1 = Some videoRows
             /\ documents w1 = documents w).
  { unfold VideoTable.countRows, countRows, bind, storeCall, rowsOf, ret.
    destruct w as [docs vt d t vtb vs fs tr]. cbn in Hv, Hrows. subst.
    destruct fs as [|[|] fs]; cbn; eexists; eexists;
      (split; [reflexivity|]); cbn; auto. }
  destruct Hcount as (r & w1 & Hrun & Hv1 & Hrows1 & Hd1). rewrite Hrun.
  destruct r as [c|];
    [|exists 0, w1; unfold ret; repeat split; try lia; exact Hd1].
  unfold bind at 1.
  destruct (VideoTable_search_cases env zeroVector 10000 w1 videoRows
              ltac:(lia) Hv1 Hrows1)
    as (r & w2 & Hrun2 & Hv2 & Hrows2 & Hd2 & _ & [->| ->]);
    rewrite Hrun2.
  - exists 0, w2. unfold ret. repeat split; try lia. congruence.
  - destruct (deleteEach_any
                (List.map fst (firstn (Z.to_nat 10000)
                                      (nearest Video.vector env zeroVector
                                               videoRows)))
                0 w2 videoRows Hv2 Hrows2)
      as (m & w' & kept & Hrun3 & Hm & _ & _ & Hd3 & _).
    rewrite Hrun3. exists m, w'. split; [reflexivity|].
    rewrite length_map, length_firstn, nearest_length in Hm.
    split; [lia|congruence].
Qed.

(** [deleteAllVectors] on an initialized service never throws, whatever
    the store does.  When the store answers the three calls on the
    documents table, that table is empty afterwards, and the number
    returned counts its rows and at most the rows of the transcripts
    table, one for every delete by vector that the store accepted. *)
Theorem bulk_deletion_never_throws :
  forall (env : Env) (now : Z) (w : World),
    initialized w ->
    fst (deleteAllVectors env now w) <> Thrown
    /\ forall (docRows : list Doc.row) (videoRows : list Video.row),
        documents w = Some docRows -> video_transcripts w = Some videoRows ->
        forallb negb (firstn 3 (faults w)) = true ->
        exists (n : Z) (w' : World),
          deleteAllVectors env now w = (Ok n, w')
          /\ documents w' = Some []
          /\ Z.of_nat (List.length docRows) <= n
             <= Z.of_nat (List.length docRows)
                + Z.of_nat (List.length videoRows).
Proof.
  intros env now w [Ht Hv]. unfold deleteAllVectors.
  rewrite (bind_unlessSet_set (fun w => table w && videoTable w) _ _ _)
    by (rewrite Ht, Hv; reflexivity).
  split.
  - unfold tryCatch at 1, bind at 1.
    match goal with
    | |- context [tryCatch ?m (ret 0) w] =>
        pose proof (tryCatch_ret_returns m 0 w) as H1;
        destruct (tryCatch m (ret 0) w) as [[n1|] w1]
    end; [|contradiction H1; reflexivity].
    unfold bind at 1.
    match goal with
    | |- context [tryCatch ?m (ret 0) w1] =>
        pose proof (tryCatch_ret_returns m 0 w1) as H2;
        destruct (tryCatch m (ret 0) w1) as [[n2|] w2]
    end; [|contradiction H2; reflexivity].
    cbn. discriminate.
  - intros docRows videoRows Hd Hr Hf.
    unfold tryCatch at 1, bind at 1.
    destruct (bulk_documents_half w docRows Ht Hd Hf)
      as (w1 & Hdocs & Hd1 & Hr1 & Hv1).
    rewrite Hdocs. unfold bind at 1.
    destruct (bulk_transcripts_half env w1 videoRows)
      as (m & w' & Hvids & Hm & Hd'); [congruence|congruence|].
    rewrite Hvids. unfold ret.
    exists (Z.of_nat (List.length docRows) + m), w'.
    split; [reflexivity|]. split; [congruence|lia].
Qed.

(** The theorem on the service with two documents and two transcripts,
    with a store that rejects every delete by vector: the documents are
    gone and counted, the transcripts stay. *)
Lemma bulk_deletion_never_throws_witness :
  initialized (mkWorld (Some [permanentRow; ownedRow])
                       (Some [transcriptRow 5 2; transcriptRow 8 2])
                       true true true []
                       [false; false; false; false; false; true; true] [])
  /\ deleteAllVectors demoEnv 2000
       (mkWorld (Some [permanentRow; ownedRow])
                (Some [transcriptRow 5 2; transcriptRow 8 2])
                true true true []
                [false; false; false; false; false; true; true] [])
     = (Ok 2,
        mkWorld (Some []) (Some [transcriptRow 5 2; transcriptRow 8 2])
                true true true [] [] [])
  /\ fst (deleteAllVectors demoEnv 2000
            (mkWorld (Some [permanentRow; ownedRow])
                     (Some [transcriptRow 5 2; transcriptRow 8 2])
                     true true true []
                     [false; false; false; false; false; true; true] []))
     <> Thrown.
Proof.
  assert (Hi : initialized
                 (mkWorld (Some [permanentRow; ownedRow])
                          (Some [transcriptRow 5 2; transcriptRow 8 2])
                          true true true []
                          [false; false; false; false; false; true; true] []))
    by (split; reflexivity).
  split; [exact Hi|]. split; [vm_compute; reflexivity|].
  apply (proj1 (bulk_deletion_never_throws demoEnv 2000 _ Hi)).
Defined.

(** ** Statistics *)

Lemma filter_overlap_length {A} (p q : A -> bool) (l : list A) :
  (forall x, In x l -> p x || q x = true) ->
  (List.length (filter p l) + List.length (filter q l)
   = List.length l + List.length (filter (fun x => p x && q x) l))%nat.
Proof.
  induction l as [|x l IH]; intro H; [reflexivity|].
  assert (Hx := H x (or_introl eq_refl)).
  specialize (IH (fun y Hy => H y (or_intror Hy))).
  cbn [filter]. destruct (p x), (q x); cbn in Hx |- *;
    try discriminate; lia.
Qed.

(** With a store that answers and at most the 10000 rows it fetches,
    [getVectorStats] changes nothing and reports: the number of rows;
    the number of rows flagged temporary; a permanent count that takes
    in the temporary rows with user 0 and session 0, so that the two
    counts exceed the total by the number of those rows; as
    [expiredCount] the number of temporary rows created before the
    cutoff, two hours before now on the local clock; and the cutoff in
    ISO form.  The expired rows it counts are rows that the sweep, run
    at the same instant, does not remove: the sweep throws. *)
Theorem stats_count_ownerless_twice :
  forall (env : Env) (now : Z) (w : World) (rows : list Doc.row),
    table w = true -> documents w = Some rows -> faults w = [] ->
    Z.of_nat (List.length rows) <= 10000 ->
    exists s : Stats.t,
      getVectorStats env now w = (Ok s, w)
      /\ Stats.totalCount s = Z.of_nat (List.length rows)
      /\ Stats.temporaryCount s = countWhere Doc.isTemporary rows
      /\ Stats.permanentCount s = countWhere countedPermanent rows
      /\ Stats.expiredCount s = countWhere (expired (calendar env) now) rows
      /\ Stats.cutoffDate s
         = JS.toISOString (utc (calendar env)
                               (localTime (calendar env) now
                                - 2 * 60 * 60 * 1000))
      /\ Stats.temporaryCount s + Stats.permanentCount s
         = Stats.totalCount s + countWhere ownerlessTemporary rows
      /\ fst (cleanupExpiredTemporaryVectors env now w) = Thrown
      /\ documents (snd (cleanupExpiredTemporaryVectors env now w))
         = Some rows.
Proof.
  intros env now w rows Ht Hd Hf Hlen.
  assert (Hsweep : fst (cleanupExpiredTemporaryVectors env now w) = Thrown
                   /\ documents (snd (cleanupExpiredTemporaryVectors env now w))
                      = Some rows).
  { unfold cleanupExpiredTemporaryVectors.
    rewrite (bind_unlessSet_set _ _ _ _ Ht). cbv zeta.
    destruct (counted_rejected_delete
                (Both (IsEqual (Text (JS.lit "isTemporary")) (Boolean true))
                      (IsLess (Text (JS.lit "createdAt"))
                              (Text (JS.toISOString
                                       (twoHoursAgo (calendar env) now)))))
                w (sweep_predicate_rejected _))
      as (w' & Hrun & Hd' & _).
    rewrite Hrun. cbn [fst snd]. split; [reflexivity|congruence]. }
  unfold getVectorStats.
  rewrite !(bind_unlessSet_set table _ _ _) by exact Ht.
  unfold tryCatch, bind at 1, DocTable.countRows.
  rewrite (run_countRows documents table w rows Ht Hd Hf).
  unfold bind at 1, DocTable.search.
  rewrite (run_search documents table Doc.vector env w rows Ht Hd Hf)
    by lia.
  rewrite firstn_all2 by (rewrite nearest_length; lia).
  unfold ret. eexists. split; [reflexivity|].
  cbn [Stats.totalCount Stats.temporaryCount Stats.permanentCount
       Stats.expiredCount Stats.cutoffDate fst].
  unfold countWhere. rewrite !fetched_count.
  repeat (split; [reflexivity|]).
  split; [|exact Hsweep].
  pose proof (filter_overlap_length Doc.isTemporary countedPermanent rows)
    as Hsum.
  assert (Hcover : forall x, In x rows ->
                     Doc.isTemporary x || countedPermanent x = true).
  { intros x _. unfold countedPermanent. destruct (Doc.isTemporary x);
      reflexivity. }
  specialize (Hsum Hcover).
  assert (Hsame : filter (fun x => Doc.isTemporary x && countedPermanent x)
                         rows
                  = filter ownerlessTemporary rows).
  { apply filter_ext. intro x. unfold countedPermanent, ownerlessTemporary.
    destruct (Doc.isTemporary x); cbn; [|reflexivity].
    reflexivity. }
  rewrite Hsame in Hsum. lia.
Qed.

(** The theorem three hours after the epoch, in a process whose clock is
    one hour ahead of UTC, on a table with a permanent row, an ownerless
    temporary row, an old and a fresh temporary row: four rows, three
    temporary, two permanent and two expired. *)
Lemma stats_count_ownerless_twice_witness :
  exists s : Stats.t,
    getVectorStats
      (mkEnvIn (mkCalendar (fun t => t + 3600000) (fun l => l - 3600000))
               (getEmbedding demoEnv) (distance demoEnv) false)
      10800000
      (running [permanentRow; ownerlessRow; oldTemporaryRow;
                freshTemporaryRow] [])
    = (Ok s, running [permanentRow; ownerlessRow; oldTemporaryRow;
                      freshTemporaryRow] [])
    /\ (Stats.totalCount s, Stats.temporaryCount s, Stats.permanentCount s,
        Stats.expiredCount s) = (4, 3, 2, 2)
    /\ Stats.cutoffDate s = JS.lit "1970-01-01T01:00:00.000Z".
Proof.
  destruct (stats_count_ownerless_twice
              (mkEnvIn (mkCalendar (fun t => t + 3600000)
                                   (fun l => l - 3600000))
                       (getEmbedding demoEnv) (distance demoEnv) false)
              10800000
              (running [permanentRow; ownerlessRow; oldTemporaryRow;
                        freshTemporaryRow] [])
              [permanentRow; ownerlessRow; oldTemporaryRow; freshTemporaryRow]
              eq_refl eq_refl eq_refl ltac:(cbn; lia))
    as (s & Hrun & Htot & Htmp & Hperm & Hexp & Hcut & _).
  exists s. split; [exact Hrun|].
  rewrite Htot, Htmp, Hperm, Hexp, Hcut. split; vm_compute; reflexivity.
Defined.

(** ** Transcript chunks *)

Lemma trimStart_head (s : JS.str) :
  JS.trimStart s = []
  \/ exists c t, JS.trimStart s = c :: t /\ JS.isWhiteSpace c = false.
Proof.
  induction s as [|c s IH]; cbn [JS.trimStart]; [left; reflexivity|].
  destruct (JS.isWhiteSpace c) eqn:E; [exact IH|].
  right. exists c, s. split; [reflexivity|exact E].
Qed.

Lemma trimStart_In (c : N) (s : JS.str) :
  In c (JS.trimStart s) -> In c s.
Proof.
  induction s as [|x s IH]; cbn [JS.trimStart]; [tauto|].
  destruct (JS.isWhiteSpace x); [|tauto].
  intro H. right. apply IH. exact H.
Qed.

Lemma trimStart_nil (s : JS.str) :
  JS.trimStart s = [] -> forall c, In c s -> JS.isWhiteSpace c = true.
Proof.
  induction s as [|x s IH]; cbn [JS.trimStart]; [intros _ c []|].
  destruct (JS.isWhiteSpace x) eqn:E; [|discriminate].
  intros H c [<-|Hc]; [exact E|]. apply IH; assumption.
Qed.

Lemma trimStart_snoc (l : JS.str) (c : N) :
  JS.isWhiteSpace c = false ->
  JS.trimStart (l ++ [c]) = JS.trimStart l ++ [c].
Proof.
  intro Hc. induction l as [|x l IH]; cbn [JS.trimStart app].
  - rewrite Hc. reflexivity.
  - destruct (JS.isWhiteSpace x); [exact IH|reflexivity].
Qed.

Lemma trimStart_length (s : JS.str) :
  (List.length (JS.trimStart s) <= List.length s)%nat.
Proof.
  induction s as [|x s IH]; cbn [JS.trimStart]; [lia|].
  destruct (JS.isWhiteSpace x); cbn [List.length]; lia.
Qed.

Lemma trim_length (s : JS.str) :
  (List.length (JS.trim s) <= List.length s)%nat.
Proof.
  unfold JS.trim, JS.trimEnd. rewrite length_rev.
  pose proof (trimStart_length (rev (JS.trimStart s))) as H1.
  rewrite length_rev in H1. pose proof (trimStart_length s). lia.
Qed.

Lemma trim_In (c : N) (s : JS.str) : In c (JS.trim s) -> In c s.
Proof.
  unfold JS.trim, JS.trimEnd. intro H.
  apply in_rev in H. apply trimStart_In in H. apply in_rev in H.
  apply trimStart_In in H. exact H.
Qed.

(** What [trim] leaves is empty or begins and ends with a code unit
    that is not white space. *)
Lemma trim_tight (s : JS.str) : JS.trim s <> [] -> tight (JS.trim s).
Proof.
  unfold JS.trim, JS.trimEnd. intro Hne.
  destruct (trimStart_head s) as [E|(c & t & E & Hc)].
  - rewrite E in Hne. contradiction Hne. reflexivity.
  - rewrite E in *. cbn [rev] in *.
    rewrite (trimStart_snoc (rev t) c Hc) in *.
    split.
    + exists c. split; [|exact Hc]. unfold firstUnit.
      rewrite rev_app_distr. reflexivity.
    + unfold lastUnit. rewrite rev_involutive.
      destruct (trimStart_head (rev t)) as [E'|(c' & t' & E' & Hc')];
        rewrite E'.
      * exists c. split; [reflexivity|exact Hc].
      * exists c'. split; [reflexivity|exact Hc'].
Qed.

Lemma trim_of_tight (s : JS.str) : tight s -> JS.trim s = s.
Proof.
  intros [(c & Hf & Hc) (c' & Hl & Hc')].
  unfold JS.trim, JS.trimEnd, firstUnit, lastUnit in *.
  destruct s as [|x s]; [discriminate|]. cbn in Hf. injection Hf as ->.
  cbn [JS.trimStart]. rewrite Hc.
  destruct (rev (c :: s)) as [|y r] eqn:E; [discriminate|].
  cbn in Hl. injection Hl as ->.
  cbn [JS.trimStart]. rewrite Hc'. rewrite <- E. apply rev_involutive.
Qed.

Lemma trim_nil_blank (s : JS.str) :
  JS.trim s = [] -> forall c, In c s -> JS.isWhiteSpace c = true.
Proof.
  intro H. apply trimStart_nil.
  destruct (trimStart_head s) as [E|(c & t & E & Hc)]; [exact E|].
  exfalso. unfold JS.trim, JS.trimEnd in H. rewrite E in H.
  cbn [rev] in H. rewrite (trimStart_snoc (rev t) c Hc) in H.
  rewrite rev_app_distr in H. discriminate.
Qed.

Lemma sentence_end_not_blank (c : N) :
  isSentenceEnd c = true -> JS.isWhiteSpace c = false.
Proof.
  unfold isSentenceEnd. rewrite !orb_true_iff, !N.eqb_eq.
  intros [[[[[->| ->]| ->]| ->]| ->]| ->]; reflexivity.
Qed.

Lemma splitSentences_plain (s : JS.str) :
  forall (piece : JS.str) (inRun : bool),
    plain piece -> Forall plain (splitSentences s piece inRun).
Proof.
  induction s as [|c s IH]; intros piece inRun Hp; cbn [splitSentences].
  - constructor; [exact Hp|constructor].
  - destruct (isSentenceEnd c) eqn:E.
    + assert (Hnil : plain []) by (intros x []).
      destruct inRun; [apply IH; exact Hnil|].
      constructor; [exact Hp|apply IH; exact Hnil].
    + apply IH. intros x Hx. apply in_app_or in Hx.
      destruct Hx as [Hx|[<-|[]]]; [apply Hp; exact Hx|exact E].
Qed.

Lemma splitSentences_blank (s : JS.str) :
  (forall c, In c s -> JS.isWhiteSpace c = true) ->
  forall piece, splitSentences s piece false = [piece ++ s].
Proof.
  induction s as [|c s IH]; intros Hs piece; cbn [splitSentences].
  - rewrite app_nil_r. reflexivity.
  - destruct (isSentenceEnd c) eqn:E.
    + apply sentence_end_not_blank in E.
      rewrite (Hs c (or_introl eq_refl)) in E. discriminate.
    + rewrite IH by (intros x Hx; apply Hs; right; exact Hx).
      rewrite <- app_assoc. reflexivity.
Qed.

(** Every sentence is trimmed, not empty and free of terminators. *)
Lemma sentencesOf_shape (transcript : JS.str) :
  Forall (fun s => tight s /\ plain s) (sentencesOf transcript).
Proof.
  apply Forall_forall. intros s Hs. unfold sentencesOf in Hs.
  apply filter_In in Hs. destruct Hs as [Hs Hlen].
  apply in_map_iff in Hs. destruct Hs as (raw & <- & Hraw).
  split.
  - apply trim_tight. intro E. rewrite E in Hlen. discriminate.
  - pose proof (splitSentences_plain transcript [] false) as Hp.
    rewrite Forall_forall in Hp.
    intros c Hc. apply trim_In in Hc.
    apply (Hp (fun x H => match H with end) raw Hraw c Hc).
Qed.

Lemma sentencesOf_blank (transcript : JS.str) :
  JS.trim transcript = [] -> sentencesOf transcript = [].
Proof.
  intro H. unfold sentencesOf.
  rewrite (splitSentences_blank transcript (trim_nil_blank _ H) []).
  cbn [app List.map]. rewrite H. reflexivity.
Qed.

Lemma lastUnit_app (a b : JS.str) :
  b <> [] -> lastUnit (a ++ b) = lastUnit b.
Proof.
  intro Hb. unfold lastUnit. rewrite rev_app_distr.
  destruct (rev b) as [|x r] eqn:E; [|reflexivity].
  apply (f_equal (@rev N)) in E. rewrite rev_involutive in E.
  contradiction.
Qed.

Lemma tight_nonempty (s : JS.str) : tight s -> s <> [].
Proof. intros [(c & H & _) _] ->. discriminate. Qed.

(** A group of sentences joined by [". "]: the result is trimmed and
    ends with the last code unit of a sentence. *)
Lemma join_shape (l : list JS.str) :
  Forall (fun s => tight s /\ plain s) l -> l <> [] ->
  tight (join (JS.lit ". ") l)
  /\ exists c, lastUnit (join (JS.lit ". ") l) = Some c
               /\ isSentenceEnd c = false.
Proof.
  induction l as [|s l IH]; intros Hall Hne; [contradiction|].
  inversion Hall as [|? ? [Hs Hp] Hl]; subst.
  assert (Hlast : exists c, lastUnit s = Some c /\ isSentenceEnd c = false).
  { destruct Hs as [_ (c & Hc & _)]. exists c. split; [exact Hc|].
    apply Hp. apply in_rev. unfold lastUnit in Hc.
    destruct (rev s) as [|x r]; [discriminate|].
    injection Hc as ->. left. reflexivity. }
  destruct l as [|s' l']; [cbn [join]; split; assumption|].
  destruct (IH Hl ltac:(discriminate)) as [Ht Hc].
  change (join (JS.lit ". ") (s :: s' :: l'))
    with (s ++ JS.lit ". " ++ join (JS.lit ". ") (s' :: l')).
  set (tail := join (JS.lit ". ") (s' :: l')) in *.
  assert (Hne' : tail <> []) by (apply tight_nonempty; exact Ht).
  assert (Hl' : lastUnit (s ++ JS.lit ". " ++ tail) = lastUnit tail).
  { rewrite app_assoc. apply lastUnit_app. exact Hne'. }
  split; [split|].
  - destruct Hs as [(c & Hf & Hw) _]. exists c. split; [|exact Hw].
    unfold firstUnit in *. destruct s; [discriminate|exact Hf].
  - rewrite Hl'. exact (proj2 Ht).
  - rewrite Hl'. exact Hc.
Qed.

Lemma group_shape (sentences : list JS.str) (i : nat) :
  Forall (fun s => tight s /\ plain s) sentences ->
  (i < List.length sentences)%nat ->
  let chunkText := join (JS.lit ". ") (firstn 10 (skipn i sentences)) in
  JS.trim chunkText = chunkText /\ chunkText <> []
  /\ endsWithDot chunkText = false.
Proof.
  intros Hall Hi chunkText.
  assert (Hg : Forall (fun s => tight s /\ plain s)
                      (firstn 10 (skipn i sentences))).
  { apply Forall_forall. intros s Hs. rewrite Forall_forall in Hall.
    apply Hall. apply firstn_In in Hs.
    rewrite <- (firstn_skipn i sentences). apply in_or_app. right.
    exact Hs. }
  assert (Hne : firstn 10 (skipn i sentences) <> []).
  { intro E. apply (f_equal (@List.length JS.str)) in E.
    rewrite length_firstn, length_skipn in E. cbn [List.length] in E.
    lia. }
  destruct (join_shape _ Hg Hne) as [Ht (c & Hc & He)].
  fold chunkText in Ht, Hc.
  split; [apply trim_of_tight; exact Ht|].
  split; [apply tight_nonempty; exact Ht|].
  unfold endsWithDot. unfold lastUnit in Hc.
  destruct (rev chunkText) as [|x r]; [reflexivity|].
  injection Hc as ->. apply N.eqb_neq. intros ->. discriminate.
Qed.

Lemma ceil_tenth_step (n i : nat) :
  (i < n)%nat -> ((n - i + 9) / 10 = S ((n - (i + 10) + 9) / 10))%nat.
Proof.
  intro H. destruct (Nat.le_gt_cases (n - i) 10) as [Hs|Hs].
  - replace (n - (i + 10))%nat with 0%nat by lia.
    change ((0 + 9) / 10)%nat with 0%nat.
    symmetry. apply (Nat.div_unique _ _ _ (n - i - 1)); lia.
  - replace (n - i + 9)%nat with (n - (i + 10) + 9 + 1 * 10)%nat by lia.
    rewrite Nat.div_add by discriminate. lia.
Qed.

Lemma ceil_tenth_done (n i : nat) :
  (n <= i)%nat -> ((n - i + 9) / 10 = 0)%nat.
Proof.
  intro H. replace (n - i)%nat with 0%nat by lia. reflexivity.
Qed.

(** The loop in closed form, for sentences of the shape that
    [sentencesOf] gives and enough turns. *)
Lemma chunkLoop_closed (videoId : Z) (sentences : list JS.str) :
  Forall (fun s => tight s /\ plain s) sentences ->
  forall (turns i : nat) (chunkIndex : Z),
    (List.length sentences <= i + 10 * turns)%nat ->
    chunkLoop turns videoId sentences i chunkIndex
    = List.map
        (fun k =>
           NewChunk.mk videoId 0 0
             (join (JS.lit ". ") (firstn 10 (skipn (i + 10 * k) sentences))
              ++ JS.lit ".")
             (chunkIndex + Z.of_nat k))
        (seq 0 ((List.length sentences - i + 9) / 10)).
Proof.
  intro Hall. induction turns as [|turns IH]; intros i chunkIndex Hn.
  - rewrite ceil_tenth_done by lia. reflexivity.
  - cbn [chunkLoop].
    destruct (i <? List.length sentences)%nat eqn:Ei.
    + apply Nat.ltb_lt in Ei.
      destruct (group_shape sentences i Hall Ei) as (Htrim & Hne & Hdot).
      cbv zeta in Htrim, Hne, Hdot. rewrite Htrim, Hdot.
      destruct (join (JS.lit ". ") (firstn 10 (skipn i sentences)))
        as [|x r] eqn:Ej; [contradiction Hne; reflexivity|].
      cbn [List.length Nat.ltb Nat.leb].
      rewrite (ceil_tenth_step _ _ Ei). cbn [seq List.map].
      rewrite Nat.mul_0_r, Nat.add_0_r, Ej, Z.add_0_r.
      f_equal. rewrite IH by lia. rewrite <- seq_shift, map_map.
      apply map_ext. intro k. f_equal.
      * replace (i + 10 * S k)%nat with (i + 10 + 10 * k)%nat by lia.
        reflexivity.
      * lia.
    + apply Nat.ltb_ge in Ei. rewrite ceil_tenth_done by lia. reflexivity.
Qed.

Lemma createTranscriptChunks_closed (videoId : Z) (transcript : JS.str)
      (duration : Z) :
  createTranscriptChunks videoId transcript duration
  = List.map
      (fun k =>
         NewChunk.mk videoId 0 0 (groupText (sentencesOf transcript) k)
                     (Z.of_nat k))
      (seq 0 ((List.length (sentencesOf transcript) + 9) / 10)).
Proof.
  unfold createTranscriptChunks.
  destruct (negb (JS.truthy transcript)
            || (List.length (JS.trim transcript) =? 0)%nat) eqn:Eg.
  - assert (Hb : JS.trim transcript = []).
    { apply orb_true_iff in Eg. destruct Eg as [Eg|Eg].
      - destruct transcript; [reflexivity|discriminate].
      - apply Nat.eqb_eq in Eg. apply length_zero_iff_nil. exact Eg. }
    rewrite (sentencesOf_blank _ Hb). reflexivity.
  - cbv zeta.
    destruct (List.length (sentencesOf transcript) =? 0)%nat eqn:En.
    + apply Nat.eqb_eq in En. rewrite En. reflexivity.
    + rewrite (chunkLoop_closed videoId _ (sentencesOf_shape transcript))
        by lia.
      rewrite Nat.sub_0_r. apply map_ext. intro k. reflexivity.
Qed.

(** [createTranscriptChunks] in closed form: one chunk for every group
    of ten sentences, in order, numbered from 0, whose text is the
    sentences of the group joined by [". "] and closed by a full stop;
    both times are 0.  In particular the test on the trimmed chunk text
    never fails and no chunk is skipped. *)
Theorem transcript_chunks_closed_form :
  forall (videoId : Z) (transcript : JS.str) (duration : Z),
    createTranscriptChunks videoId transcript duration
    = List.map
        (fun k =>
           NewChunk.mk videoId 0 0 (groupText (sentencesOf transcript) k)
                       (Z.of_nat k))
        (seq 0 ((List.length (sentencesOf transcript) + 9) / 10)).
Proof.
  intros videoId transcript duration.
  apply createTranscriptChunks_closed.
Qed.

Lemma join_In (sep : JS.str) (l : list JS.str) (u : N) :
  In u (join sep l) -> In u sep \/ exists s, In s l /\ In u s.
Proof.
  induction l as [|s l IH]; [intros []|].
  destruct l as [|s' l'].
  - cbn [join]. intro H. right. exists s. split; [left; reflexivity|exact H].
  - change (join sep (s :: s' :: l'))
      with (s ++ sep ++ join sep (s' :: l')).
    intro H. apply in_app_or in H. destruct H as [H|H].
    + right. exists s. split; [left; reflexivity|exact H].
    + apply in_app_or in H. destruct H as [H|H]; [left; exact H|].
      destruct (IH H) as [H'|(x & Hx & Hu)]; [left; exact H'|].
      right. exists x. split; [right; exact Hx|exact Hu].
Qed.

(** Every chunk that [createTranscriptChunks] returns passes the test
    [chunk.text && chunk.text.trim().length > 0] of
    [processVideoTranscriptChunks], whatever identifier the storage gives
    it; its text is trimmed and ends with a full stop, and the full stop
    is the only sentence terminator left in it: every [!], [?] and
    ideographic terminator of the transcript has been replaced. *)
Theorem transcript_chunk_texts :
  forall (videoId : Z) (transcript : JS.str) (duration : Z)
         (c : NewChunk.t) (id : option Z),
    In c (createTranscriptChunks videoId transcript duration) ->
    nonEmptyChunk (Chunk.mk id (NewChunk.text c) (NewChunk.chunkIndex c))
    = true
    /\ JS.trim (NewChunk.text c) = NewChunk.text c
    /\ endsWithDot (NewChunk.text c) = true
    /\ forall u, In u (NewChunk.text c) -> isSentenceEnd u = true ->
                 u = 46%N.
Proof.
  intros videoId transcript duration c id Hc.
  rewrite createTranscriptChunks_closed in Hc.
  apply in_map_iff in Hc. destruct Hc as (k & <- & Hk).
  apply in_seq in Hk. cbn [NewChunk.text NewChunk.chunkIndex].
  set (sentences := sentencesOf transcript) in *.
  assert (Hi : (10 * k < List.length sentences)%nat).
  { pose proof (Nat.Div0.mul_div_le (List.length sentences + 9) 10).
    lia. }
  pose proof (sentencesOf_shape transcript) as Hall. fold sentences in Hall.
  assert (Hg : Forall (fun s => tight s /\ plain s)
                      (firstn 10 (skipn (10 * k) sentences))).
  { apply Forall_forall. intros s Hs. rewrite Forall_forall in Hall.
    apply Hall. apply firstn_In in Hs.
    rewrite <- (firstn_skipn (10 * k) sentences). apply in_or_app. right.
    exact Hs. }
  assert (Hne : firstn 10 (skipn (10 * k) sentences) <> []).
  { intro E. apply (f_equal (@List.length JS.str)) in E.
    rewrite length_firstn, length_skipn in E. cbn [List.length] in E.
    lia. }
  destruct (join_shape _ Hg Hne) as [[(f & Hf & Hfw) _] _].
  unfold groupText.
  set (joined := join (JS.lit ". ")
                      (firstn 10 (skipn (10 * k) sentences))) in *.
  assert (Htight : tight (joined ++ JS.lit ".")).
  { split.
    - exists f. split; [|exact Hfw]. unfold firstUnit in *.
      destruct joined; [discriminate|exact Hf].
    - exists 46%N. split; [|reflexivity]. unfold lastUnit.
      rewrite rev_app_distr. reflexivity. }
  assert (Htrim := trim_of_tight _ Htight).
  split; [|split; [exact Htrim|split]].
  - unfold nonEmptyChunk. cbn [Chunk.text]. rewrite Htrim.
    destruct (joined ++ JS.lit ".") eqn:E; [|reflexivity].
    apply app_eq_nil in E. destruct E as [_ E]. discriminate.
  - unfold endsWithDot. rewrite rev_app_distr. reflexivity.
  - intros u Hu He. apply in_app_or in Hu. destruct Hu as [Hu|Hu].
    + apply join_In in Hu. destruct Hu as [Hu|(s & Hs & Hu)].
      * destruct Hu as [<-|[<-|[]]]; [reflexivity|discriminate].
      * rewrite Forall_forall in Hg. destruct (Hg s Hs) as [_ Hp].
        rewrite (Hp u Hu) in He. discriminate.
    + destruct Hu as [<-|[]]. reflexivity.
Qed.

(** The theorem on the transcript [Hi! Ok?] of video 5, whose one chunk
    reads [Hi. Ok.]. *)
Lemma transcript_chunk_texts_witness :
  In (NewChunk.mk 5 0 0 (JS.lit "Hi. Ok.") 0)
     (createTranscriptChunks 5 (JS.lit "Hi! Ok?") 60)
  /\ nonEmptyChunk (Chunk.mk (Some 1) (JS.lit "Hi. Ok.") 0) = true
  /\ JS.trim (JS.lit "Hi. Ok.") = JS.lit "Hi. Ok."
  /\ endsWithDot (JS.lit "Hi. Ok.") = true
  /\ forall u, In u (JS.lit "Hi. Ok.") -> isSentenceEnd u = true ->
               u = 46%N.
Proof.
  assert (H : In (NewChunk.mk 5 0 0 (JS.lit "Hi. Ok.") 0)
                 (createTranscriptChunks 5 (JS.lit "Hi! Ok?") 60))
    by (vm_compute; left; reflexivity).
  split; [exact H|].
  exact (transcript_chunk_texts 5 (JS.lit "Hi! Ok?") 60
           (NewChunk.mk 5 0 0 (JS.lit "Hi. Ok.") 0) (Some 1) H).
Defined.

(** ** Chunks of a document *)

Lemma visible_app (a b : JS.str) : visible (a ++ b) = visible a ++ visible b.
Proof. apply filter_app. Qed.

Lemma visible_trimStart (s : JS.str) : visible (JS.trimStart s) = visible s.
Proof.
  induction s as [|c s IH]; [reflexivity|]. cbn [JS.trimStart].
  destruct (JS.isWhiteSpace c) eqn:E; [|reflexivity].
  rewrite IH. unfold visible. cbn [filter]. rewrite E. reflexivity.
Qed.

Lemma visible_trim (s : JS.str) : visible (JS.trim s) = visible s.
Proof.
  unfold JS.trim, JS.trimEnd, visible.
  rewrite filter_rev. fold (visible (JS.trimStart (rev (JS.trimStart s)))).
  rewrite visible_trimStart. unfold visible. rewrite filter_rev.
  rewrite rev_involutive. apply visible_trimStart.
Qed.

Lemma visibleAll_app (a b : list JS.str) :
  visibleAll (a ++ b) = visibleAll a ++ visibleAll b.
Proof. unfold visibleAll. rewrite concat_app. apply visible_app. Qed.

Lemma visibleAll_one (s : JS.str) : visibleAll [s] = visible s.
Proof. unfold visibleAll. cbn [List.concat]. rewrite app_nil_r. reflexivity. Qed.

Lemma visibleAll_cons (s : JS.str) (l : list JS.str) :
  visibleAll (s :: l) = visible s ++ visibleAll l.
Proof. unfold visibleAll. cbn [List.concat]. apply visible_app. Qed.

Lemma trimStart_blank (s : JS.str) :
  (forall c, In c s -> JS.isWhiteSpace c = true) -> JS.trimStart s = [].
Proof.
  induction s as [|c s IH]; intro H; [reflexivity|]. cbn [JS.trimStart].
  rewrite (H c (or_introl eq_refl)). apply IH.
  intros x Hx. apply H. right. exact Hx.
Qed.

(** A string is blank exactly when it has no visible code unit. *)
Lemma trim_nil_visible (s : JS.str) : JS.trim s = [] <-> visible s = [].
Proof.
  split; intro H.
  - rewrite <- visible_trim, H. reflexivity.
  - assert (Hb : forall c, In c s -> JS.isWhiteSpace c = true).
    { intros c Hc. destruct (JS.isWhiteSpace c) eqn:E; [reflexivity|].
      assert (Hin : In c (visible s)).
      { apply filter_In. split; [exact Hc|]. rewrite E. reflexivity. }
      rewrite H in Hin. destruct Hin. }
    unfold JS.trim, JS.trimEnd. rewrite (trimStart_blank s Hb).
    reflexivity.
Qed.

Lemma lengthZ_app (a b : JS.str) : lengthZ (a ++ b) = lengthZ a + lengthZ b.
Proof. unfold lengthZ. rewrite length_app. lia. Qed.

Lemma lengthZ_trim (s : JS.str) : lengthZ (JS.trim s) <= lengthZ s.
Proof. unfold lengthZ. pose proof (trim_length s). lia. Qed.

Lemma lengthZ_pos (s : JS.str) : (0 <? lengthZ s) = false -> s = [].
Proof.
  intro H. apply Z.ltb_ge in H. unfold lengthZ in H.
  destruct s; [reflexivity|]. cbn [List.length] in H. lia.
Qed.

(** An invariant of the pushed chunks and the current chunk is kept by
    the loop of [chunkByLines] when it is kept by its two branches. *)
Lemma lineTurn_invariant (maxChunkSize : Z) (Q : JS.str -> Prop)
      (P : list JS.str -> JS.str -> Prop) :
  (forall chunks cur line,
      Q line -> P chunks cur -> 0 < lengthZ cur ->
      P (chunks ++ [JS.trim cur]) line) ->
  (forall chunks cur line,
      Q line -> P chunks cur ->
      (0 < lengthZ cur -> lengthZ cur + lengthZ line + 1 <= maxChunkSize) ->
      P chunks ((if 0 <? lengthZ cur then cur ++ newline else cur)
                ++ line)) ->
  forall lines state,
    Forall Q lines -> P (fst state) (snd state) ->
    P (fst (fold_left (lineTurn maxChunkSize) lines state))
      (snd (fold_left (lineTurn maxChunkSize) lines state)).
Proof.
  intros Hpush Hgrow.
  induction lines as [|line lines IH]; intros [chunks cur] HQ HP;
    [exact HP|].
  inversion HQ as [|? ? Hq Hqs]; subst. cbn [fold_left].
  apply IH; [exact Hqs|]. cbn [fst snd] in HP. unfold lineTurn.
  destruct ((maxChunkSize <? lengthZ cur + lengthZ line + 1)
            && (0 <? lengthZ cur)) eqn:E; cbn [fst snd].
  - apply andb_true_iff in E. destruct E as [_ E]. apply Z.ltb_lt in E.
    apply Hpush; assumption.
  - apply Hgrow; [exact Hq|exact HP|]. intro Hpos.
    apply andb_false_iff in E. destruct E as [E|E].
    + apply Z.ltb_ge in E. exact E.
    + apply Z.ltb_ge in E. lia.
Qed.

(** The same for the loop of [chunkText]: a sentence starts a new chunk,
    or joins the current one, which may then be pushed at once. *)
Lemma sentenceLoop_invariant (maxChunkSize : Z) (Q : JS.str -> Prop)
      (P : list JS.str -> JS.str -> Prop) :
  (forall chunks cur sentence,
      Q sentence -> P chunks cur -> 0 < lengthZ cur ->
      P (chunks ++ [JS.trim cur]) sentence) ->
  (forall chunks cur sentence,
      Q sentence -> P chunks cur ->
      (0 < lengthZ cur -> lengthZ cur + lengthZ sentence <= maxChunkSize) ->
      P chunks ((if 0 <? lengthZ cur then cur ++ space else cur)
                ++ sentence)) ->
  (forall chunks cur sentence,
      Q sentence ->
      P chunks ((if 0 <? lengthZ cur then cur ++ space else cur)
                ++ sentence) ->
      P (chunks ++ [JS.trim ((if 0 <? lengthZ cur then cur ++ space
                              else cur) ++ sentence)]) []) ->
  forall sentences chunks cur,
    Forall Q sentences -> P chunks cur ->
    P (fst (sentenceLoop maxChunkSize sentences chunks cur (lengthZ cur)))
      (snd (sentenceLoop maxChunkSize sentences chunks cur (lengthZ cur))).
Proof.
  intros Hpush Hgrow Hflush.
  induction sentences as [|sentence rest IH]; intros chunks cur HQ HP;
    [exact HP|].
  inversion HQ as [|? ? Hq Hqs]; subst. cbn [sentenceLoop]. cbv zeta.
  destruct ((maxChunkSize <? lengthZ cur + lengthZ sentence)
            && (0 <? lengthZ cur)) eqn:E.
  - apply andb_true_iff in E. destruct E as [_ E]. apply Z.ltb_lt in E.
    apply IH; [exact Hqs|]. apply Hpush; assumption.
  - set (grown := (if 0 <? lengthZ cur then cur ++ space else cur)
                  ++ sentence).
    assert (Hlen : (if 0 <? lengthZ cur then lengthZ cur + 1
                    else lengthZ cur) + lengthZ sentence
                   = lengthZ grown).
    { unfold grown. destruct (0 <? lengthZ cur);
        rewrite !lengthZ_app; reflexivity. }
    rewrite Hlen.
    assert (HPg : P chunks grown).
    { apply Hgrow; [exact Hq|exact HP|]. intro Hpos.
      apply andb_false_iff in E. destruct E as [E|E].
      - apply Z.ltb_ge in E. exact E.
      - apply Z.ltb_ge in E. lia. }
    destruct (endsSentence sentence
              && match rest with
                 | nextSentence :: _ =>
                     startsCapital nextSentence
                     || startsHeading nextSentence
                 | [] => false
                 end
              && (maxChunkSize <=? 2 * lengthZ grown)).
    + apply (IH (chunks ++ [JS.trim grown]) []); [exact Hqs|].
      apply Hflush; [exact Hq|exact HPg].
    + apply IH; [exact Hqs|exact HPg].
Qed.

Lemma pushLast_visible (state : list JS.str * JS.str) :
  visibleAll (pushLast state) = visibleAll (fst state) ++ visible (snd state).
Proof.
  destruct state as [chunks cur]. unfold pushLast. cbn [fst snd].
  destruct (JS.trim cur) eqn:E; cbn [JS.truthy].
  - apply trim_nil_visible in E. rewrite E, app_nil_r. reflexivity.
  - rewrite visibleAll_app, visibleAll_one, <- E, visible_trim.
    reflexivity.
Qed.

Lemma pushLast_Forall (R : JS.str -> Prop) (state : list JS.str * JS.str) :
  Forall R (fst state) -> (JS.trim (snd state) <> [] ->
                           R (JS.trim (snd state))) ->
  Forall R (pushLast state).
Proof.
  destruct state as [chunks cur]. unfold pushLast. cbn [fst snd].
  intros Hc Hl. destruct (JS.trim cur) eqn:E; cbn [JS.truthy];
    [exact Hc|].
  apply Forall_app. split; [exact Hc|]. constructor; [|constructor].
  apply Hl. discriminate.
Qed.

Lemma Forall_snoc {A} (R : A -> Prop) (l : list A) (x : A) :
  Forall R l -> R x -> Forall R (l ++ [x]).
Proof.
  intros Hl Hx. apply Forall_app. split; [exact Hl|].
  constructor; [exact Hx|constructor].
Qed.

Lemma chunkByLines_visible (lines : list JS.str) (maxChunkSize : Z) :
  visibleAll (chunkByLines lines maxChunkSize) = visibleAll lines.
Proof.
  unfold chunkByLines. rewrite pushLast_visible.
  assert (H : forall ls state,
             visibleAll (fst (fold_left (lineTurn maxChunkSize) ls state))
             ++ visible (snd (fold_left (lineTurn maxChunkSize) ls state))
             = visibleAll (fst state) ++ visible (snd state)
               ++ visibleAll ls).
  { induction ls as [|line ls IH]; intros [chunks cur]; cbn [fold_left].
    - unfold visibleAll at 3. cbn [List.concat visible filter].
      rewrite app_nil_r. reflexivity.
    - rewrite IH, visibleAll_cons. unfold lineTurn. cbn [fst snd].
      destruct ((maxChunkSize <? lengthZ cur + lengthZ line + 1)
                && (0 <? lengthZ cur)); cbn [fst snd].
      + rewrite visibleAll_app, visibleAll_one, visible_trim.
        rewrite <- !app_assoc. reflexivity.
      + destruct (0 <? lengthZ cur); rewrite !visible_app;
          rewrite <- ?app_assoc; reflexivity. }
  rewrite (H lines ([], [])). reflexivity.
Qed.

(** [chunkByLines] keeps every visible code unit, in order: it only
    inserts line breaks and trims. *)
Theorem chunkByLines_keeps_visible_text :
  forall (lines : list JS.str) (maxChunkSize : Z),
    visibleAll (chunkByLines lines maxChunkSize) = visibleAll lines.
Proof.
  intros lines maxChunkSize. apply chunkByLines_visible.
Qed.

(** When no line is longer than [maxChunkSize], no chunk of
    [chunkByLines] is. *)
Theorem chunkByLines_bounded :
  forall (lines : list JS.str) (maxChunkSize : Z),
    Forall (fun line => lengthZ line <= maxChunkSize) lines ->
    Forall (fun chunk => lengthZ chunk <= maxChunkSize)
           (chunkByLines lines maxChunkSize).
Proof.
  intros lines maxChunkSize Hlines. unfold chunkByLines.
  pose proof (lineTurn_invariant maxChunkSize
                (fun line => lengthZ line <= maxChunkSize)
                (fun chunks cur =>
                   Forall (fun c => lengthZ c <= maxChunkSize) chunks
                   /\ (cur = [] \/ lengthZ cur <= maxChunkSize))) as Hinv.
  cbv beta in Hinv.
  destruct (Hinv
              ltac:(intros chunks cur line Hq [Hc Hcur] Hpos; split;
                    [apply Forall_snoc; [exact Hc|];
                     destruct Hcur as [->|Hcur]; [discriminate|];
                     pose proof (lengthZ_trim cur); lia
                    |right; exact Hq])
              ltac:(intros chunks cur line Hq [Hc Hcur] Hfit; split;
                    [exact Hc|]; right;
                    destruct (0 <? lengthZ cur) eqn:E;
                    [apply Z.ltb_lt in E; specialize (Hfit E);
                     rewrite !lengthZ_app; change (lengthZ newline) with 1;
                     lia
                    |apply lengthZ_pos in E; subst cur; exact Hq])
              lines ([], []) Hlines
              (conj (Forall_nil _) (or_introl eq_refl)))
    as [Hchunks Hcur].
  apply pushLast_Forall; [exact Hchunks|]. intro Hne.
  destruct Hcur as [E|Hcur].
  - rewrite E in Hne. contradiction Hne. reflexivity.
  - pose proof (lengthZ_trim
                  (snd (fold_left (lineTurn maxChunkSize) lines ([], [])))).
    lia.
Qed.

(** The theorem on three lines of two code units and the bound five:
    the chunks are the first two lines joined, and the third. *)
Lemma chunkByLines_bounded_witness :
  Forall (fun line => lengthZ line <= 5)
         [JS.lit "ab"; JS.lit "cd"; JS.lit "ef"]
  /\ Forall (fun chunk => lengthZ chunk <= 5)
            (chunkByLines [JS.lit "ab"; JS.lit "cd"; JS.lit "ef"] 5).
Proof.
  assert (H : Forall (fun line => lengthZ line <= 5)
                     [JS.lit "ab"; JS.lit "cd"; JS.lit "ef"])
    by (repeat constructor; cbn; lia).
  split; [exact H|].
  exact (chunkByLines_bounded [JS.lit "ab"; JS.lit "cd"; JS.lit "ef"] 5 H).
Defined.

Lemma visible_solid_app_l (a b : JS.str) :
  visible a <> [] -> visible (a ++ b) <> [].
Proof.
  intros Ha E. rewrite visible_app in E. apply app_eq_nil in E.
  apply Ha. exact (proj1 E).
Qed.

Lemma visible_solid_app_r (a b : JS.str) :
  visible b <> [] -> visible (a ++ b) <> [].
Proof.
  intros Hb E. rewrite visible_app in E. apply app_eq_nil in E.
  apply Hb. exact (proj2 E).
Qed.

Lemma trim_solid (s : JS.str) : JS.trim s <> [] <-> visible s <> [].
Proof. rewrite trim_nil_visible. tauto. Qed.

Lemma trim_trim_solid (s : JS.str) :
  JS.trim s <> [] -> JS.trim (JS.trim s) <> [].
Proof.
  rewrite !trim_solid. rewrite visible_trim. tauto.
Qed.

(** Lines that are not blank give chunks that are not blank. *)
Lemma chunkByLines_solid (lines : list JS.str) (maxChunkSize : Z) :
  Forall (fun line => JS.trim line <> []) lines ->
  Forall (fun chunk => JS.trim chunk <> [])
         (chunkByLines lines maxChunkSize).
Proof.
  intro Hlines. unfold chunkByLines.
  pose proof (lineTurn_invariant maxChunkSize
                (fun line => JS.trim line <> [])
                (fun chunks cur =>
                   Forall (fun c => JS.trim c <> []) chunks
                   /\ (cur = [] \/ JS.trim cur <> []))) as Hinv.
  cbv beta in Hinv.
  destruct (Hinv
              ltac:(intros chunks cur line Hq [Hc Hcur] Hpos; split;
                    [apply Forall_snoc; [exact Hc|];
                     destruct Hcur as [->|Hcur]; [discriminate|];
                     apply trim_trim_solid; exact Hcur
                    |right; exact Hq])
              ltac:(intros chunks cur line Hq [Hc Hcur] Hfit; split;
                    [exact Hc|]; right; apply trim_solid;
                    apply visible_solid_app_r; apply trim_solid; exact Hq)
              lines ([], []) Hlines
              (conj (Forall_nil _) (or_introl eq_refl)))
    as [Hchunks Hcur].
  apply pushLast_Forall; [exact Hchunks|]. apply trim_trim_solid.
Qed.

Lemma splitLines_visible (s : JS.str) :
  forall piece, visibleAll (splitLines s piece) = visible piece ++ visible s.
Proof.
  induction s as [|c s IH]; intro piece; cbn [splitLines].
  - rewrite visibleAll_one. change (visible []) with (@nil N).
    rewrite app_nil_r. reflexivity.
  - destruct (c =? 10)%N eqn:E.
    + apply N.eqb_eq in E. subst c. rewrite visibleAll_cons, IH.
      reflexivity.
    + rewrite IH, visible_app, <- app_assoc.
      rewrite <- (visible_app [c] s). reflexivity.
Qed.

Lemma visibleAll_solid (l : list JS.str) :
  visibleAll (filter (fun line => (0 <? List.length (JS.trim line))%nat) l)
  = visibleAll l.
Proof.
  induction l as [|s l IH]; [reflexivity|]. cbn [filter].
  destruct (0 <? List.length (JS.trim s))%nat eqn:E.
  - rewrite !visibleAll_cons, IH. reflexivity.
  - apply Nat.ltb_ge in E. apply Nat.le_0_r, length_zero_iff_nil in E.
    apply trim_nil_visible in E.
    rewrite visibleAll_cons, E, IH. reflexivity.
Qed.

(** When the tokenizer returns sentences, none longer than
    [maxChunkSize], every chunk of [chunkText] has at most
    [maxChunkSize + 1] code units: the test that starts a new chunk does
    not count the space that joins the sentence to the chunk. *)
Theorem chunkText_bounded :
  forall (tokenize : JS.str -> list JS.str) (text : JS.str)
         (maxChunkSize : Z),
    tokenize text <> [] ->
    Forall (fun sentence => lengthZ sentence <= maxChunkSize)
           (tokenize text) ->
    Forall (fun chunk => lengthZ chunk <= maxChunkSize + 1)
           (chunkText tokenize text maxChunkSize).
Proof.
  intros tokenize text maxChunkSize Hne Hs. unfold chunkText.
  destruct (lengthZ text <=? maxChunkSize) eqn:Eshort.
  - apply Z.leb_le in Eshort. constructor; [lia|constructor].
  - cbv zeta. destruct (tokenize text) as [|s0 ss] eqn:Et;
      [contradiction Hne; reflexivity|].
    cbn [List.length Nat.eqb].
    pose proof (sentenceLoop_invariant maxChunkSize
                  (fun sentence => lengthZ sentence <= maxChunkSize)
                  (fun chunks cur =>
                     Forall (fun c => lengthZ c <= maxChunkSize + 1) chunks
                     /\ (cur = [] \/ lengthZ cur <= maxChunkSize + 1)))
      as Hinv.
    cbv beta in Hinv.
    destruct (Hinv
                ltac:(intros chunks cur sentence Hq [Hc Hcur] Hpos; split;
                      [apply Forall_snoc; [exact Hc|];
                       destruct Hcur as [->|Hcur]; [discriminate|];
                       pose proof (lengthZ_trim cur); lia
                      |right; lia])
                ltac:(intros chunks cur sentence Hq [Hc Hcur] Hfit; split;
                      [exact Hc|]; right;
                      destruct (0 <? lengthZ cur) eqn:E;
                      [apply Z.ltb_lt in E; specialize (Hfit E);
                       rewrite !lengthZ_app; change (lengthZ space) with 1;
                       lia
                      |apply lengthZ_pos in E; subst cur;
                       cbn [app]; lia])
                ltac:(intros chunks cur sentence Hq [Hc Hcur]; split;
                      [|left; reflexivity];
                      apply Forall_snoc; [exact Hc|];
                      destruct Hcur as [Hcur|Hcur];
                      [rewrite Hcur; change (lengthZ (JS.trim [])) with 0;
                       unfold lengthZ in Hq; lia
                      |match goal with
                       | |- lengthZ (JS.trim ?g) <= _ =>
                           pose proof (lengthZ_trim g)
                       end; lia])
                (s0 :: ss) [] [] Hs
                (conj (Forall_nil _) (or_introl eq_refl)))
      as [Hchunks Hcur].
    change (lengthZ []) with 0 in Hchunks, Hcur.
    apply pushLast_Forall; [exact Hchunks|]. intro Hne'.
    destruct Hcur as [E|Hcur].
    + rewrite E in Hne'. contradiction Hne'. reflexivity.
    + pose proof (lengthZ_trim
                    (snd (sentenceLoop maxChunkSize (s0 :: ss) [] [] 0))).
      lia.
Qed.

(** The theorem for two sentences of five code units and the bound ten:
    the one chunk has eleven. *)
Lemma chunkText_bounded_witness :
  (fun _ : JS.str => [JS.lit "aaaaa"; JS.lit "bbbbb"])
    (JS.lit "aaaaa bbbbb ") <> []
  /\ Forall (fun sentence => lengthZ sentence <= 10)
            [JS.lit "aaaaa"; JS.lit "bbbbb"]
  /\ Forall (fun chunk => lengthZ chunk <= 10 + 1)
            (chunkText (fun _ => [JS.lit "aaaaa"; JS.lit "bbbbb"])
                       (JS.lit "aaaaa bbbbb ") 10)
  /\ chunkText (fun _ => [JS.lit "aaaaa"; JS.lit "bbbbb"])
               (JS.lit "aaaaa bbbbb ") 10
     = [JS.lit "aaaaa bbbbb"].
Proof.
  assert (Hne : (fun _ : JS.str => [JS.lit "aaaaa"; JS.lit "bbbbb"])
                  (JS.lit "aaaaa bbbbb ") <> []) by discriminate.
  assert (Hs : Forall (fun sentence => lengthZ sentence <= 10)
                      [JS.lit "aaaaa"; JS.lit "bbbbb"])
    by (repeat constructor; cbn; lia).
  split; [exact Hne|]. split; [exact Hs|].
  split; [|vm_compute; reflexivity].
  exact (chunkText_bounded (fun _ => [JS.lit "aaaaa"; JS.lit "bbbbb"])
                           (JS.lit "aaaaa bbbbb ") 10 Hne Hs).
Defined.

(** A text that is not blank, cut with a tokenizer that returns no blank
    sentence, gives no blank chunk: [processDocumentChunks], which embeds
    every chunk it is given, is then given none that is blank. *)
Theorem chunkText_no_blank_chunk :
  forall (tokenize : JS.str -> list JS.str) (text : JS.str)
         (maxChunkSize : Z),
    JS.trim text <> [] ->
    Forall (fun sentence => JS.trim sentence <> []) (tokenize text) ->
    Forall (fun chunk => JS.trim chunk <> [])
           (chunkText tokenize text maxChunkSize).
Proof.
  intros tokenize text maxChunkSize Htext Hs. unfold chunkText.
  destruct (lengthZ text <=? maxChunkSize);
    [constructor; [exact Htext|constructor]|].
  cbv zeta. destruct (List.length (tokenize text) =? 0)%nat.
  - destruct (1 <? List.length _)%nat;
      [|constructor; [exact Htext|constructor]].
    apply chunkByLines_solid. apply Forall_forall. intros line Hline.
    apply filter_In in Hline. destruct Hline as [_ Hline].
    intro E. rewrite E in Hline. discriminate.
  - pose proof (sentenceLoop_invariant maxChunkSize
                  (fun sentence => JS.trim sentence <> [])
                  (fun chunks cur =>
                     Forall (fun c => JS.trim c <> []) chunks
                     /\ (cur = [] \/ JS.trim cur <> []))) as Hinv.
    cbv beta in Hinv.
    destruct (Hinv
                ltac:(intros chunks cur sentence Hq [Hc Hcur] Hpos; split;
                      [apply Forall_snoc; [exact Hc|];
                       destruct Hcur as [->|Hcur]; [discriminate|];
                       apply trim_trim_solid; exact Hcur
                      |right; exact Hq])
                ltac:(intros chunks cur sentence Hq [Hc Hcur] Hfit; split;
                      [exact Hc|]; right; apply trim_solid;
                      apply visible_solid_app_r; apply trim_solid;
                      exact Hq)
                ltac:(intros chunks cur sentence Hq [Hc _]; split;
                      [|left; reflexivity];
                      apply Forall_snoc; [exact Hc|];
                      apply trim_trim_solid; apply trim_solid;
                      apply visible_solid_app_r; apply trim_solid;
                      exact Hq)
                (tokenize text) [] [] Hs
                (conj (Forall_nil _) (or_introl eq_refl)))
      as [Hchunks Hcur].
    apply pushLast_Forall; [exact Hchunks|]. apply trim_trim_solid.
Qed.

(** The theorem on a text of two sentences. *)
Lemma chunkText_no_blank_chunk_witness :
  JS.trim (JS.lit "aaaaa bbbbb ") <> []
  /\ Forall (fun sentence => JS.trim sentence <> [])
            [JS.lit "aaaaa"; JS.lit "bbbbb"]
  /\ Forall (fun chunk => JS.trim chunk <> [])
            (chunkText (fun _ => [JS.lit "aaaaa"; JS.lit "bbbbb"])
                       (JS.lit "aaaaa bbbbb ") 10).
Proof.
  assert (Ht : JS.trim (JS.lit "aaaaa bbbbb ") <> [])
    by (vm_compute; discriminate).
  assert (Hs : Forall (fun sentence => JS.trim sentence <> [])
                      [JS.lit "aaaaa"; JS.lit "bbbbb"])
    by (repeat constructor; vm_compute; discriminate).
  split; [exact Ht|]. split; [exact Hs|].
  exact (chunkText_no_blank_chunk
           (fun _ => [JS.lit "aaaaa"; JS.lit "bbbbb"])
           (JS.lit "aaaaa bbbbb ") 10 Ht Hs).
Defined.

Lemma sentenceLoop_visible (maxChunkSize : Z) (sentences : list JS.str) :
  forall (chunks : list JS.str) (cur : JS.str) (currentLength : Z),
    visibleAll (fst (sentenceLoop maxChunkSize sentences chunks cur
                                  currentLength))
    ++ visible (snd (sentenceLoop maxChunkSize sentences chunks cur
                                  currentLength))
    = visibleAll chunks ++ visible cur ++ visibleAll sentences.
Proof.
  induction sentences as [|sentence rest IH];
    intros chunks cur currentLength; cbn [sentenceLoop].
  - cbn [fst snd]. change (visibleAll []) with (@nil N).
    rewrite app_nil_r. reflexivity.
  - cbv zeta. rewrite visibleAll_cons.
    assert (Hg : visible ((if 0 <? lengthZ cur then cur ++ space else cur)
                          ++ sentence)
                 = visible cur ++ visible sentence).
    { destruct (0 <? lengthZ cur); rewrite !visible_app; [|reflexivity].
      change (visible space) with (@nil N). rewrite app_nil_r.
      reflexivity. }
    destruct ((maxChunkSize <? currentLength + lengthZ sentence)
              && (0 <? lengthZ cur)).
    + rewrite IH, visibleAll_app, visibleAll_one, visible_trim.
      rewrite <- !app_assoc. reflexivity.
    + destruct (endsSentence sentence && _ && _).
      * rewrite IH, visibleAll_app, visibleAll_one, visible_trim, Hg.
        change (visible []) with (@nil N).
        rewrite <- !app_assoc. reflexivity.
      * rewrite IH, Hg, <- !app_assoc. reflexivity.
Qed.

(** [chunkText] keeps every visible code unit of the text, in order,
    provided the tokenizer does when it returns sentences: whichever
    way the text is cut, the chunks differ from it in white space
    only. *)
Theorem chunkText_keeps_visible_text :
  forall (tokenize : JS.str -> list JS.str) (text : JS.str)
         (maxChunkSize : Z),
    (tokenize text <> [] -> visibleAll (tokenize text) = visible text) ->
    visibleAll (chunkText tokenize text maxChunkSize) = visible text.
Proof.
  intros tokenize text maxChunkSize Htok. unfold chunkText.
  destruct (lengthZ text <=? maxChunkSize); [apply visibleAll_one|].
  cbv zeta. destruct (List.length (tokenize text) =? 0)%nat eqn:En.
  - destruct (1 <? List.length _)%nat; [|apply visibleAll_one].
    rewrite chunkByLines_visible, visibleAll_solid, splitLines_visible.
    reflexivity.
  - rewrite pushLast_visible, sentenceLoop_visible.
    change (visibleAll []) with (@nil N).
    change (visible []) with (@nil N). cbn [app].
    apply Htok. intro E. rewrite E in En. discriminate.
Qed.

(** The theorem on a text of two sentences that the tokenizer separates
    at the space. *)
Lemma chunkText_keeps_visible_text_witness :
  ((fun _ : JS.str => [JS.lit "aaaaa"; JS.lit "bbbbb"])
     (JS.lit "aaaaa bbbbb ") <> [] ->
   visibleAll [JS.lit "aaaaa"; JS.lit "bbbbb"]
   = visible (JS.lit "aaaaa bbbbb "))
  /\ visibleAll (chunkText (fun _ => [JS.lit "aaaaa"; JS.lit "bbbbb"])
                           (JS.lit "aaaaa bbbbb ") 10)
     = visible (JS.lit "aaaaa bbbbb ").
Proof.
  assert (H : (fun _ : JS.str => [JS.lit "aaaaa"; JS.lit "bbbbb"])
                (JS.lit "aaaaa bbbbb ") <> [] ->
              visibleAll [JS.lit "aaaaa"; JS.lit "bbbbb"]
              = visible (JS.lit "aaaaa bbbbb "))
    by (intros _; vm_compute; reflexivity).
  split; [exact H|].
  exact (chunkText_keeps_visible_text
           (fun _ => [JS.lit "aaaaa"; JS.lit "bbbbb"])
           (JS.lit "aaaaa bbbbb ") 10 H).
Defined.

(** ** Expired temporary documents *)

(** The loop over the expired documents returns, and deletes no vector:
    every call to [deleteVectorsByUserSession] throws and the error is
    logged. *)
Lemma deleteSessionVectors_keeps (now : Z) (expiredDocs : list TempDoc.t) :
  forall w : World,
    table w = true ->
    exists w' : World,
      deleteSessionVectors now expiredDocs w = (Ok tt, w')
      /\ documents w' = documents w
      /\ video_transcripts w' = video_transcripts w
      /\ table w' = table w.
Proof.
  induction expiredDocs as [|doc rest IH]; intros w Ht.
  - exists w. cbn [deleteSessionVectors]. unfold ret. auto.
  - cbn [deleteSessionVectors]. unfold bind at 1, tryCatch, bind at 1.
    destruct (deleteVectorsByUserSession_throws
                now (TempDoc.userId doc) (TempDoc.sessionId doc) w Ht)
      as (w1 & Hrun & Hd1 & Hv1 & Ht1).
    rewrite Hrun. unfold ret at 1.
    destruct (IH w1) as (w' & Hrest & Hd & Hv & Ht'); [congruence|].
    exists w'. split; [exact Hrest|]. repeat split; congruence.
Qed.

(** The loop over the expired documents returns whatever the vector
    store does. *)
Lemma deleteSessionVectors_returns (now : Z) (expiredDocs : list TempDoc.t) :
  forall w, fst (deleteSessionVectors now expiredDocs w) = Ok tt.
Proof.
  induction expiredDocs as [|doc rest IH]; intro w; [reflexivity|].
  cbn [deleteSessionVectors]. unfold bind at 1.
  match goal with
  | |- context [tryCatch ?m (ret tt) w] =>
      pose proof (tryCatch_ret_returns m tt w) as H;
      destruct (tryCatch m (ret tt) w) as [[[]|] w1]
  end; [apply IH|contradiction H; reflexivity].
Qed.

(** [cleanupExpiredTemporaryDocuments] returns whatever the vector store
    does: it reports the number of records created before the cutoff,
    two hours before now on the local clock, and leaves the others.  The
    vectors of the expired documents are not deleted: on a service whose
    documents handle is set, both tables of the vector store are
    afterwards as before, since each call to
    [deleteVectorsByUserSession] throws and the loop drops the error. *)
Theorem expired_documents_keep_their_vectors :
  forall (cal : Calendar) (now : Z) (temporaryDocuments : list TempDoc.t)
         (w : World),
    fst (cleanupExpiredTemporaryDocuments cal now temporaryDocuments w)
    = Ok (Z.of_nat (List.length (filter (expiredDoc cal now)
                                        temporaryDocuments)),
          filter (fun d => negb (expiredDoc cal now d)) temporaryDocuments)
    /\ (table w = true ->
        documents
          (snd (cleanupExpiredTemporaryDocuments cal now temporaryDocuments
                                                 w))
        = documents w
        /\ video_transcripts
             (snd (cleanupExpiredTemporaryDocuments cal now
                                                    temporaryDocuments w))
           = video_transcripts w).
Proof.
  intros cal now temporaryDocuments w.
  unfold cleanupExpiredTemporaryDocuments.
  cbv zeta. split.
  - unfold bind.
    pose proof (deleteSessionVectors_returns
                  now (filter (expiredDoc cal now) temporaryDocuments) w)
      as H.
    destruct (deleteSessionVectors _ _ w) as [[[]|] w1];
      [reflexivity|discriminate].
  - intros Ht.
    destruct (deleteSessionVectors_keeps
                now (filter (expiredDoc cal now) temporaryDocuments) w Ht)
      as (w' & Hrun & Hdocs & Hvid & _).
    unfold bind. rewrite Hrun. cbn [snd ret]. split; assumption.
Qed.

(** The theorem three hours after the epoch, for a session with an old
    and a fresh temporary document: the record of the old document is
    removed, and its row stays in the documents table. *)
Lemma expired_documents_keep_their_vectors_witness :
  table (running [oldTemporaryRow; freshTemporaryRow; permanentRow] [])
  = true
  /\ fst (cleanupExpiredTemporaryDocuments utcCalendar 10800000
            [TempDoc.mk 52 9 100 0; TempDoc.mk 53 9 100 10000000]
            (running [oldTemporaryRow; freshTemporaryRow; permanentRow] []))
     = Ok (1, [TempDoc.mk 53 9 100 10000000])
  /\ documents
       (snd (cleanupExpiredTemporaryDocuments utcCalendar 10800000
               [TempDoc.mk 52 9 100 0; TempDoc.mk 53 9 100 10000000]
               (running [oldTemporaryRow; freshTemporaryRow; permanentRow]
                        [])))
     = Some [oldTemporaryRow; freshTemporaryRow; permanentRow].
Proof.
  destruct (expired_documents_keep_their_vectors utcCalendar 10800000
              [TempDoc.mk 52 9 100 0; TempDoc.mk 53 9 100 10000000]
              (running [oldTemporaryRow; freshTemporaryRow; permanentRow]
                       []))
    as [Hret Hrows].
  destruct (Hrows eq_refl) as [Hdocs _].
  split; [reflexivity|]. split; [exact Hret|exact Hdocs].
Defined.

(** ** Transcript search of [VideoService] *)

Lemma hitsOf_snoc (key : Z) (seen : list VideoHit.t) (h : VideoHit.t) :
  hitsOf key (seen ++ [h])
  = hitsOf key seen ++ (if VideoHit.videoId h =? key then [h] else []).
Proof. unfold hitsOf. rewrite filter_app. reflexivity. Qed.

Lemma groupPush_keys (h : VideoHit.t) (groups : list (Z * list VideoHit.t)) :
  (In (VideoHit.videoId h) (List.map fst groups)
   /\ List.map fst (groupPush h groups) = List.map fst groups)
  \/ (~ In (VideoHit.videoId h) (List.map fst groups)
      /\ List.map fst (groupPush h groups)
         = List.map fst groups ++ [VideoHit.videoId h]).
Proof.
  induction groups as [|[key chunks] rest IH]; cbn [groupPush List.map fst].
  - right. split; [intros []|reflexivity].
  - destruct (Z.eqb_spec key (VideoHit.videoId h)) as [E|E].
    + left. split; [left; exact E|reflexivity].
    + destruct IH as [[Hin Hk]|[Hin Hk]].
      * left. split; [right; exact Hin|]. cbn [List.map fst].
        rewrite Hk. reflexivity.
      * right. split; [intros [H|H]; [exact (E H)|exact (Hin H)]|].
        cbn [List.map fst app]. rewrite Hk. reflexivity.
Qed.

Lemma groupPush_In (h : VideoHit.t) (groups : list (Z * list VideoHit.t))
      (key : Z) (chunks : list VideoHit.t) :
  NoDup (List.map fst groups) ->
  In (key, chunks) (groupPush h groups) ->
  (key <> VideoHit.videoId h /\ In (key, chunks) groups)
  \/ (key = VideoHit.videoId h
      /\ ((exists before, In (key, before) groups
                          /\ chunks = before ++ [h])
          \/ (~ In key (List.map fst groups) /\ chunks = [h]))).
Proof.
  induction groups as [|[k l] rest IH]; cbn [groupPush List.map fst];
    intros Hnd Hin.
  - destruct Hin as [Hin|[]]. injection Hin as <- <-.
    right. split; [reflexivity|]. right. split; [intros []|reflexivity].
  - inversion Hnd as [|? ? Hk Hrest]; subst.
    destruct (Z.eqb_spec k (VideoHit.videoId h)) as [E|E].
    + destruct Hin as [Hin|Hin].
      * injection Hin as <- <-. right. split; [exact E|]. left.
        exists l. split; [left; reflexivity|reflexivity].
      * left. split; [|right; exact Hin].
        intro Ek. apply Hk. rewrite E, <- Ek.
        apply (in_map fst _ _ Hin).
    + destruct Hin as [Hin|Hin].
      * injection Hin as <- <-. left. split; [exact E|left; reflexivity].
      * destruct (IH Hrest Hin) as [[Hne Hold]|[He [(b & Hb & Hc)|[Hn Hc]]]].
        -- left. split; [exact Hne|right; exact Hold].
        -- right. split; [exact He|]. left. exists b.
           split; [right; exact Hb|exact Hc].
        -- right. split; [exact He|]. right. split; [|exact Hc].
           intros [H|H]; [apply E; congruence|exact (Hn H)].
Qed.

Lemma grouped_push (groups : list (Z * list VideoHit.t))
      (seen : list VideoHit.t) (h : VideoHit.t) :
  grouped groups seen -> grouped (groupPush h groups) (seen ++ [h]).
Proof.
  intros (Hnd & Hgroups & Hseen).
  split; [|split].
  - destruct (groupPush_keys h groups) as [[_ ->]|[Hn ->]]; [exact Hnd|].
    apply NoDup_rev in Hnd. rewrite <- (rev_involutive (_ ++ _)).
    apply NoDup_rev. rewrite rev_app_distr. cbn [rev app].
    constructor; [|exact Hnd]. intro H. apply Hn. apply in_rev. exact H.
  - intros key chunks Hin. rewrite hitsOf_snoc.
    destruct (groupPush_In h groups key chunks Hnd Hin)
      as [[Hne Hold]|[He [(b & Hb & Hc)|[Hn Hc]]]].
    + destruct (Hgroups key chunks Hold) as [Hc Hnil].
      destruct (Z.eqb_spec (VideoHit.videoId h) key) as [E|_];
        [contradiction Hne; symmetry; exact E|].
      rewrite app_nil_r. split; assumption.
    + destruct (Hgroups key b Hb) as [Hbe _]. subst key.
      rewrite Z.eqb_refl, <- Hbe. split; [exact Hc|].
      rewrite Hc. intro E. apply app_eq_nil in E. destruct E as [_ E].
      discriminate.
    + subst key. rewrite Z.eqb_refl.
      assert (Hempty : hitsOf (VideoHit.videoId h) seen = []).
      { apply filter_none. intros x Hx.
        destruct (Z.eqb_spec (VideoHit.videoId x) (VideoHit.videoId h))
          as [E|_]; [|reflexivity].
        contradiction Hn. rewrite <- E. apply Hseen. exact Hx. }
      rewrite Hempty. split; [exact Hc|]. rewrite Hc. discriminate.
  - intros x Hx. apply in_app_or in Hx.
    assert (Hsub : forall k, In k (List.map fst groups) ->
                             In k (List.map fst (groupPush h groups))).
    { intros k Hk. destruct (groupPush_keys h groups) as [[_ ->]|[_ ->]];
        [exact Hk|apply in_or_app; left; exact Hk]. }
    destruct Hx as [Hx|[<-|[]]]; [apply Hsub, Hseen, Hx|].
    destruct (groupPush_keys h groups) as [[Hk ->]|[_ ->]];
      [exact Hk|apply in_or_app; right; left; reflexivity].
Qed.

Lemma groupByVideo_grouped (hits : list VideoHit.t) :
  grouped (groupByVideo hits) hits.
Proof.
  unfold groupByVideo.
  assert (H : forall rest groups seen,
             grouped groups seen ->
             grouped (fold_left (fun g r => groupPush r g) rest groups)
                     (seen ++ rest)).
  { induction rest as [|h rest IH]; intros groups seen Hg; cbn [fold_left].
    - rewrite app_nil_r. exact Hg.
    - replace (seen ++ h :: rest) with ((seen ++ [h]) ++ rest)
        by (rewrite <- app_assoc; reflexivity).
      apply IH. apply grouped_push. exact Hg. }
  apply (H hits [] []). split; [constructor|]. split; intros; contradiction.
Qed.

Lemma insert_NoDup_map {A B} (cmp : A -> A -> Q) (f : A -> B) (x : A)
      (l : list A) :
  NoDup (List.map f (x :: l)) -> NoDup (List.map f (JS.insert cmp x l)).
Proof.
  induction l as [|y l IH]; cbn [JS.insert]; intro H; [exact H|].
  destruct (Qle_bool (cmp x y) 0); [exact H|].
  cbn [List.map] in *.
  inversion H as [|? ? Hx Hrest]; subst.
  inversion Hrest as [|? ? Hy Hl]; subst.
  constructor.
  - intro Hin. apply in_map_iff in Hin. destruct Hin as (z & Hz & Hin).
    apply insert_In in Hin. destruct Hin as [->|Hin].
    + apply Hx. left. symmetry. exact Hz.
    + apply Hy. rewrite <- Hz. apply in_map. exact Hin.
  - apply IH. constructor; [|exact Hl].
    intro Hin. apply Hx. right. exact Hin.
Qed.

Lemma sort_NoDup_map {A B} (cmp : A -> A -> Q) (f : A -> B) (l : list A) :
  NoDup (List.map f l) -> NoDup (List.map f (JS.sort cmp l)).
Proof.
  induction l as [|x l IH]; cbn [JS.sort]; intro H; [exact H|].
  apply insert_NoDup_map. cbn [List.map] in *.
  inversion H as [|? ? Hx Hl]; subst. constructor; [|apply IH; exact Hl].
  intro Hin. apply Hx. apply in_map_iff in Hin.
  destruct Hin as (z & Hz & Hin). apply sort_In in Hin.
  rewrite <- Hz. apply in_map. exact Hin.
Qed.

Lemma byRelevanceDescending_total (a b : RankedChunk.t) :
  (byRelevanceDescending a b <= 0)%Q \/ (byRelevanceDescending b a <= 0)%Q.
Proof.
  unfold byRelevanceDescending.
  destruct (Qlt_le_dec (RankedChunk.relevanceScore a)
                       (RankedChunk.relevanceScore b)); [right|left]; lra.
Qed.

Lemma byRelevanceDescending_trans (a b c : RankedChunk.t) :
  (byRelevanceDescending a b <= 0)%Q -> (byRelevanceDescending b c <= 0)%Q ->
  (byRelevanceDescending a c <= 0)%Q.
Proof. unfold byRelevanceDescending. lra. Qed.

Lemma byBestScoreDescending_total (a b : TranscriptResult.t) :
  (byBestScoreDescending a b <= 0)%Q \/ (byBestScoreDescending b a <= 0)%Q.
Proof.
  unfold byBestScoreDescending.
  destruct (Qlt_le_dec (bestScore (TranscriptResult.chunks a))
                       (bestScore (TranscriptResult.chunks b)));
    [right|left]; lra.
Qed.

Lemma byBestScoreDescending_trans (a b c : TranscriptResult.t) :
  (byBestScoreDescending a b <= 0)%Q -> (byBestScoreDescending b c <= 0)%Q ->
  (byBestScoreDescending a c <= 0)%Q.
Proof. unfold byBestScoreDescending. lra. Qed.

(** The results built from the groups, before the last sort. *)
Lemma finalResults_In (titleOf : Z -> JS.str) (w : World)
      (groups : list (Z * list VideoHit.t)) (g : TranscriptResult.t) :
  In g (flat_map
          (fun group =>
             if videoExists (fst group) w
             then [TranscriptResult.mk
                     (fst group) (titleOf (fst group))
                     (JS.sort byRelevanceDescending
                              (List.map rankedChunk (snd group)))]
             else [])
          groups)
  <-> exists key chunks,
      In (key, chunks) groups /\ videoExists key w = true
      /\ g = TranscriptResult.mk
               key (titleOf key)
               (JS.sort byRelevanceDescending (List.map rankedChunk chunks)).
Proof.
  rewrite in_flat_map. split.
  - intros ([key chunks] & Hin & Hg). cbn [fst snd] in Hg.
    destruct (videoExists key w) eqn:E; [|destruct Hg].
    destruct Hg as [<-|[]]. exists key, chunks. repeat split; assumption.
  - intros (key & chunks & Hin & He & ->). exists (key, chunks).
    split; [exact Hin|]. cbn [fst snd]. rewrite He. left. reflexivity.
Qed.

Lemma finalResults_NoDup (titleOf : Z -> JS.str) (w : World)
      (groups : list (Z * list VideoHit.t)) :
  NoDup (List.map fst groups) ->
  NoDup (List.map TranscriptResult.videoId
           (flat_map
              (fun group =>
                 if videoExists (fst group) w
                 then [TranscriptResult.mk
                         (fst group) (titleOf (fst group))
                         (JS.sort byRelevanceDescending
                                  (List.map rankedChunk (snd group)))]
                 else [])
              groups)).
Proof.
  induction groups as [|[key chunks] rest IH]; intro Hnd; [constructor|].
  cbn [List.map fst] in Hnd. inversion Hnd as [|? ? Hk Hrest]; subst.
  cbn [flat_map fst snd].
  destruct (videoExists key w); cbn [app List.map]; [|apply IH; exact Hrest].
  constructor; [|apply IH; exact Hrest].
  cbn [TranscriptResult.videoId]. intro Hin. apply Hk.
  apply in_map_iff in Hin. destruct Hin as (g & Hg & Hin).
  apply finalResults_In in Hin. destruct Hin as (k & c & Hin & _ & ->).
  cbn [TranscriptResult.videoId] in Hg. subst k.
  apply (in_map fst _ _ Hin).
Qed.

(** What [searchTranscripts] returns when the search of the transcripts
    answers: one entry for every video that has a hit and is found in the
    relational table, no video twice; an entry lists all the hits of its
    video, by decreasing [relevanceScore], and the entries come by
    decreasing best score.  The [relevanceScore] is the [score] of the
    hit, which [searchVideoTranscripts] sets to the distance: the greater
    distance is listed first. *)
Theorem transcript_search_groups_hits :
  forall (env : Env) (titleOf : Z -> JS.str) (now : Z) (query : JS.str)
         (subjectId : option Z) (w w' : World) (hits : list VideoHit.t),
    searchVideoTranscripts env now query subjectId (Some 10) w
    = (Ok hits, w') ->
    exists results : list TranscriptResult.t,
      searchTranscripts env titleOf now query subjectId w = (Ok results, w')
      /\ NoDup (List.map TranscriptResult.videoId results)
      /\ (forall g, In g results ->
            videoExists (TranscriptResult.videoId g) w' = true
            /\ TranscriptResult.videoTitle g
               = titleOf (TranscriptResult.videoId g)
            /\ TranscriptResult.chunks g
               = JS.sort byRelevanceDescending
                         (List.map rankedChunk
                                   (hitsOf (TranscriptResult.videoId g) hits))
            /\ TranscriptResult.chunks g <> []
            /\ StronglySorted
                 (fun a b => (RankedChunk.relevanceScore b
                              <= RankedChunk.relevanceScore a)%Q)
                 (TranscriptResult.chunks g))
      /\ (forall h, In h hits ->
            videoExists (VideoHit.videoId h) w' = true ->
            exists g, In g results
                      /\ TranscriptResult.videoId g = VideoHit.videoId h)
      /\ StronglySorted
           (fun a b => (bestScore (TranscriptResult.chunks b)
                        <= bestScore (TranscriptResult.chunks a))%Q)
           results.
Proof.
  intros env titleOf now query subjectId w w' hits Hrun.
  unfold searchTranscripts, bind. rewrite Hrun.
  destruct (List.length hits =? 0)%nat eqn:En.
  - apply Nat.eqb_eq, length_zero_iff_nil in En. subst hits.
    exists []. split; [reflexivity|]. split; [constructor|].
    split; [intros g []|]. split; [intros h []|constructor].
  - eexists. split; [reflexivity|].
    destruct (groupByVideo_grouped hits) as (Hnd & Hgroups & Hseen).
    split; [|split; [|split]].
    + apply sort_NoDup_map. apply finalResults_NoDup. exact Hnd.
    + intros g Hg. apply sort_In in Hg. apply finalResults_In in Hg.
      destruct Hg as (key & chunks & Hin & He & ->).
      cbn [TranscriptResult.videoId TranscriptResult.videoTitle
           TranscriptResult.chunks].
      destruct (Hgroups key chunks Hin) as [Hc Hne]. rewrite <- Hc.
      split; [exact He|]. split; [reflexivity|]. split; [reflexivity|].
      split.
      * intro E. apply (f_equal (@List.length RankedChunk.t)) in E.
        rewrite sort_length, length_map in E.
        apply length_zero_iff_nil in E. exact (Hne E).
      * eapply StronglySorted_weaken;
          [|apply (sort_sorted byRelevanceDescending
                               byRelevanceDescending_total
                               byRelevanceDescending_trans)].
        intros a b H. unfold byRelevanceDescending in H. lra.
    + intros h Hh He. specialize (Hseen h Hh).
      apply in_map_iff in Hseen. destruct Hseen as ([key chunks] & Hk & Hin).
      cbn [fst] in Hk. subst key.
      exists (TranscriptResult.mk
                (VideoHit.videoId h) (titleOf (VideoHit.videoId h))
                (JS.sort byRelevanceDescending
                         (List.map rankedChunk chunks))).
      split; [|reflexivity]. apply sort_In. apply finalResults_In.
      exists (VideoHit.videoId h), chunks. repeat split; assumption.
    + eapply StronglySorted_weaken;
        [|apply (sort_sorted byBestScoreDescending
                             byBestScoreDescending_total
                             byBestScoreDescending_trans)].
      intros a b H. unfold byBestScoreDescending in H. lra.
Qed.

(** The theorem on transcripts of videos 5 and 8, where the relational
    table holds video 5 only: the one entry is that of video 5, and of
    its two chunks the one at distance 49 comes before the one at
    distance 4. *)
Lemma transcript_search_groups_hits_witness :
  exists results : list TranscriptResult.t,
    searchTranscripts demoEnv (fun _ => JS.lit "title") 2000 (JS.lit "ab")
      None
      (mkWorld (Some [])
               (Some [transcriptRow 5 2; transcriptRow 8 2;
                      Video.mk [9%Q] (JS.lit "far") 5 1 0 0 2 1000])
               true true true [5] [] [])
    = (Ok results,
       emit (EvEmbedding (JS.lit "ab"))
            (mkWorld (Some [])
                     (Some [transcriptRow 5 2; transcriptRow 8 2;
                            Video.mk [9%Q] (JS.lit "far") 5 1 0 0 2 1000])
                     true true true [5] [] []))
    /\ NoDup (List.map TranscriptResult.videoId results)
    /\ List.map TranscriptResult.videoId results = [5]
    /\ List.map (fun g => List.map RankedChunk.text
                                   (TranscriptResult.chunks g)) results
       = [[JS.lit "far"; JS.lit "abcd"]].
Proof.
  destruct (transcript_search_groups_hits
              demoEnv (fun _ => JS.lit "title") 2000 (JS.lit "ab") None
              (mkWorld (Some [])
                       (Some [transcriptRow 5 2; transcriptRow 8 2;
                              Video.mk [9%Q] (JS.lit "far") 5 1 0 0 2 1000])
                       true true true [5] [] [])
              _ _ eq_refl)
    as (results & Hrun & Hnd & _).
  exists results. split; [exact Hrun|]. split; [exact Hnd|].
  vm_compute in Hrun. injection Hrun as <-.
  split; vm_compute; reflexivity.
Defined.

(** ** Maintenance of the transcripts table *)

(** A transcript search through a handle on a table that has been
    dropped throws, whatever the store and the provider do. *)
Lemma search_on_dropped_table env now query subjectId topK (w : World) :
  videoTable w = true -> video_transcripts w = None ->
  fst (searchVideoTranscripts env now query subjectId topK w) = Thrown.
Proof.
  intros Hv Hnone. unfold searchVideoTranscripts.
  rewrite (bind_unlessSet_set _ _ _ _ Hv).
  unfold tryCatch, bind at 1, embed, throw.
  destruct (getEmbedding env query) as [v|]; [|reflexivity].
  assert (Hs : forall p,
             fst (VideoTable.search env v p (orDefault 5 topK)
                                    (emit (EvEmbedding query) w)) = Thrown).
  { intro p.
    unfold VideoTable.search, search, bind, storeCall, rowsOf.
    destruct w as [docs vt d t vtb vs fs tr]. cbn in Hv, Hnone. subst.
    destruct fs as [|[|] fs]; reflexivity. }
  unfold bind.
  destruct (JS.truthyNum subjectId).
  - specialize (Hs (Some (subjectIdIs subjectId))).
    destruct (VideoTable.search _ _ _ _ _) as [[found|] w1];
      [discriminate|reflexivity].
  - specialize (Hs None).
    destruct (VideoTable.search _ _ _ _ _) as [[found|] w1];
      [discriminate|reflexivity].
Qed.

(** [cleanupAllVideoVectors] loses the transcripts table.  It drops the
    table and then calls [createTable] with [{ mode: 'overwrite' }] as
    third argument, which the client rejects: whenever the store answers
    the drop, the method throws, the table is gone with its rows while
    the handle of the service still points to it, and every later
    transcript search throws.  The documents are untouched. *)
Theorem maintenance_loses_table :
  forall (env : Env) (now : Z) (w : World) (rows : list Video.row),
    db w = true -> videoTable w = true ->
    video_transcripts w = Some rows -> hd false (faults w) = false ->
    exists w' : World,
      cleanupAllVideoVectors now w = (Thrown, w')
      /\ video_transcripts w' = None
      /\ videoTable w' = true
      /\ documents w' = documents w
      /\ forall (later : Z) (query : JS.str) (subjectId topK : option Z),
          fst (searchVideoTranscripts env later query subjectId topK w')
          = Thrown.
Proof.
  intros env now w rows Hdb Hv Hrows Hf.
  assert (Hrun : exists w' : World,
             cleanupAllVideoVectors now w = (Thrown, w')
             /\ video_transcripts w' = None
             /\ videoTable w' = true
             /\ documents w' = documents w).
  { unfold cleanupAllVideoVectors.
    rewrite (bind_unlessSet_set _ _ _ _ Hv).
    unfold tryCatch, bind, dropTable, bind, useDb, storeCall,
      VideoTable.createTable, createTable, bind, useDb, throw.
    destruct w as [docs vt d t vtb vs fs tr].
    cbn in Hdb, Hv, Hrows, Hf. subst.
    destruct fs as [|[|] fs]; try discriminate;
      eexists; (split; [reflexivity|]); repeat split. }
  destruct Hrun as (w' & Hrun & Hnone & Hv' & Hd).
  exists w'. split; [exact Hrun|]. split; [exact Hnone|].
  split; [exact Hv'|]. split; [exact Hd|].
  intros later query subjectId topK.
  apply search_on_dropped_table; assumption.
Qed.

(** The theorem on a service that holds transcripts of two videos. *)
Lemma maintenance_loses_table_witness :
  exists w' : World,
    cleanupAllVideoVectors 2000 busy = (Thrown, w')
    /\ video_transcripts w' = None
    /\ documents w' = documents busy
    /\ fst (searchVideoTranscripts demoEnv 3000 (JS.lit "ab") None None w')
       = Thrown.
Proof.
  destruct (maintenance_loses_table
              demoEnv 2000 busy [transcriptRow 5 2; transcriptRow 8 2]
              eq_refl eq_refl eq_refl eq_refl)
    as (w' & Hrun & Hnone & _ & Hd & Hsearch).
  exists w'. split; [exact Hrun|]. split; [exact Hnone|].
  split; [exact Hd|]. apply Hsearch.
Defined.

(** ** Statistics of the transcripts table *)

Lemma lookupCount_set_same (key value : Z) (acc : list (Z * Z)) :
  lookupCount key (setCount key value acc) = Some value.
Proof.
  unfold lookupCount.
  induction acc as [|[k n] rest IH]; cbn [setCount find fst].
  - rewrite Z.eqb_refl. reflexivity.
  - destruct (k =? key) eqn:E; cbn [find fst]; rewrite E;
      [reflexivity|exact IH].
Qed.

Lemma lookupCount_set_other (key other value : Z) (acc : list (Z * Z)) :
  other <> key ->
  lookupCount other (setCount key value acc) = lookupCount other acc.
Proof.
  intro Hne. unfold lookupCount.
  induction acc as [|[k n] rest IH]; cbn [setCount find fst].
  - destruct (Z.eqb_spec key other) as [E|_]; [|reflexivity].
    contradiction Hne. symmetry. exact E.
  - destruct (Z.eqb_spec k key) as [E|E]; cbn [find fst].
    + subst k. destruct (Z.eqb_spec key other) as [E'|_]; [|reflexivity].
      contradiction Hne. symmetry. exact E'.
    + destruct (k =? other); [reflexivity|exact IH].
Qed.

(** The object built by the [reduce] holds, for every subject, the
    number of records of the subject, and nothing for a subject without
    records. *)
Lemma subjectCounts_spec (records : list Video.row) (key : Z) :
  lookupCount key (fold_left bump records [])
  = if countWhere (fun r => Video.subjectId r =? key) records =? 0
    then None
    else Some (countWhere (fun r => Video.subjectId r =? key) records).
Proof.
  assert (H : forall rest acc seen,
             (forall k,
                 lookupCount k acc
                 = if countWhere (fun r => Video.subjectId r =? k) seen =? 0
                   then None
                   else Some (countWhere (fun r => Video.subjectId r =? k)
                                         seen)) ->
             forall k,
               lookupCount k (fold_left bump rest acc)
               = if countWhere (fun r => Video.subjectId r =? k)
                               (seen ++ rest) =? 0
                 then None
                 else Some (countWhere (fun r => Video.subjectId r =? k)
                                       (seen ++ rest))).
  { induction rest as [|r rest IH]; intros acc seen Hacc k;
      cbn [fold_left].
    - rewrite app_nil_r. apply Hacc.
    - replace (seen ++ r :: rest) with ((seen ++ [r]) ++ rest)
        by (rewrite <- app_assoc; reflexivity).
      apply IH. clear k. intro k. unfold bump, countWhere.
      rewrite filter_app, length_app. cbn [filter].
      destruct (Z.eqb_spec (Video.subjectId r) k) as [E|E].
      + subst k. rewrite lookupCount_set_same, Hacc.
        unfold countWhere. cbn [List.length].
        set (n := List.length
                    (filter (fun r0 => Video.subjectId r0
                                       =? Video.subjectId r) seen)).
        destruct (Z.eqb_spec (Z.of_nat n) 0) as [E0|E0];
          cbn [JS.orNum].
        * replace (Z.of_nat (n + 1)) with 1 by lia. reflexivity.
        * destruct (Z.eqb_spec (Z.of_nat n) 0) as [E1|_];
            [contradiction|].
          destruct (Z.eqb_spec (Z.of_nat (n + 1)) 0) as [E2|_]; [lia|].
          f_equal. lia.
      + rewrite lookupCount_set_other by (intro E'; apply E; symmetry;
                                          exact E').
        rewrite Hacc. unfold countWhere. cbn [List.length].
        rewrite Nat.add_0_r. reflexivity. }
  apply (H records [] []). intro k. reflexivity.
Qed.

Lemma nodup_length_same (l l' : list Z) :
  (forall x, In x l <-> In x l') ->
  List.length (nodup Z.eq_dec l) = List.length (nodup Z.eq_dec l').
Proof.
  intro H. apply Permutation_length. apply NoDup_Permutation.
  - apply NoDup_nodup.
  - apply NoDup_nodup.
  - intro x. rewrite !nodup_In. apply H.
Qed.

Lemma nodup_length_le (l : list Z) :
  (List.length (nodup Z.eq_dec l) <= List.length l)%nat.
Proof.
  apply NoDup_incl_length; [apply NoDup_nodup|].
  intros x Hx. apply nodup_In in Hx. exact Hx.
Qed.

Lemma round_ratio (t u : Z) :
  0 < u ->
  2 * t - u < 2 * u * round (inject_Z t / inject_Z u)
  /\ 2 * u * round (inject_Z t / inject_Z u) <= 2 * t + u.
Proof.
  intro Hu. unfold round.
  set (x := (inject_Z t / inject_Z u + (1 # 2))%Q).
  pose proof (Qfloor_le x) as Hle. pose proof (Qlt_floor x) as Hlt.
  set (a := Qfloor x) in *.
  assert (Hx : (x * inject_Z (2 * u) == inject_Z (2 * t + u))%Q).
  { unfold x. rewrite !inject_Z_plus, !inject_Z_mult. field.
    intro E. assert (E' : (inject_Z u == inject_Z 0)%Q) by exact E.
    apply (proj1 (inject_Z_injective u 0)) in E'. lia. }
  assert (Hp : (0 < inject_Z (2 * u))%Q).
  { change (inject_Z 0 < inject_Z (2 * u))%Q. rewrite <- Zlt_Qlt. lia. }
  split.
  - assert (H1 : (inject_Z (2 * t + u) < inject_Z (a + 1) * inject_Z (2 * u))%Q).
    { rewrite <- Hx. apply Qmult_lt_compat_r; assumption. }
    rewrite <- inject_Z_mult in H1. rewrite <- Zlt_Qlt in H1. nia.
  - assert (H1 : (inject_Z a * inject_Z (2 * u) <= inject_Z (2 * t + u))%Q).
    { rewrite <- Hx. apply Qmult_le_compat_r; [exact Hle|].
      apply Qlt_le_weak. exact Hp. }
    rewrite <- inject_Z_mult in H1. rewrite <- Zle_Qle in H1. nia.
Qed.

(** With a store that answers and at most the 10000 transcripts it
    fetches, [getVideoVectorStats] changes nothing and describes the
    table: the number of its rows, the number of distinct videos among
    them, for every subject the number of its rows, and as average the
    integer nearest to the ratio of the first two. *)
Theorem video_stats_describe_table :
  forall (env : Env) (now : Z) (w : World) (rows : list Video.row),
    videoTable w = true -> video_transcripts w = Some rows ->
    faults w = [] -> Z.of_nat (List.length rows) <= 10000 ->
    exists s : VideoStats.t,
      getVideoVectorStats env now w = (Ok s, w)
      /\ VideoStats.totalChunks s = Z.of_nat (List.length rows)
      /\ VideoStats.uniqueVideos s
         = Z.of_nat (List.length
                       (nodup Z.eq_dec (List.map Video.videoId rows)))
      /\ VideoStats.uniqueVideos s <= VideoStats.totalChunks s
      /\ (forall key,
             lookupCount key (VideoStats.subjectCounts s)
             = if countWhere (fun r => Video.subjectId r =? key) rows =? 0
               then None
               else Some (countWhere (fun r => Video.subjectId r =? key)
                                     rows))
      /\ (rows <> [] ->
          2 * VideoStats.totalChunks s - VideoStats.uniqueVideos s
          < 2 * VideoStats.uniqueVideos s * VideoStats.avgChunksPerVideo s
          /\ 2 * VideoStats.uniqueVideos s * VideoStats.avgChunksPerVideo s
             <= 2 * VideoStats.totalChunks s + VideoStats.uniqueVideos s).
Proof.
  intros env now w rows Hv Hr Hf Hlen. unfold getVideoVectorStats.
  rewrite (bind_unlessSet_set _ _ _ _ Hv).
  unfold tryCatch, bind at 1, VideoTable.countRows.
  rewrite (run_countRows video_transcripts videoTable w rows Hv Hr Hf).
  unfold bind at 1, VideoTable.search.
  rewrite (run_search video_transcripts videoTable Video.vector env w rows
                      Hv Hr Hf) by lia.
  rewrite firstn_all2 by (rewrite nearest_length; lia).
  set (records := List.map fst (nearest Video.vector env zeroVector rows)).
  assert (Hin : forall r, In r records <-> In r rows).
  { intro r. unfold records. rewrite in_map_iff. split.
    - intros (h & <- & Hh). apply nearest_In in Hh. tauto.
    - intro H. exists (r, distance env (Video.vector r) zeroVector).
      split; [reflexivity|]. apply nearest_In. cbn. tauto. }
  assert (Hu : List.length (nodup Z.eq_dec (List.map Video.videoId records))
               = List.length (nodup Z.eq_dec (List.map Video.videoId rows))).
  { apply nodup_length_same. intro x. rewrite !in_map_iff.
    split; intros (r & Hx & H); exists r; (split; [exact Hx|]);
      apply Hin; exact H. }
  unfold ret. eexists. split; [reflexivity|].
  cbn [VideoStats.totalChunks VideoStats.uniqueVideos
       VideoStats.subjectCounts VideoStats.avgChunksPerVideo].
  rewrite Hu.
  pose proof (nodup_length_le (List.map Video.videoId rows)) as Hle.
  rewrite length_map in Hle.
  split; [reflexivity|]. split; [reflexivity|]. split; [lia|]. split.
  - intro key. rewrite subjectCounts_spec. unfold countWhere, records.
    rewrite fetched_count. reflexivity.
  - intro Hne.
    set (u := Z.of_nat (List.length
                          (nodup Z.eq_dec (List.map Video.videoId rows))))
      in *.
    assert (Hpos : 0 < u).
    { unfold u. destruct rows as [|r rows']; [contradiction|].
      assert (Hm : In (Video.videoId r)
                      (nodup Z.eq_dec
                             (List.map Video.videoId (r :: rows')))).
      { apply nodup_In. left. reflexivity. }
      destruct (nodup Z.eq_dec (List.map Video.videoId (r :: rows')));
        [destruct Hm|cbn [List.length]; lia]. }
    destruct (Z.ltb_spec 0 u) as [_|Hc]; [|lia].
    apply round_ratio. exact Hpos.
Qed.

(** The theorem on the transcripts of two videos of subject 2. *)
Lemma video_stats_describe_table_witness :
  exists s : VideoStats.t,
    getVideoVectorStats demoEnv 2000 busy = (Ok s, busy)
    /\ VideoStats.totalChunks s = 2
    /\ VideoStats.uniqueVideos s = 2
    /\ lookupCount 2 (VideoStats.subjectCounts s) = Some 2
    /\ VideoStats.avgChunksPerVideo s = 1.
Proof.
  destruct (video_stats_describe_table
              demoEnv 2000 busy [transcriptRow 5 2; transcriptRow 8 2]
              eq_refl eq_refl eq_refl ltac:(cbn; lia))
    as (s & Hrun & Ht & Hu & _ & Hc & _).
  exists s. split; [exact Hrun|]. split; [exact Ht|]. split; [exact Hu|].
  split; [exact (Hc 2)|].
  vm_compute in Hrun. injection Hrun as <-. reflexivity.
Defined.
